(** * Loop chore tracker: the reducer, the streak engine and the storage adapter

    A shallow embedding of [src/types.ts], [src/utils.ts], [src/storage.ts]
    and the reducer of [src/App.tsx], followed by the properties of the
    specification that concern them.

    Modelling conventions.
    - JavaScript numbers that hold points, orders and counters are integers
      ([Z]); the conversion rate [dollarsPerPoint] is a rational ([Q]).
    - A calendar date string ['YYYY-MM-DD'] is modelled by the number of the
      day it denotes (days since 1970-01-01, a [Z]).  A [Date] that the code
      formats, moves or asks for its weekday is kept as the local calendar
      day it falls on.  [new Date(iso)] is the UTC midnight that starts the
      day, which in a zone behind UTC falls on the local day before; the
      zone is part of the runtime, [Runtime].
    - What the JavaScript runtime supplies and the code only calls is a
      parameter: the time zone, [String.prototype.trim] and the
      floating-point [toFixed] in [Runtime], [JSON.parse], [parseISO] and
      [isWithinInterval] where they are used.
    - Identifiers are strings.  The values returned by [nanoid()] and by
      [new Date().toISOString()] while a transition runs are supplied by an
      environment record [Env.t].
    - A transition either returns a state or throws; the [while (true)] loop
      of the streak engine runs on fuel and reports [OutOfFuel] when it is
      exhausted. *)

From Stdlib Require Import ZArith QArith Qabs Qround String Ascii List Lia Permutation Sorted.
From stdpp Require Import base option list strings pretty gmap.
Import ListNotations.

Local Open Scope string_scope.
Local Open Scope list_scope.
Local Open Scope Z_scope.

(* ===================================================================== *)
(** * Outcomes of JavaScript code *)
(* ===================================================================== *)

Inductive JsError := TypeError | SyntaxError.

Inductive result (A : Type) : Type :=
| Ok (a : A)
| Throw (e : JsError)
| OutOfFuel.
Arguments Ok {A} a.
Arguments Throw {A} e.
Arguments OutOfFuel {A}.

Definition bind {A B} (m : result A) (k : A -> result B) : result B :=
  match m with
  | Ok a => k a
  | Throw e => Throw e
  | OutOfFuel => OutOfFuel
  end.

Notation "'do' x <- m ; k" := (bind m (fun x => k))
  (at level 10, x name, m at level 100, k at level 200).

(** [try { body } catch { handler }] *)
Definition try_catch {A} (body : result A) (handler : JsError -> result A) : result A :=
  match body with
  | Throw e => handler e
  | r => r
  end.

(** [xs.map(f)] where the callback may throw: the first throw aborts the map. *)
Fixpoint map_throwing {A B} (f : A -> result B) (xs : list A) : result (list B) :=
  match xs with
  | [] => Ok []
  | x :: rest =>
      do y <- f x;
      do ys <- map_throwing f rest;
      Ok (y :: ys)
  end.

(* ===================================================================== *)
(** * Array and string helpers of the JavaScript runtime *)
(* ===================================================================== *)

(** [xs.findIndex(p)], with [None] for [-1]. *)
Fixpoint findIndex {A} (p : A -> bool) (xs : list A) : option nat :=
  match xs with
  | [] => None
  | x :: rest => if p x then Some O else option_map S (findIndex p rest)
  end.

(** [xs.includes(x)] *)
Definition includes_str (xs : list string) (x : string) : bool :=
  existsb (String.eqb x) xs.
Definition includes_Z (xs : list Z) (x : Z) : bool :=
  existsb (Z.eqb x) xs.

(** The white space and line terminators of ECMAScript among the code
    units below 256: TAB, LF, VT, FF, CR, SPACE and NO-BREAK SPACE. *)
Definition is_space (c : ascii) : bool :=
  let n := nat_of_ascii c in
  ((9 <=? n)%nat && (n <=? 13)%nat) || (n =? 32)%nat || (n =? 160)%nat.

Fixpoint trimStart (s : string) : string :=
  match s with
  | String c rest => if is_space c then trimStart rest else s
  | EmptyString => EmptyString
  end.

Fixpoint trimEnd (s : string) : string :=
  match s with
  | String c rest =>
      match trimEnd rest with
      | EmptyString => if is_space c then EmptyString else String c EmptyString
      | t => String c t
      end
  | EmptyString => EmptyString
  end.

(** [String.prototype.trim] on a string all of whose code units are
    below 256. *)
Definition trimLatin1 (s : string) : string := trimEnd (trimStart s).

(** [s || d] on strings: the empty string is falsy. *)
Definition str_or (s d : string) : string :=
  if String.eqb s "" then d else s.

(** [o || d] where [o] may be [undefined]. *)
Definition opt_str_or (o : option string) (d : string) : string :=
  match o with
  | Some s => str_or s d
  | None => d
  end.

(** [o || undefined] *)
Definition opt_str_or_undefined (o : option string) : option string :=
  match o with
  | Some s => if String.eqb s "" then None else Some s
  | None => None
  end.

(** The nearest multiple of 1/100, ties away from zero: what
    [+(x).toFixed(2)] is for an [x] that floating point holds exactly. *)
Definition roundCents (x : Q) : Q :=
  let a := Qabs x in
  let n := Qfloor (a * (100 # 1) + (1 # 2)) in
  if Qle_bool 0 x then (n # 100) else Qopp (n # 100).

(** What the JavaScript runtime decides and the code only calls.
    - [behindUTC d]: whether local time is behind UTC at the UTC midnight
      that starts day [d], so that [new Date] of the date string of [d] falls
      on the local day [d - 1].
    - [trim]: [String.prototype.trim].
    - [toFixed2 x]: [+(x).toFixed(2)], computed in floating point. *)
Class Runtime := {
  behindUTC : Z -> bool;
  trim : string -> string;
  toFixed2 : Q -> Q
}.

(** [xs.sort(cmp)] for a comparator [cmp]: the sort is stable, an element
    goes before the first sorted element it does not compare greater than. *)
Fixpoint insertWith {A} (cmp : A -> A -> Z) (x : A) (sorted : list A) : list A :=
  match sorted with
  | [] => [x]
  | y :: rest =>
      if cmp x y <=? 0 then x :: y :: rest
      else y :: insertWith cmp x rest
  end.

Definition sortWith {A} (cmp : A -> A -> Z) (xs : list A) : list A :=
  foldr (insertWith cmp) [] xs.

(* ===================================================================== *)
(** * src/types.ts *)
(* ===================================================================== *)

Module Kid.
Record t := mk {
  id : string;
  name : string;
  color : option string;
  avatarUrl : option string;
  avatarEmoji : option string;
  points : Z
}.
(** [{ ...k, points: p }] *)
Definition with_points (k : t) (p : Z) : t :=
  mk (id k) (name k) (color k) (avatarUrl k) (avatarEmoji k) p.
End Kid.

Inductive Schedule :=
| daily
| weekly (daysOfWeek : list Z)
| custom (dates : list Z).

Module Chore.
Record t := mk {
  id : string;
  title : string;
  points : Z;
  schedule : Schedule;
  assignedKidIds : list string;
  streakByKid : option (gmap string Z);
  order : option Z
}.
(** [{ ...c, order: o }] *)
Definition with_order (c : t) (o : Z) : t :=
  mk (id c) (title c) (points c) (schedule c) (assignedKidIds c) (streakByKid c) (Some o).
(** [{ ...ch, streakByKid: sbk }] *)
Definition with_streakByKid (c : t) (sbk : gmap string Z) : t :=
  mk (id c) (title c) (points c) (schedule c) (assignedKidIds c) (Some sbk) (order c).
End Chore.

Module Reward.
Record t := mk { id : string; title : string; cost : Z }.
End Reward.

Module Completion.
Record t := mk {
  id : string;
  choreId : string;
  kidId : string;
  date : Z;
  completed : bool
}.
(** [{ ...existing, completed }] *)
Definition with_completed (c : t) (b : bool) : t :=
  mk (id c) (choreId c) (kidId c) (date c) b.
End Completion.

Inductive Period := period_weekly | period_monthly.

Module Payout.
Record t := mk {
  id : string;
  kidId : string;
  period : Period;
  startISO : Z;
  endISO : Z;
  points : Z;
  dollars : Q;
  timestampISO : string;
  note : option string
}.
End Payout.

Module Adjustment.
Record t := mk {
  id : string;
  kidId : string;
  delta : Z;
  reason : string;
  timestampISO : string
}.
End Adjustment.

Module StreakBonus.
Record t := mk {
  id : string;
  kidId : string;
  dateISO : Z;
  streakLength : Z;
  points : Z
}.
End StreakBonus.

Module Settings.
Record t := mk {
  dollarsPerPoint : Q;
  hideCompletedOnBoard : bool
}.
End Settings.

Module State.
Record t := mk {
  kids : list Kid.t;
  chores : list Chore.t;
  rewards : list Reward.t;
  completions : list Completion.t;
  payouts : list Payout.t;
  adjustments : list Adjustment.t;
  streakBonuses : list StreakBonus.t;
  settings : Settings.t;
  version : Z
}.
(** [{ ...state, completions }] *)
Definition with_completions (s : t) (cs : list Completion.t) : t :=
  mk (kids s) (chores s) (rewards s) cs (payouts s) (adjustments s)
     (streakBonuses s) (settings s) (version s).
End State.

(** A state blob as a backup file supplies it: the fields that older backups
    lack ([version], [adjustments], [streakBonuses]) may be missing. *)
Module Blob.
Record t := mk {
  kids : list Kid.t;
  chores : list Chore.t;
  rewards : list Reward.t;
  completions : list Completion.t;
  payouts : list Payout.t;
  adjustments : option (list Adjustment.t);
  streakBonuses : option (list StreakBonus.t);
  settings : Settings.t;
  version : option Z
}.
End Blob.

(* ===================================================================== *)
(** * src/utils.ts *)
(* ===================================================================== *)

Module Utils.

(** [format(d, 'yyyy-MM-dd')], [addDays(d, n)] and [d.getDay()] on a [Date]
    kept as its local calendar day; 1970-01-01 was a Thursday. *)
Definition toISO (d : Z) : Z := d.
Definition addDays (d n : Z) : Z := d + n.
Definition getDay (d : Z) : Z := (d + 4) mod 7.

(** [new Date(dateISO)] compared with another [Date]: the instant it holds,
    the UTC midnight that starts the day, in days since the epoch. *)
Definition getTime (dateISO : Z) : Z := dateISO.

Section Local.
Context {rt : Runtime}.

(** [new Date(dateISO)] as the local calendar day it falls on: the UTC
    midnight that starts the day is still the day before in a zone behind
    UTC. *)
Definition newDate (dateISO : Z) : Z :=
  if behindUTC dateISO then dateISO - 1 else dateISO.

Definition isChoreDueOn (chore : Chore.t) (dateISO : Z) : bool :=
  let d := newDate dateISO in
  let dow := getDay d in
  match Chore.schedule chore with
  | daily => true
  | weekly daysOfWeek => includes_Z daysOfWeek dow
  | custom dates => includes_Z dates dateISO
  end.
End Local.

(** [new Date(year, monthIndex0, 1)], kept as its (year, month): a year
    from 0 to 99 stands for 1900 + year, and a month index outside 0..11
    carries into the year.  This is the [Date] for a month inside the range
    of [Date], which ends in the year 275760; past it the [Date] is invalid
    and its fields are [NaN], which the pair does not show. *)
Definition firstOfMonth (year monthIndex0 : Z) : Z * Z :=
  let y := if (0 <=? year) && (year <=? 99) then 1900 + year else year in
  (y + monthIndex0 / 12, monthIndex0 mod 12).

(** [d.setMonth(m)] on the first day of a month. *)
Definition setMonth (d : Z * Z) (m : Z) : Z * Z :=
  (fst d + m / 12, m mod 12).

Definition getFullYear (d : Z * Z) : Z := fst d.
Definition getMonth (d : Z * Z) : Z := snd d.

Definition prevMonth (year monthIndex0 : Z) : Z * Z :=
  let d := firstOfMonth year monthIndex0 in
  let d := setMonth d (getMonth d - 1) in
  (getFullYear d, getMonth d).

Definition nextMonth (year monthIndex0 : Z) : Z * Z :=
  let d := firstOfMonth year monthIndex0 in
  let d := setMonth d (getMonth d + 1) in
  (getFullYear d, getMonth d).

(** date-fns [startOfWeek] and [endOfWeek] with [{ weekStartsOn }]. *)
Definition startOfWeek (date weekStartsOn : Z) : Z :=
  let day := getDay date in
  let diff := (if day <? weekStartsOn then 7 else 0) + day - weekStartsOn in
  addDays date (- diff).

Definition endOfWeek (date weekStartsOn : Z) : Z :=
  let day := getDay date in
  let diff := (if day <? weekStartsOn then -7 else 0) + 6 - (day - weekStartsOn) in
  addDays date diff.

Definition weekRange (date : Z) : Z * Z :=
  let start := startOfWeek date 0 in
  let end_ := endOfWeek date 0 in
  (toISO start, toISO end_).

Section Interval.
(** date-fns [isWithinInterval(d, { start, end })], which compares the
    instants of the three dates; what it does with an interval whose start
    is after its end differs between versions of the library, so it is a
    parameter. *)
Variable isWithinInterval : Z -> Z -> Z -> result bool.

(** The [for] loop of [sumPoints], [sum] being the running total. *)
Fixpoint sumPoints_loop (set : list Completion.t) (start end_ : Z)
         (allChores : list Chore.t) (sum : Z) : result Z :=
  match set with
  | [] => Ok sum
  | c :: rest =>
      let d := getTime (Completion.date c) in
      do within <- isWithinInterval d start end_;
      if within then
        let ch := List.find (fun x => String.eqb (Chore.id x) (Completion.choreId c))
                            allChores in
        match ch with
        | Some ch => sumPoints_loop rest start end_ allChores (sum + Chore.points ch)
        | None => sumPoints_loop rest start end_ allChores sum
        end
      else sumPoints_loop rest start end_ allChores sum
  end.

Definition sumPoints (completions : list Completion.t) (kidId : string)
           (startISO endISO : Z) (allChores : list Chore.t) : result Z :=
  let start := getTime startISO in
  let end_ := getTime endISO in
  let set :=
    List.filter (fun c => String.eqb (Completion.kidId c) kidId && Completion.completed c)
                completions in
  sumPoints_loop set start end_ allChores 0.
End Interval.

End Utils.

(* ===================================================================== *)
(** * src/App.tsx: streak helpers and the reducer *)
(* ===================================================================== *)

(** What the random and clock calls return during one transition:
    [nanoid_1] is the id given to the record the action creates (kid, chore,
    adjustment, completion, reward, payout), [nanoid_2] the id given to a
    streak bonus, [now] is [new Date().toISOString()]. *)
Module Env.
Record t := mk { nanoid_1 : string; nanoid_2 : string; now : string }.
End Env.

Module App.
Import Utils.

Section Reducer.
Context {rt : Runtime}.

(* ---------- helpers for streak bonus ---------- *)

Definition choresDueForKidOnDate (state : State.t) (kidId : string) (dateISO : Z)
  : list Chore.t :=
  List.filter
    (fun ch => includes_str (Chore.assignedKidIds ch) kidId && isChoreDueOn ch dateISO)
    (State.chores state).

(** [c.kidId === kidId && c.choreId === choreId && c.date === dateISO] *)
Definition same_triple (kidId choreId : string) (dateISO : Z) (c : Completion.t) : bool :=
  String.eqb (Completion.kidId c) kidId
  && String.eqb (Completion.choreId c) choreId
  && Z.eqb (Completion.date c) dateISO.

(** [... && c.completed] *)
Definition done_triple (kidId choreId : string) (dateISO : Z) (c : Completion.t) : bool :=
  same_triple kidId choreId dateISO c && Completion.completed c.

Definition isFullDayDone (state : State.t) (kidId : string) (dateISO : Z) : bool :=
  let due := choresDueForKidOnDate state kidId dateISO in
  if (length due =? 0)%nat then false
  else forallb
         (fun ch => existsb (done_triple kidId (Chore.id ch) dateISO)
                            (State.completions state))
         due.

(** The [while (true)] loop of [consecutiveFullDaysEndingOn]: [n] and [d]
    are the loop variables, one unit of fuel is spent per iteration. *)
Fixpoint fullDaysLoop (fuel : nat) (state : State.t) (kidId : string) (n d : Z)
  : result Z :=
  match fuel with
  | O => OutOfFuel
  | S fuel' =>
      let iso := toISO d in
      if negb (isFullDayDone state kidId iso) then Ok n
      else fullDaysLoop fuel' state kidId (n + 1) (addDays d (-1))
  end.

Definition consecutiveFullDaysEndingOn (state : State.t) (kidId : string) (dateISO : Z)
  : result Z :=
  fullDaysLoop (S (length (State.completions state))) state kidId 0 (newDate dateISO).

(* ---------- actions ---------- *)

Inductive Action :=
| ADD_KID (name : string) (color : option string) (avatarEmoji : option string)
| ADJUST_POINTS_WITH_REASON (kidId : string) (delta : Z) (reason : string)
| UPDATE_SETTINGS (dollarsPerPoint : option Q) (hideCompletedOnBoard : option bool)
| ADD_CHORE (title : string) (points : Z) (schedule : Schedule)
            (assignedKidIds : list string)
| DELETE_CHORE (id : string)
| REORDER_CHORES (orderedIds : list string)
| TOGGLE_COMPLETE (kidId choreId : string) (dateISO : Z)
| ADD_REWARD (title : string) (cost : Z)
| REDEEM_REWARD (kidId rewardId : string)
| DELETE_REWARD (id : string)
| PAYOUT (kidId : string) (period : Period) (startISO endISO : Z) (points : Z)
| RESET_ALL
| REPLACE_ALL (state : Blob.t).

Definition pastelPool : list string :=
  ["#c9e4ff"; "#ffe0f2"; "#e6ffea"; "#fff3c9"; "#e7e0ff"; "#ffdacc"].

(** The state literal of [RESET_ALL]. *)
Definition emptyState : State.t :=
  State.mk [] [] [] [] [] [] [] (Settings.mk (1 # 10) true) 3.

(** [action.orderedIds.forEach((id, i) => orderMap.set(id, i+1))], from
    index [i] on. *)
Fixpoint forEach_set (ids : list string) (i : Z) (orderMap : gmap string Z)
  : gmap string Z :=
  match ids with
  | [] => orderMap
  | id :: rest => forEach_set rest (i + 1) (<[id := i + 1]> orderMap)
  end.

(** [Array.prototype.sort] with the comparator
    [(a,b) => (a.order ?? 0) - (b.order ?? 0)]; the sort is stable. *)
Definition order_key (c : Chore.t) : Z := default 0 (Chore.order c).

Fixpoint insert_by_order (c : Chore.t) (sorted : list Chore.t) : list Chore.t :=
  match sorted with
  | [] => [c]
  | x :: rest =>
      if order_key c - order_key x <=? 0 then c :: x :: rest
      else x :: insert_by_order c rest
  end.

Definition sort_by_order (cs : list Chore.t) : list Chore.t :=
  foldr insert_by_order [] cs.

(** [!o] on an object that may be [undefined]. *)
Definition is_undefined {A} (o : option A) : bool :=
  match o with
  | Some _ => false
  | None => true
  end.

(** Reading a property of a value that may be [undefined]. *)
Definition deref {A} (o : option A) : result A :=
  match o with
  | Some a => Ok a
  | None => Throw TypeError
  end.

(** [kids.map(k => k.id===kidId ? { ...k, points: f(k.points) } : k)] *)
Definition map_points (kidId : string) (f : Z -> Z) (kids : list Kid.t) : list Kid.t :=
  map (fun k => if String.eqb (Kid.id k) kidId
                then Kid.with_points k (f (Kid.points k)) else k) kids.

(** Lines 101-112: the completion record of the triple is created, removed
    or switched back on; the result is [completions] and [completed]. *)
Definition toggle_record (env : Env.t) (state : State.t)
           (kidId choreId : string) (dateISO : Z) : result (list Completion.t * bool) :=
  let idx := findIndex (same_triple kidId choreId dateISO) (State.completions state) in
  let completions := State.completions state in
  match idx with
  | Some i =>
      do existing <- deref (completions !! i);
      let completed := negb (Completion.completed existing) in
      if negb completed then Ok (delete i completions, completed)
      else Ok (<[i := Completion.with_completed existing completed]> completions,
               completed)
  | None =>
      Ok (completions ++ [Completion.mk (Env.nanoid_1 env) choreId kidId dateISO true],
          true)
  end.

(** Lines 114-122: points add/remove for the chore itself. *)
Definition toggle_points (state : State.t) (kidId choreId : string) (dateISO : Z)
           (completed : bool) : result (list Kid.t) :=
  let idx := findIndex (same_triple kidId choreId dateISO) (State.completions state) in
  let chore := List.find (fun c => String.eqb (Chore.id c) choreId) (State.chores state) in
  map_throwing
    (fun k =>
       if negb (String.eqb (Kid.id k) kidId) then Ok k
       else
         do wasChecked <-
           match idx with
           | Some i => do c <- deref (State.completions state !! i);
                       Ok (Completion.completed c)
           | None => Ok false
           end;
         if negb wasChecked && completed then
           do ch <- deref chore;
           Ok (Kid.with_points k (Kid.points k + Chore.points ch))
         else if wasChecked && negb completed then
           do ch <- deref chore;
           Ok (Kid.with_points k (Z.max 0 (Kid.points k - Chore.points ch)))
         else Ok k)
    (State.kids state).

(** Lines 124-133: update [streakByKid] for the chore; [streakUpdate] is
    the callback of the [map]. *)
Definition streakUpdate (state : State.t) (kidId choreId : string) (dateISO : Z)
           (completed : bool) (ch : Chore.t) : Chore.t :=
  if negb (String.eqb (Chore.id ch) choreId) then ch
  else
    let sbk := default ∅ (Chore.streakByKid ch) in
    let yISO := toISO (addDays (newDate dateISO) (-1)) in
    let didYesterday :=
      existsb (done_triple kidId choreId yISO) (State.completions state) in
    let sbk' :=
      if completed
      then <[kidId := if didYesterday then default 0 (sbk !! kidId) + 1 else 1]> sbk
      else <[kidId := 0]> sbk in
    Chore.with_streakByKid ch sbk'.

Definition toggle_streaks (state : State.t) (kidId choreId : string) (dateISO : Z)
           (completed : bool) : list Chore.t :=
  map (streakUpdate state kidId choreId dateISO completed) (State.chores state).

(** Lines 135-158: the 10-day-all-chores streak bonus, awarded or revoked;
    the result is [kids] and [streakBonuses]. *)
Definition toggle_bonus (env : Env.t) (state : State.t) (kidId : string) (dateISO : Z)
           (completions : list Completion.t) (kids : list Kid.t)
  : result (list Kid.t * list StreakBonus.t) :=
  let streakBonuses := State.streakBonuses state in
  let state' := State.with_completions state completions in
  let fullToday := isFullDayDone state' kidId dateISO in
  let existingBonusForToday :=
    List.find (fun b => String.eqb (StreakBonus.kidId b) kidId
                        && Z.eqb (StreakBonus.dateISO b) dateISO) streakBonuses in
  if fullToday then
    do run <- consecutiveFullDaysEndingOn state' kidId dateISO;
    if (0 <? run) && (Z.rem run 10 =? 0) && is_undefined existingBonusForToday
    then
      let points := 5 in
      let bonus := StreakBonus.mk (Env.nanoid_2 env) kidId dateISO run points in
      Ok (map_points kidId (fun p => p + points) kids, bonus :: streakBonuses)
    else Ok (kids, streakBonuses)
  else
    match existingBonusForToday with
    | Some b =>
        let points := StreakBonus.points b in
        Ok (map_points kidId (fun p => Z.max 0 (p - points)) kids,
            List.filter
              (fun b' => negb (String.eqb (StreakBonus.id b') (StreakBonus.id b)))
              streakBonuses)
    | None => Ok (kids, streakBonuses)
    end.

(** The [TOGGLE_COMPLETE] case, lines 99-161. *)
Definition toggle_complete (env : Env.t) (state : State.t)
           (kidId choreId : string) (dateISO : Z) : result State.t :=
  do cc <- toggle_record env state kidId choreId dateISO;
  let completions := fst cc in
  let completed := snd cc in
  do kids <- toggle_points state kidId choreId dateISO completed;
  let chores := toggle_streaks state kidId choreId dateISO completed in
  do ks <- toggle_bonus env state kidId dateISO completions kids;
  Ok (State.mk (fst ks) chores (State.rewards state) completions
               (State.payouts state) (State.adjustments state) (snd ks)
               (State.settings state) (State.version state)).

Definition reducer (env : Env.t) (state : State.t) (action : Action) : result State.t :=
  match action with
  | ADD_KID name color avatarEmoji =>
      let pick :=
        opt_str_or color
          (nth (length (State.kids state) mod length pastelPool)%nat pastelPool "") in
      let kid := Kid.mk (Env.nanoid_1 env) (trim name) (Some pick) None
                        (opt_str_or_undefined avatarEmoji) 0 in
      Ok (State.mk (State.kids state ++ [kid]) (State.chores state) (State.rewards state)
                   (State.completions state) (State.payouts state)
                   (State.adjustments state) (State.streakBonuses state)
                   (State.settings state) (State.version state))
  | ADJUST_POINTS_WITH_REASON kidId delta reason =>
      let kids := map_points kidId (fun p => Z.max 0 (p + delta)) (State.kids state) in
      let adjustments :=
        Adjustment.mk (Env.nanoid_1 env) kidId delta
          (str_or (trim reason) (String.append (if 0 <? delta then "+" else "-") "adjust"))
          (Env.now env)
        :: State.adjustments state in
      Ok (State.mk kids (State.chores state) (State.rewards state)
                   (State.completions state) (State.payouts state)
                   adjustments (State.streakBonuses state)
                   (State.settings state) (State.version state))
  | UPDATE_SETTINGS dollarsPerPoint hideCompletedOnBoard =>
      let old := State.settings state in
      Ok (State.mk (State.kids state) (State.chores state) (State.rewards state)
                   (State.completions state) (State.payouts state)
                   (State.adjustments state) (State.streakBonuses state)
                   (Settings.mk
                      (default (Settings.dollarsPerPoint old) dollarsPerPoint)
                      (default (Settings.hideCompletedOnBoard old) hideCompletedOnBoard))
                   (State.version state))
  | ADD_CHORE title points schedule assignedKidIds =>
      let maxOrder :=
        fold_left (fun m c => Z.max m (default 0 (Chore.order c))) (State.chores state) 0 in
      let chore := Chore.mk (Env.nanoid_1 env) title points schedule assignedKidIds
                            (Some ∅) (Some (maxOrder + 1)) in
      Ok (State.mk (State.kids state) (State.chores state ++ [chore])
                   (State.rewards state) (State.completions state) (State.payouts state)
                   (State.adjustments state) (State.streakBonuses state)
                   (State.settings state) (State.version state))
  | DELETE_CHORE id =>
      let chores :=
        List.filter (fun c => negb (String.eqb (Chore.id c) id)) (State.chores state) in
      let completions :=
        List.filter (fun c => negb (String.eqb (Completion.choreId c) id))
                    (State.completions state) in
      Ok (State.mk (State.kids state) chores (State.rewards state) completions
                   (State.payouts state) (State.adjustments state)
                   (State.streakBonuses state) (State.settings state)
                   (State.version state))
  | REORDER_CHORES orderedIds =>
      let orderMap := forEach_set orderedIds 0 ∅ in
      let chores :=
        sort_by_order
          (map (fun c =>
                  Chore.with_order c
                    (match orderMap !! Chore.id c with
                     | Some o => o
                     | None => default 9999 (Chore.order c)
                     end))
               (State.chores state)) in
      Ok (State.mk (State.kids state) chores (State.rewards state)
                   (State.completions state) (State.payouts state)
                   (State.adjustments state) (State.streakBonuses state)
                   (State.settings state) (State.version state))
  | TOGGLE_COMPLETE kidId choreId dateISO =>
      toggle_complete env state kidId choreId dateISO
  | ADD_REWARD title cost =>
      Ok (State.mk (State.kids state) (State.chores state)
                   (State.rewards state ++ [Reward.mk (Env.nanoid_1 env) title cost])
                   (State.completions state) (State.payouts state)
                   (State.adjustments state) (State.streakBonuses state)
                   (State.settings state) (State.version state))
  | DELETE_REWARD id =>
      Ok (State.mk (State.kids state) (State.chores state)
                   (List.filter (fun r => negb (String.eqb (Reward.id r) id))
                                (State.rewards state))
                   (State.completions state) (State.payouts state)
                   (State.adjustments state) (State.streakBonuses state)
                   (State.settings state) (State.version state))
  | REDEEM_REWARD _ _ => Ok state
  | PAYOUT kidId period startISO endISO points =>
      let dollars :=
        toFixed2 (inject_Z points * Settings.dollarsPerPoint (State.settings state)) in
      let payout := Payout.mk (Env.nanoid_1 env) kidId period startISO endISO points
                              dollars (Env.now env) None in
      Ok (State.mk (State.kids state) (State.chores state) (State.rewards state)
                   (State.completions state) (payout :: State.payouts state)
                   (State.adjustments state) (State.streakBonuses state)
                   (State.settings state) (State.version state))
  | RESET_ALL => Ok emptyState
  | REPLACE_ALL blob =>
      Ok (State.mk (Blob.kids blob) (Blob.chores blob) (Blob.rewards blob)
                   (Blob.completions blob) (Blob.payouts blob)
                   (default [] (Blob.adjustments blob))
                   (default [] (Blob.streakBonuses blob))
                   (Blob.settings blob)
                   (default 3 (Blob.version blob)))
  end.

End Reducer.

(** [isCompleted] of the [App] component (line 245). *)
Definition isCompleted (state : State.t) (choreId : string) (dateISO : Z)
           (kidId : string) : bool :=
  existsb (fun c => String.eqb (Completion.choreId c) choreId
                    && Z.eqb (Completion.date c) dateISO
                    && String.eqb (Completion.kidId c) kidId
                    && Completion.completed c)
          (State.completions state).

End App.

(* ===================================================================== *)
(** * src/storage.ts *)
(* ===================================================================== *)

(** What [JSON.parse] returns. *)
#[warnings="-register-all"]
Inductive json :=
| JNull
| JBool (b : bool)
| JNum (q : Q)
| JStr (s : string)
| JArr (items : list json)
| JObj (props : list (string * json)).

Module Storage.

Definition KEY : string := "skylight_kids_state_v2".

(** Own enumerable properties copied by an object spread [...v]: the
    properties of an object (a later binding of a name wins), the indices of
    an array or of a string, nothing for the other values. *)
Fixpoint props_from (kvs : list (string * json)) (acc : gmap string json)
  : gmap string json :=
  match kvs with
  | [] => acc
  | (k, v) :: rest => props_from rest (<[k := v]> acc)
  end.

Fixpoint indexed (i : nat) (items : list json) : list (string * json) :=
  match items with
  | [] => []
  | x :: rest => (pretty i, x) :: indexed (S i) rest
  end.

Fixpoint chars (s : string) : list json :=
  match s with
  | EmptyString => []
  | String c rest => JStr (String c EmptyString) :: chars rest
  end.

Definition ownProps (v : json) : gmap string json :=
  match v with
  | JObj props => props_from props ∅
  | JArr items => props_from (indexed 0 items) ∅
  | JStr s => props_from (indexed 0 (chars s)) ∅
  | _ => ∅
  end.

(** The object literal that [loadState] returns or spreads into. *)
Definition defaults : gmap string json :=
  props_from
    [ ("version", JNum (2 # 1));
      ("kids", JArr []); ("chores", JArr []); ("rewards", JArr []);
      ("completions", JArr []); ("payouts", JArr []);
      ("settings", JObj [ ("dollarsPerPoint", JNum (1 # 10));
                          ("hideCompletedOnBoard", JBool true) ]) ]
    ∅.

Section Runtime.
(** [JSON.parse]: [None] when it throws its [SyntaxError] on malformed text. *)
Variable JSON_parse : string -> option json.

Definition parse (text : string) : result json :=
  match JSON_parse text with
  | Some v => Ok v
  | None => Throw SyntaxError
  end.

Definition loadState (localStorage : gmap string string) : result (gmap string json) :=
  let raw := localStorage !! KEY in
  match raw with
  | None => Ok defaults
  | Some text =>
      if String.eqb text "" then Ok defaults
      else
        try_catch
          (do parsed <- parse text;
           Ok (ownProps parsed ∪ defaults))
          (fun _ => Ok defaults)
  end.

(** The initializer of [useReducer] in [usePersistentState]:
    [{ adjustments: [], streakBonuses: [], ...s }]. *)
Definition initialState (localStorage : gmap string string)
  : result (gmap string json) :=
  do s <- loadState localStorage;
  Ok (s ∪ props_from [("adjustments", JArr []); ("streakBonuses", JArr [])] ∅).
End Runtime.

Section Saving.
(** [JSON.stringify] *)
Variable JSON_stringify : json -> string.

Definition saveState (s : json) (localStorage : gmap string string)
  : gmap string string :=
  <[KEY := JSON_stringify s]> localStorage.
End Saving.

End Storage.

(* ===================================================================== *)
(** * src/Reports.tsx: the totals of the report window *)
(* ===================================================================== *)

Module Reports.

(** One row of the summary table. *)
Record Row := mkRow {
  kid : Kid.t;
  choresPts : Z;
  adjPts : Z;
  bonusPts : Z;
  net : Z
}.

(** [t >= start.getTime() && t <= end.getTime()] *)
Definition between (d start end_ : Z) : bool :=
  (start <=? d) && (d <=? end_).

(** [dict[key] = (dict[key] || 0) + n], for a key that names no property
    of [Object.prototype] (the ids that [nanoid] generates never do). *)
Definition addTo (dict : gmap string Z) (key : string) (n : Z) : gmap string Z :=
  <[key := default 0 (dict !! key) + n]> dict.

(** [for (const ch of chores) m.set(ch.id, ch.points)] *)
Definition choreById (chores : list Chore.t) : gmap string Z :=
  fold_left (fun m ch => <[Chore.id ch := Chore.points ch]> m) chores ∅.

Section Runtime.
(** [parseISO] of a date string gives the instant of the local midnight that
    starts the day, [parseISO] of a timestamp the instant it names;
    [localeCompare] compares two timestamp strings. *)
Variable parseISO_date : Z -> Z.
Variable parseISO_time : string -> Z.
Variable localeCompare : string -> string -> Z.

Section Window.
Variables (state : State.t) (kidId : string) (startISO endISO : Z).

Definition start : Z := parseISO_date startISO.
Definition end_ : Z := parseISO_date endISO.

Definition adjFiltered : list Adjustment.t :=
  sortWith
    (fun a b => localeCompare (Adjustment.timestampISO b) (Adjustment.timestampISO a))
    (List.filter
       (fun a => (String.eqb kidId "all" || String.eqb (Adjustment.kidId a) kidId)
                 && between (parseISO_time (Adjustment.timestampISO a)) start end_)
       (State.adjustments state)).

(** The date strings are compared as the days they denote. *)
Definition bonusFiltered : list StreakBonus.t :=
  sortWith
    (fun a b => StreakBonus.dateISO b - StreakBonus.dateISO a)
    (List.filter
       (fun b => (String.eqb kidId "all" || String.eqb (StreakBonus.kidId b) kidId)
                 && between (parseISO_date (StreakBonus.dateISO b)) start end_)
       (State.streakBonuses state)).

(** Chore points earned (from completions) in window. *)
Definition completionPoints : gmap string Z :=
  fold_left
    (fun perKid c =>
       if negb (Completion.completed c) then perKid
       else
         let d := parseISO_date (Completion.date c) in
         if negb (between d start end_) then perKid
         else if negb (String.eqb kidId "all")
                 && negb (String.eqb (Completion.kidId c) kidId) then perKid
         else
           let pts := default 0 (choreById (State.chores state) !! Completion.choreId c) in
           addTo perKid (Completion.kidId c) pts)
    (State.completions state) ∅.

(** Manual adjustments totals in window. *)
Definition adjustmentsTotal : gmap string Z :=
  fold_left (fun total a => addTo total (Adjustment.kidId a) (Adjustment.delta a))
            adjFiltered ∅.

(** Bonus totals in window. *)
Definition bonusTotal : gmap string Z :=
  fold_left (fun total b => addTo total (StreakBonus.kidId b) (StreakBonus.points b))
            bonusFiltered ∅.

(** Build summary rows by kid, highest net first. *)
Definition summaryRows : list Row :=
  sortWith
    (fun a b => net b - net a)
    (map (fun k =>
            let choresPts := default 0 (completionPoints !! Kid.id k) in
            let adjPts := default 0 (adjustmentsTotal !! Kid.id k) in
            let bonusPts := default 0 (bonusTotal !! Kid.id k) in
            let net := choresPts + adjPts + bonusPts in
            mkRow k choresPts adjPts bonusPts net)
         (List.filter (fun k => String.eqb kidId "all" || String.eqb (Kid.id k) kidId)
                      (State.kids state))).
End Window.
End Runtime.

End Reports.

(* ===================================================================== *)
(** * src/BoardView.tsx: what a column of the board shows *)
(* ===================================================================== *)

Module BoardView.
Import Utils.

Section Board.
Context {rt : Runtime}.
Variables (state : State.t) (dateISO : Z).

(** [data]: the chores due on the date, by kid id. *)
Definition data : gmap string (list Chore.t) :=
  fold_left
    (fun map kid =>
       <[Kid.id kid :=
           List.filter
             (fun ch => includes_str (Chore.assignedKidIds ch) (Kid.id kid)
                        && isChoreDueOn ch dateISO)
             (State.chores state)]> map)
    (State.kids state) ∅.

Definition isCompleted (choreId kidId : string) : bool :=
  existsb (fun c => String.eqb (Completion.choreId c) choreId
                    && String.eqb (Completion.kidId c) kidId
                    && Z.eqb (Completion.date c) dateISO
                    && Completion.completed c)
          (State.completions state).

(** Whether the column of the kid shows "No chores due". *)
Definition noChoresDue (kid : Kid.t) : bool :=
  match data !! Kid.id kid with
  | None => true
  | Some due => (length due =? 0)%nat
  end.

(** The cards of the column of the kid, each with its [done] flag: a done
    card is left out when completed chores are hidden. *)
Definition cards (kid : Kid.t) : list (Chore.t * bool) :=
  match data !! Kid.id kid with
  | None => []
  | Some due =>
      omap (fun ch =>
              let done := isCompleted (Chore.id ch) (Kid.id kid) in
              if Settings.hideCompletedOnBoard (State.settings state) && done
              then None
              else Some (ch, done))
           due
  end.
End Board.

End BoardView.

(* ===================================================================== *)
(** * Vocabulary of the properties *)
(* ===================================================================== *)

Import Utils App.

Section Vocabulary.
Context {rt : Runtime}.

(** Number of completion records dated on or before day [d]: the quantity
    that decreases along the backward walk over full days. *)
Definition recordsUpTo (state : State.t) (d : Z) : nat :=
  length (List.filter (fun c => Completion.date c <=? d) (State.completions state)).

(** The key of a completion and of a streak bonus. *)
Definition completionKey (c : Completion.t) : string * string * Z :=
  (Completion.kidId c, Completion.choreId c, Completion.date c).
Definition bonusKey (b : StreakBonus.t) : string * Z :=
  (StreakBonus.kidId b, StreakBonus.dateISO b).

(** At most one completion per (kid, chore, date), at most one streak bonus
    per (kid, date). *)
Definition uniqueCompletions (cs : list Completion.t) : Prop :=
  List.NoDup (map completionKey cs).
Definition uniqueBonuses (bs : list StreakBonus.t) : Prop :=
  List.NoDup (map bonusKey bs).
Definition uniqueRecords (s : State.t) : Prop :=
  uniqueCompletions (State.completions s) /\ uniqueBonuses (State.streakBonuses s).

(** Every kid of the list has a non-negative balance. *)
Definition pointsNonNegative (kids : list Kid.t) : Prop :=
  Forall (fun k => 0 <= Kid.points k) kids.

(** Dispatching a list of actions, each with its own environment; a throw
    stops the run. *)
Fixpoint dispatchAll (s : State.t) (steps : list (Env.t * Action)) : result State.t :=
  match steps with
  | [] => Ok s
  | (env, a) :: rest => do s' <- reducer env s a; dispatchAll s' rest
  end.

(** Ticking chore [choreId] for kid [kidId] on [n] consecutive days, the
    first of which is [d]; [envs i] is the environment of the [i]-th tick. *)
Fixpoint tickDays (envs : nat -> Env.t) (kidId choreId : string)
         (i : nat) (d : Z) (n : nat) (s : State.t) : result State.t :=
  match n with
  | O => Ok s
  | S n' =>
      do s' <- reducer (envs i) s (TOGGLE_COMPLETE kidId choreId d);
      tickDays envs kidId choreId (S i) (d + 1) n' s'
  end.

(** The streak counter a state records for a kid on a chore. *)
Definition streakOf (kidId : string) (ch : Chore.t) : option Z :=
  match Chore.streakByKid ch with
  | Some sbk => sbk !! kidId
  | None => None
  end.

(** The three ways in which the completion record of the triple changes. *)
Inductive RecordChange (env : Env.t) (state : State.t) (kidId choreId : string)
          (dateISO : Z) : list Completion.t -> bool -> bool -> Prop :=
| rc_created :
    findIndex (same_triple kidId choreId dateISO) (State.completions state) = None ->
    RecordChange env state kidId choreId dateISO
      (State.completions state
         ++ [Completion.mk (Env.nanoid_1 env) choreId kidId dateISO true])
      false true
| rc_removed i existing :
    findIndex (same_triple kidId choreId dateISO) (State.completions state) = Some i ->
    State.completions state !! i = Some existing ->
    same_triple kidId choreId dateISO existing = true ->
    Completion.completed existing = true ->
    RecordChange env state kidId choreId dateISO
      (delete i (State.completions state)) true false
| rc_switched_on i existing :
    findIndex (same_triple kidId choreId dateISO) (State.completions state) = Some i ->
    State.completions state !! i = Some existing ->
    same_triple kidId choreId dateISO existing = true ->
    Completion.completed existing = false ->
    RecordChange env state kidId choreId dateISO
      (<[i := Completion.with_completed existing true]> (State.completions state))
      false true.

(** [wasChecked] of line 118. *)
Definition wasChecked (state : State.t) (kidId choreId : string) (dateISO : Z) : bool :=
  match findIndex (same_triple kidId choreId dateISO) (State.completions state) with
  | Some i =>
      match State.completions state !! i with
      | Some c => Completion.completed c
      | None => false
      end
  | None => false
  end.

(** What lines 116-122 do to the balance of the kid when the chore is found. *)
Definition chorePoints (was completed : bool) (pts : Z) (p : Z) : Z :=
  if negb was && completed then p + pts
  else if was && negb completed then Z.max 0 (p - pts)
  else p.

(** The three outcomes of the streak-bonus block. *)
Inductive BonusChange (env : Env.t) (state : State.t) (kidId : string) (dateISO : Z)
          (completions : list Completion.t)
  : (Z -> Z) -> list StreakBonus.t -> Prop :=
| bc_kept :
    BonusChange env state kidId dateISO completions (fun p => p)
      (State.streakBonuses state)
| bc_awarded run :
    isFullDayDone (State.with_completions state completions) kidId dateISO = true ->
    consecutiveFullDaysEndingOn (State.with_completions state completions) kidId dateISO
    = Ok run ->
    0 < run -> Z.rem run 10 = 0 ->
    List.find (fun b => String.eqb (StreakBonus.kidId b) kidId
                        && Z.eqb (StreakBonus.dateISO b) dateISO)
              (State.streakBonuses state) = None ->
    BonusChange env state kidId dateISO completions (fun p => p + 5)
      (StreakBonus.mk (Env.nanoid_2 env) kidId dateISO run 5 :: State.streakBonuses state)
| bc_revoked b :
    isFullDayDone (State.with_completions state completions) kidId dateISO = false ->
    List.find (fun b => String.eqb (StreakBonus.kidId b) kidId
                        && Z.eqb (StreakBonus.dateISO b) dateISO)
              (State.streakBonuses state) = Some b ->
    BonusChange env state kidId dateISO completions
      (fun p => Z.max 0 (p - StreakBonus.points b))
      (List.filter (fun b' => negb (String.eqb (StreakBonus.id b') (StreakBonus.id b)))
                   (State.streakBonuses state)).

(** The state that [TOGGLE_COMPLETE] returns, assembled from its phases. *)
Definition toggled (state : State.t) (kids : list Kid.t) (chores : list Chore.t)
           (completions : list Completion.t) (bonuses : list StreakBonus.t) : State.t :=
  State.mk kids chores (State.rewards state) completions (State.payouts state)
           (State.adjustments state) bonuses (State.settings state) (State.version state).

(** What a REPLACE_ALL must supply for the step to keep the keys unique. *)
Definition suppliesUniqueRecords (action : Action) : Prop :=
  match action with
  | REPLACE_ALL blob =>
      uniqueCompletions (Blob.completions blob)
      /\ uniqueBonuses (default [] (Blob.streakBonuses blob))
  | _ => True
  end.

(** Last position of [x] in [xs], as [orderMap.set] keeps the last write. *)
Fixpoint lastIndexOf (x : string) (xs : list string) : option nat :=
  match xs with
  | [] => None
  | y :: rest =>
      match lastIndexOf x rest with
      | Some j => Some (S j)
      | None => if String.eqb y x then Some O else None
      end
  end.

(** The order REORDER_CHORES gives a chore: its place in the list, counted
    from one, or else the order it has, or else 9999. *)
Definition newOrder (orderedIds : list string) (c : Chore.t) : Z :=
  match lastIndexOf (Chore.id c) orderedIds with
  | Some j => Z.of_nat j + 1
  | None => default 9999 (Chore.order c)
  end.

Definition orderLe (x y : Chore.t) : Prop := order_key x <= order_key y.

(** The stored item is absent, empty, or text that [JSON.parse] rejects. *)
Definition missingOrCorrupt (JSON_parse : string -> option json)
           (localStorage : gmap string string) : Prop :=
  match localStorage !! Storage.KEY with
  | None => True
  | Some text => text = "" \/ JSON_parse text = None
  end.

(** The properties of a default object, read one by one. *)
Definition defaultFields (o : gmap string json) : Prop :=
  o !! "kids" = Some (JArr [])
  /\ o !! "chores" = Some (JArr [])
  /\ o !! "rewards" = Some (JArr [])
  /\ o !! "completions" = Some (JArr [])
  /\ o !! "payouts" = Some (JArr [])
  /\ o !! "settings" = Some (JObj [ ("dollarsPerPoint", JNum (1 # 10));
                                    ("hideCompletedOnBoard", JBool true) ])
  /\ o !! "version" = Some (JNum (2 # 1)).

(** The ten-day scenario. *)
Section TenDaysVocabulary.
Variables (envs : nat -> Env.t) (s0 : State.t) (K : Kid.t) (C : Chore.t) (d : Z).

(** The completion records after [n] ticks on the days [d], [d+1], ... *)
Fixpoint ticks (n : nat) : list Completion.t :=
  match n with
  | O => []
  | S n' =>
      ticks n'
        ++ [Completion.mk (Env.nanoid_1 (envs n')) (Chore.id C) (Kid.id K)
                          (d + Z.of_nat n') true]
  end.

(** The chore after [n] ticks: its streak counter for the kid is [n]. *)
Definition tickedChore (n : nat) : Chore.t :=
  match n with
  | O => C
  | S _ =>
      Chore.with_streakByKid C
        (<[Kid.id K := Z.of_nat n]> (default ∅ (Chore.streakByKid C)))
  end.

(** The state after [n] ticks, for [n] below ten: no bonus yet. *)
Definition tickedState (n : nat) : State.t :=
  State.mk [Kid.with_points K (3 * Z.of_nat n)] [tickedChore n] (State.rewards s0)
           (ticks n) (State.payouts s0) (State.adjustments s0) []
           (State.settings s0) (State.version s0).
(** The state after the tenth tick: 30 points for the chore, 5 for the
    bonus, and the bonus record of day ten. *)
Definition tenthState : State.t :=
  State.mk [Kid.with_points K 35] [tickedChore 10%nat] (State.rewards s0)
           (ticks 10%nat) (State.payouts s0) (State.adjustments s0)
           [StreakBonus.mk (Env.nanoid_2 (envs 9%nat)) (Kid.id K) (d + 9) 10 5]
           (State.settings s0) (State.version s0).

(** The state after day ten is unticked again. *)
Definition untickedState : State.t :=
  State.mk [Kid.with_points K 27]
           [Chore.with_streakByKid C
              (<[Kid.id K := 0]> (default ∅ (Chore.streakByKid C)))]
           (State.rewards s0) (ticks 9%nat) (State.payouts s0) (State.adjustments s0)
           [] (State.settings s0) (State.version s0).
End TenDaysVocabulary.

(** The blob that a backup of a state holds: every field is present. *)
Definition blobOfState (s : State.t) : Blob.t :=
  Blob.mk (State.kids s) (State.chores s) (State.rewards s) (State.completions s)
          (State.payouts s) (Some (State.adjustments s)) (Some (State.streakBonuses s))
          (State.settings s) (Some (State.version s)).

(** The action records a payout. *)
Definition isPayout (action : Action) : Prop :=
  match action with
  | PAYOUT _ _ _ _ _ => True
  | _ => False
  end.

(** A streak bonus as the reducer awards it: 5 points for a run that is a
    positive multiple of ten days. *)
Definition milestoneBonus (b : StreakBonus.t) : Prop :=
  StreakBonus.points b = 5
  /\ 0 < StreakBonus.streakLength b
  /\ Z.rem (StreakBonus.streakLength b) 10 = 0.

(** The action is not a REPLACE_ALL. *)
Definition notReplaceAll (action : Action) : Prop :=
  match action with
  | REPLACE_ALL _ => False
  | _ => True
  end.

(** The fields of a chore that a toggle leaves alone. *)
Definition choreCore (ch : Chore.t)
  : string * string * Z * Schedule * list string * option Z :=
  (Chore.id ch, Chore.title ch, Chore.points ch, Chore.schedule ch,
   Chore.assignedKidIds ch, Chore.order ch).

(** The sum of a list of integers. *)
Definition sumZ (l : list Z) : Z := fold_right Z.add 0 l.

(** A map from days to instants that keeps their order, as the local
    midnights of the days do. *)
Definition keepsOrder (f : Z -> Z) : Prop :=
  forall a b, a <= b <-> f a <= f b.

(** The filter of the report on kid ids: "all" or the id itself. *)
Definition kidSelected (kidId id : string) : bool :=
  String.eqb kidId "all" || String.eqb id kidId.

(** The actions that do not swap the whole state for another one. *)
Definition keepsData (action : Action) : Prop :=
  match action with
  | RESET_ALL | REPLACE_ALL _ => False
  | _ => True
  end.

(** What a run of actions may do to the kids and the two audit logs: add
    at the end of the kids, add in front of the logs. *)
Definition grownFrom (s0 s : State.t) : Prop :=
  (exists newKids, map Kid.id (State.kids s) = map Kid.id (State.kids s0) ++ newKids)
  /\ (exists newAdjustments,
         State.adjustments s = newAdjustments ++ State.adjustments s0)
  /\ (exists newPayouts, State.payouts s = newPayouts ++ State.payouts s0).

(** The points of the chore that [chores.find(c => c.id === choreId)]
    returns, 0 when there is none. *)
Definition pointsOf (chores : list Chore.t) (choreId : string) : Z :=
  match List.find (fun x => String.eqb (Chore.id x) choreId) chores with
  | Some ch => Chore.points ch
  | None => 0
  end.

(** What the records of a state add up to for a kid id: the points of the
    chores of its completed completions, its streak bonuses and its manual
    adjustments. *)
Definition earnedFrom (chores : list Chore.t) (completions : list Completion.t)
           (k : string) : Z :=
  sumZ (map (fun c => pointsOf chores (Completion.choreId c))
            (List.filter (fun c => Completion.completed c
                                   && String.eqb (Completion.kidId c) k)
                         completions)).

Definition bonusSum (bonuses : list StreakBonus.t) (k : string) : Z :=
  sumZ (map StreakBonus.points
            (List.filter (fun b => String.eqb (StreakBonus.kidId b) k) bonuses)).

Definition adjustmentSum (adjustments : list Adjustment.t) (k : string) : Z :=
  sumZ (map Adjustment.delta
            (List.filter (fun a => String.eqb (Adjustment.kidId a) k) adjustments)).

Definition ledger (s : State.t) (k : string) : Z :=
  earnedFrom (State.chores s) (State.completions s) k
  + bonusSum (State.streakBonuses s) k
  + adjustmentSum (State.adjustments s) k.

(** A state whose balances are backed by its records: chore ids and bonus
    ids are distinct, no chore, bonus or adjustment counts negative, every
    completion is of a chore of the state, and the balance of every kid is
    what the records add up to. *)
Definition ledgerOk (s : State.t) : Prop :=
  List.NoDup (map Chore.id (State.chores s))
  /\ Forall (fun ch => 0 <= Chore.points ch) (State.chores s)
  /\ Forall (fun c => In (Completion.choreId c) (map Chore.id (State.chores s)))
            (State.completions s)
  /\ List.NoDup (map StreakBonus.id (State.streakBonuses s))
  /\ Forall (fun b => 0 <= StreakBonus.points b) (State.streakBonuses s)
  /\ Forall (fun a => 0 <= Adjustment.delta a) (State.adjustments s)
  /\ Forall (fun kid => Kid.points kid = ledger s (Kid.id kid)) (State.kids s).

(** The steps that keep the balances backed: generated ids are fresh, no
    negative amount enters, toggles are of chores of the state, and no chore
    is deleted or state imported. *)
Definition ledgerStep (env : Env.t) (s : State.t) (action : Action) : Prop :=
  match action with
  | ADD_KID _ _ _ => ledger s (Env.nanoid_1 env) = 0
  | ADJUST_POINTS_WITH_REASON _ delta _ => 0 <= delta
  | ADD_CHORE _ points _ _ =>
      0 <= points /\ ~ In (Env.nanoid_1 env) (map Chore.id (State.chores s))
  | TOGGLE_COMPLETE _ choreId _ =>
      In choreId (map Chore.id (State.chores s))
      /\ ~ In (Env.nanoid_2 env) (map StreakBonus.id (State.streakBonuses s))
  | DELETE_CHORE _ | REPLACE_ALL _ => False
  | _ => True
  end.

Fixpoint ledgerRun (s : State.t) (steps : list (Env.t * Action)) : Prop :=
  match steps with
  | [] => True
  | (env, a) :: rest =>
      ledgerStep env s a
      /\ match reducer env s a with
         | Ok s' => ledgerRun s' rest
         | _ => True
         end
  end.

End Vocabulary.

(* ===================================================================== *)
(** * Sample data *)
(* ===================================================================== *)

(** Two runtimes: one whose zone is never behind UTC and one whose zone
    always is; both trim code units below 256 and round exactly. *)
Definition zoneUTC : Runtime :=
  {| behindUTC := fun _ => false; trim := trimLatin1; toFixed2 := roundCents |}.
Definition zoneWest : Runtime :=
  {| behindUTC := fun _ => true; trim := trimLatin1; toFixed2 := roundCents |}.

(** Sample data used to exercise the statements below. *)
Definition env0 : Env.t := Env.mk "id-1" "id-2" "2024-01-10T08:00:00.000Z".
Definition kidK : Kid.t := Kid.mk "K" "Kay" (Some "#c9e4ff") None None 0.
Definition choreA : Chore.t := Chore.mk "A" "Dishes" 3 daily ["K"] (Some ∅) (Some 1).
Definition stateKA : State.t :=
  State.mk [kidK] [choreA] [] [] [] [] [] (Settings.mk (1 # 10) true) 3.

(** A backup whose only kid has a negative balance. *)
Definition blobNegative : Blob.t :=
  Blob.mk [Kid.mk "K" "Kay" None None None (-4)] [] [] [] [] None None
          (Settings.mk (1 # 10) true) None.

(** A chore with a negative point value, as ADD_CHORE accepts it. *)
Definition statePenalty : State.t :=
  State.mk [kidK] [Chore.mk "A" "Penalty" (-3) daily ["K"] (Some ∅) (Some 1)]
           [] [] [] [] [] (Settings.mk (1 # 10) true) 3.

(** A short session: a kid and a chore are added, the chore is ticked,
    unticked and ticked again. *)
Definition sessionSteps : list (Env.t * Action) :=
  [ (Env.mk "K" "b0" "t0", ADD_KID " Kay " None None);
    (Env.mk "A" "b1" "t1", ADD_CHORE "Dishes" 3 daily ["K"]);
    (Env.mk "c1" "b2" "t2", TOGGLE_COMPLETE "K" "A" 19732);
    (Env.mk "c2" "b3" "t3", TOGGLE_COMPLETE "K" "A" 19732);
    (Env.mk "c3" "b4" "t4", TOGGLE_COMPLETE "K" "A" 19732) ].

Definition sessionEnd : State.t :=
  State.mk [Kid.mk "K" "Kay" (Some "#c9e4ff") None None 3]
           [Chore.mk "A" "Dishes" 3 daily ["K"] (Some {["K" := 1]}) (Some 1)]
           [] [Completion.mk "c3" "A" "K" 19732 true] [] [] []
           (Settings.mk (1 # 10) true) 3.

(** A backup that lists the same completion twice. *)
Definition blobDuplicate : Blob.t :=
  Blob.mk [] [] []
          [Completion.mk "c1" "A" "K" 19732 true; Completion.mk "c2" "A" "K" 19732 true]
          [] None None (Settings.mk (1 # 10) true) None.

Definition stateABC : State.t :=
  State.mk []
           [Chore.mk "A" "Dishes" 3 daily [] None (Some 1);
            Chore.mk "B" "Laundry" 2 daily [] None (Some 2);
            Chore.mk "C" "Trash" 1 daily [] None (Some 3)]
           [] [] [] [] [] (Settings.mk (1 # 10) true) 3.

(** The sample state after the sample chore is ticked once. *)
Definition stateKATicked : State.t :=
  State.mk [Kid.mk "K" "Kay" (Some "#c9e4ff") None None 3]
           [Chore.mk "A" "Dishes" 3 daily ["K"] (Some {["K" := 1]}) (Some 1)]
           [] [Completion.mk "id-1" "A" "K" 19732 true] [] [] []
           (Settings.mk (1 # 10) true) 3.

(** A longer session: a kid and a daily chore are added and the chore is
    ticked on ten consecutive days. *)
Definition tenDaySteps : list (Env.t * Action) :=
  [ (Env.mk "K" "b" "t", ADD_KID "Kay" None None);
    (Env.mk "A" "b" "t", ADD_CHORE "Dishes" 3 daily ["K"]) ]
  ++ map (fun i => (Env.mk "c" "b" "t", TOGGLE_COMPLETE "K" "A" (19732 + Z.of_nat i)))
         (seq 0 10).

Definition tenDayEnd : State.t :=
  Eval vm_compute in
    match dispatchAll (rt := zoneUTC) emptyState tenDaySteps with
    | Ok s => s
    | _ => emptyState
    end.

(** The state after nine ticks of the sample chore, from day 19732 on. *)
Definition stateNine : State.t :=
  tickedState (fun _ => env0) stateKA kidK choreA 19732 9.

(** A second chore, assigned to nobody. *)
Definition choreB : Chore.t := Chore.mk "B" "Piano" 2 daily [] (Some ∅) (Some 2).
Definition stateKAB : State.t :=
  State.mk [kidK] [choreA; choreB] [] [] [] [] [] (Settings.mk (1 # 10) true) 3.

(* ===================================================================== *)
(** * The backward walk over full days *)
(* ===================================================================== *)

Section Walk.
Context {rt : Runtime}.
Variables (state : State.t) (kidId : string).

Lemma filter_length_le {A} (p q : A -> bool) (xs : list A) :
  (forall x, p x = true -> q x = true) ->
  (length (List.filter p xs) <= length (List.filter q xs))%nat.
Proof.
  intros Hpq. induction xs as [|x xs IH]; simpl; [lia|].
  destruct (p x) eqn:Hp.
  - rewrite (Hpq x Hp). simpl. lia.
  - destruct (q x); simpl; lia.
Qed.

Lemma filter_length_lt {A} (p q : A -> bool) (xs : list A) (x0 : A) :
  (forall x, p x = true -> q x = true) ->
  In x0 xs -> p x0 = false -> q x0 = true ->
  (length (List.filter p xs) < length (List.filter q xs))%nat.
Proof.
  intros Hpq Hin Hp0 Hq0. induction xs as [|x xs IH]; simpl; [destruct Hin|].
  destruct Hin as [->|Hin].
  - rewrite Hp0, Hq0. simpl.
    pose proof (filter_length_le p q xs Hpq). lia.
  - specialize (IH Hin). destruct (p x) eqn:Hp.
    + rewrite (Hpq x Hp). simpl. lia.
    + destruct (q x); simpl; lia.
Qed.

Lemma recordsUpTo_bound d :
  (recordsUpTo state d <= length (State.completions state))%nat.
Proof. unfold recordsUpTo. apply List.filter_length_le. Qed.

(** A full day has at least one completion record dated that day. *)
Lemma full_day_has_record d :
  isFullDayDone state kidId d = true ->
  exists c, In c (State.completions state) /\ Completion.date c = d.
Proof.
  unfold isFullDayDone.
  destruct (choresDueForKidOnDate state kidId d) as [|ch due]; simpl; [discriminate|].
  intros H. apply andb_prop in H as [H _].
  apply existsb_exists in H as (c & Hin & Hc).
  exists c. split; [exact Hin|].
  unfold done_triple, same_triple in Hc.
  repeat (apply andb_prop in Hc as [Hc ?]).
  now apply Z.eqb_eq.
Qed.

Lemma full_day_decreases d :
  isFullDayDone state kidId d = true ->
  (recordsUpTo state (d - 1) < recordsUpTo state d)%nat.
Proof.
  intros H. destruct (full_day_has_record d H) as (c & Hin & Hd).
  unfold recordsUpTo. apply filter_length_lt with (x0 := c); auto.
  - intros x Hx. apply Z.leb_le in Hx. apply Z.leb_le. lia.
  - apply Z.leb_gt. lia.
  - apply Z.leb_le. lia.
Qed.

(** With more fuel than there are records up to the starting day, the loop
    exits, at the first day that is not full. *)
Lemma fullDaysLoop_exits fuel : forall n d,
  (recordsUpTo state d < fuel)%nat ->
  exists j, 0 <= j /\ (Z.to_nat j <= recordsUpTo state d)%nat
    /\ fullDaysLoop fuel state kidId n d = Ok (n + j)
    /\ (forall i, 0 <= i < j -> isFullDayDone state kidId (d - i) = true)
    /\ isFullDayDone state kidId (d - j) = false.
Proof.
  induction fuel as [|fuel IH]; intros n d Hlt; [lia|].
  simpl. unfold toISO, addDays.
  destruct (isFullDayDone state kidId d) eqn:Hfull; simpl.
  - pose proof (full_day_decreases d Hfull) as Hdec.
    destruct (IH (n + 1) (d + -1)) as (j & Hj & Hle & Hrun & Hall & Hstop).
    { replace (d + -1) with (d - 1) by lia. lia. }
    replace (d + -1) with (d - 1) in * by lia.
    exists (j + 1). repeat split.
    + lia.
    + lia.
    + rewrite Hrun. f_equal. lia.
    + intros i Hi. destruct (Z.eq_dec i 0) as [->|Hne].
      * now rewrite Z.sub_0_r.
      * replace (d - i) with (d - 1 - (i - 1)) by lia. apply Hall. lia.
    + replace (d - (j + 1)) with (d - 1 - j) by lia. exact Hstop.
  - exists 0. repeat split.
    + lia.
    + simpl. lia.
    + f_equal. lia.
    + intros i Hi. lia.
    + now rewrite Z.sub_0_r.
Qed.

Lemma consecutiveFullDaysEndingOn_returns d :
  exists n, 0 <= n /\ consecutiveFullDaysEndingOn state kidId d = Ok n.
Proof.
  unfold consecutiveFullDaysEndingOn.
  destruct (fullDaysLoop_exits (S (length (State.completions state))) 0 (newDate d))
    as (j & Hj & _ & Hrun & _).
  { pose proof (recordsUpTo_bound (newDate d)). lia. }
  exists j. split; [exact Hj|]. exact Hrun.
Qed.

End Walk.

(** C9: the backward walk of [consecutiveFullDaysEndingOn] terminates for
    every state, kid and date, in every time zone: it returns a count [n]
    that is at most the number of completion records; the walk starts on the
    local day of [new Date(dateISO)], which is the date itself, or the day
    before it in a zone behind UTC; the [n] days ending on that start day
    are full and the day before them is not, which is where the loop stops;
    any larger amount of fuel gives the same count; and a day on which no
    chore is due for the kid is not full. *)
Theorem walk_terminates_at_first_non_full_day {rt : Runtime} :
  forall (state : State.t) (kidId : string) (dateISO : Z),
  exists n,
    0 <= n <= Z.of_nat (length (State.completions state))
    /\ consecutiveFullDaysEndingOn state kidId dateISO = Ok n
    /\ toISO (newDate dateISO) = (if behindUTC dateISO then dateISO - 1 else dateISO)
    /\ (forall i, 0 <= i < n ->
          isFullDayDone state kidId (toISO (newDate dateISO) - i) = true)
    /\ isFullDayDone state kidId (toISO (newDate dateISO) - n) = false
    /\ (forall fuel, (length (State.completions state) < fuel)%nat ->
          fullDaysLoop fuel state kidId 0 (newDate dateISO) = Ok n)
    /\ (forall d, choresDueForKidOnDate state kidId d = [] ->
          isFullDayDone state kidId d = false).
Proof.
  intros state kidId dateISO. unfold toISO.
  pose proof (recordsUpTo_bound state (newDate dateISO)) as Hb.
  destruct (fullDaysLoop_exits state kidId (S (length (State.completions state))) 0
              (newDate dateISO))
    as (j & Hj & Hle & Hrun & Hall & Hstop); [lia|].
  exists j. repeat split; try assumption; try lia.
  - intros fuel Hfuel.
    destruct (fullDaysLoop_exits state kidId fuel 0 (newDate dateISO))
      as (j' & Hj' & _ & Hrun' & Hall' & Hstop'); [lia|].
    rewrite Hrun'. f_equal. simpl.
    destruct (Z.lt_trichotomy j j') as [Hlt|[Heq|Hgt]]; [|exact (eq_sym Heq)|].
    + rewrite (Hall' j) in Hstop by lia. discriminate.
    + rewrite (Hall j') in Hstop' by lia. discriminate.
  - intros d Hd. unfold isFullDayDone. now rewrite Hd.
Qed.

(* ===================================================================== *)
(** * Array helpers *)
(* ===================================================================== *)

(** Decides a goal built from integer comparisons: each test is replaced by
    its truth value, with the matching inequality kept for [lia]. *)
Ltac split_test t :=
  let E := fresh "E" in
  destruct t eqn:E;
  [ first [apply Z.leb_le in E | apply Z.ltb_lt in E | apply Z.eqb_eq in E]
  | first [apply Z.leb_gt in E | apply Z.ltb_ge in E | apply Z.eqb_neq in E] ].

Ltac decide_bounds :=
  repeat match goal with
         | |- context [(?a <=? ?b)%Z] => split_test (a <=? b)%Z
         | |- context [(?a <? ?b)%Z] => split_test (a <? b)%Z
         | |- context [(?a =? ?b)%Z] => split_test (a =? b)%Z
         end;
  simpl; try reflexivity; try lia.

Lemma findIndex_Some {A} (p : A -> bool) (xs : list A) (i : nat) :
  findIndex p xs = Some i ->
  exists x, xs !! i = Some x /\ p x = true.
Proof.
  revert i. induction xs as [|x xs IH]; intros i; simpl; [discriminate|].
  destruct (p x) eqn:Hp.
  - intros [= <-]. exists x. split; [reflexivity|exact Hp].
  - destruct (findIndex p xs) as [j|]; simpl; [|discriminate].
    intros [= <-]. destruct (IH j eq_refl) as (y & Hy & Hpy).
    exists y. split; [exact Hy|exact Hpy].
Qed.

Lemma findIndex_None {A} (p : A -> bool) (xs : list A) :
  findIndex p xs = None -> forall x, In x xs -> p x = false.
Proof.
  induction xs as [|y xs IH]; simpl; intros H x Hin; [destruct Hin|].
  destruct (p y) eqn:Hp; [discriminate|].
  destruct (findIndex p xs); [discriminate|].
  destruct Hin as [<-|Hin]; [exact Hp|now apply IH].
Qed.

Lemma findIndex_None_intro {A} (p : A -> bool) (xs : list A) :
  (forall x, In x xs -> p x = false) -> findIndex p xs = None.
Proof.
  induction xs as [|y xs IH]; simpl; intros H; [reflexivity|].
  rewrite (H y (or_introl eq_refl)). rewrite IH; [reflexivity|].
  intros x Hx. apply H. now right.
Qed.

Lemma findIndex_app_last {A} (p : A -> bool) (xs : list A) (x : A) :
  findIndex p xs = None -> p x = true -> findIndex p (xs ++ [x]) = Some (length xs).
Proof.
  induction xs as [|y xs IH]; simpl; intros Hn Hx.
  - now rewrite Hx.
  - destruct (p y); [discriminate|].
    destruct (findIndex p xs); [discriminate|].
    now rewrite IH.
Qed.

Lemma map_delete {A B} (f : A -> B) (xs : list A) (i : nat) :
  map f (delete i xs) = delete i (map f xs).
Proof.
  revert i. induction xs as [|x xs IH]; intros [|i]; simpl; try reflexivity.
  now rewrite IH.
Qed.

Lemma map_insert_same {A B} (f : A -> B) (xs : list A) (i : nat) (x e : A) :
  xs !! i = Some e -> f x = f e -> map f (<[i := x]> xs) = map f xs.
Proof.
  revert i. induction xs as [|y xs IH]; intros [|i]; simpl; try discriminate.
  - intros [= ->] ->. reflexivity.
  - intros Hl Hf. f_equal. now apply IH.
Qed.

Lemma In_delete {A} (xs : list A) (i : nat) (x : A) :
  In x (delete i xs) -> In x xs.
Proof.
  revert i. induction xs as [|y xs IH]; intros [|i]; simpl; auto.
  intros [->|H]; [now left|right; eauto].
Qed.

Lemma NoDup_delete {A} (xs : list A) (i : nat) :
  List.NoDup xs -> List.NoDup (delete i xs).
Proof.
  revert i. induction xs as [|y xs IH]; intros [|i] H; simpl; auto.
  - now inversion H.
  - inversion H as [|? ? Hnotin Hnd]; subst. constructor.
    + intros Hin. apply Hnotin. eapply In_delete; eauto.
    + now apply IH.
Qed.

Lemma NoDup_map_filter {A B} (f : A -> B) (p : A -> bool) (xs : list A) :
  List.NoDup (map f xs) -> List.NoDup (map f (List.filter p xs)).
Proof.
  induction xs as [|x xs IH]; simpl; intros H; [constructor|].
  inversion H as [|? ? Hnotin Hnd]; subst.
  destruct (p x); simpl; [|now apply IH].
  constructor; [|now apply IH].
  intros Hin. apply Hnotin. apply in_map_iff in Hin as (y & Hy & Hin).
  apply filter_In in Hin as [Hin _]. apply in_map_iff. eauto.
Qed.

Lemma NoDup_app_one {A} (xs : list A) (x : A) :
  List.NoDup xs -> ~ In x xs -> List.NoDup (xs ++ [x]).
Proof.
  induction xs as [|y xs IH]; simpl; intros H Hx.
  - constructor; [intros []|constructor].
  - inversion H as [|? ? Hnotin Hnd]; subst. constructor.
    + intros Hin. apply in_app_or in Hin as [Hin|[->|[]]]; [now apply Hnotin|].
      apply Hx. now left.
    + apply IH; [exact Hnd|]. intros Hin. apply Hx. now right.
Qed.

Lemma find_None_forall {A} (p : A -> bool) (xs : list A) :
  List.find p xs = None -> forall x, In x xs -> p x = false.
Proof. intros H x Hx. exact (List.find_none p xs H x Hx). Qed.

(* ===================================================================== *)
(** * The phases of TOGGLE_COMPLETE *)
(* ===================================================================== *)

Lemma map_points_absent (kidId : string) (f : Z -> Z) (kids : list Kid.t) :
  ~ In kidId (map Kid.id kids) -> map_points kidId f kids = kids.
Proof.
  unfold map_points. induction kids as [|k kids IH]; simpl; intros H; [reflexivity|].
  destruct (String.eqb (Kid.id k) kidId) eqn:E.
  - apply String.eqb_eq in E. exfalso. apply H. now left.
  - f_equal. apply IH. intros Hin. apply H. now right.
Qed.

Lemma map_points_ids (kidId : string) (f : Z -> Z) (kids : list Kid.t) :
  map Kid.id (map_points kidId f kids) = map Kid.id kids.
Proof.
  unfold map_points. induction kids as [|k kids IH]; simpl; [reflexivity|].
  rewrite IH. f_equal. now destruct (String.eqb (Kid.id k) kidId).
Qed.

Lemma map_points_nonneg (kidId : string) (f : Z -> Z) (kids : list Kid.t) :
  (forall p, 0 <= p -> 0 <= f p) ->
  pointsNonNegative kids -> pointsNonNegative (map_points kidId f kids).
Proof.
  intros Hf. unfold pointsNonNegative, map_points.
  induction kids as [|k kids IH]; simpl; intros H; [constructor|].
  inversion H; subst. constructor; [|now apply IH].
  destruct (String.eqb (Kid.id k) kidId); simpl; auto.
Qed.

Lemma toggle_record_cases env state kidId choreId dateISO :
  exists completions completed,
    toggle_record env state kidId choreId dateISO = Ok (completions, completed)
    /\ RecordChange env state kidId choreId dateISO completions
         (wasChecked state kidId choreId dateISO) completed.
Proof.
  unfold toggle_record, wasChecked.
  destruct (findIndex (same_triple kidId choreId dateISO) (State.completions state))
    as [i|] eqn:Hidx.
  - destruct (findIndex_Some _ _ _ Hidx) as (e & He & Hp).
    rewrite He. simpl.
    destruct (Completion.completed e) eqn:Hc; simpl.
    + eexists _, _. split; [reflexivity|]. eapply rc_removed; eauto.
    + eexists _, _. split; [reflexivity|]. eapply rc_switched_on; eauto.
  - eexists _, _. split; [reflexivity|]. now apply rc_created.
Qed.

Lemma RecordChange_flips env state kidId choreId dateISO cs was completed :
  RecordChange env state kidId choreId dateISO cs was completed ->
  (was = false /\ completed = true) \/ (was = true /\ completed = false).
Proof. intros H; inversion H; subst; auto. Qed.

Lemma wasChecked_eval state kidId choreId dateISO :
  match findIndex (same_triple kidId choreId dateISO) (State.completions state) with
  | Some i => do c <- deref (State.completions state !! i); Ok (Completion.completed c)
  | None => Ok false
  end = Ok (wasChecked state kidId choreId dateISO).
Proof.
  unfold wasChecked.
  destruct (findIndex (same_triple kidId choreId dateISO) (State.completions state))
    as [i|] eqn:Hidx; [|reflexivity].
  destruct (findIndex_Some _ _ _ Hidx) as (e & He & _). now rewrite He.
Qed.

Lemma with_points_same (k : Kid.t) : Kid.with_points k (Kid.points k) = k.
Proof. now destruct k. Qed.

Lemma toggle_points_found state kidId choreId dateISO completed ch :
  List.find (fun c => String.eqb (Chore.id c) choreId) (State.chores state) = Some ch ->
  toggle_points state kidId choreId dateISO completed
  = Ok (map_points kidId
          (chorePoints (wasChecked state kidId choreId dateISO) completed (Chore.points ch))
          (State.kids state)).
Proof.
  intros Hch. unfold toggle_points. rewrite Hch, wasChecked_eval.
  unfold map_points, chorePoints.
  induction (State.kids state) as [|k kids IH]; [reflexivity|].
  cbn [map_throwing map]. rewrite IH. clear IH.
  destruct (String.eqb (Kid.id k) kidId); simpl; [|reflexivity].
  destruct (wasChecked state kidId choreId dateISO), completed; simpl;
    rewrite ?with_points_same; reflexivity.
Qed.

Lemma toggle_points_absent_kid state kidId choreId dateISO completed :
  ~ In kidId (map Kid.id (State.kids state)) ->
  toggle_points state kidId choreId dateISO completed = Ok (State.kids state).
Proof.
  unfold toggle_points.
  induction (State.kids state) as [|k kids IH]; simpl; intros H; [reflexivity|].
  destruct (String.eqb (Kid.id k) kidId) eqn:E.
  - apply String.eqb_eq in E. exfalso. apply H. now left.
  - simpl. rewrite IH; [reflexivity|]. intros Hin. apply H. now right.
Qed.

Lemma toggle_points_missing_chore state kidId choreId dateISO completed :
  List.find (fun c => String.eqb (Chore.id c) choreId) (State.chores state) = None ->
  In kidId (map Kid.id (State.kids state)) ->
  completed = negb (wasChecked state kidId choreId dateISO) ->
  toggle_points state kidId choreId dateISO completed = Throw TypeError.
Proof.
  intros Hch Hin ->. unfold toggle_points. rewrite Hch, wasChecked_eval.
  induction (State.kids state) as [|k kids IH]; [destruct Hin|].
  cbn [map_throwing].
  destruct (String.eqb (Kid.id k) kidId) eqn:E.
  - now destruct (wasChecked state kidId choreId dateISO).
  - rewrite IH; [reflexivity|].
    destruct Hin as [Hk|Hin]; [|exact Hin].
    apply String.eqb_neq in E. simpl in Hk. congruence.
Qed.

Lemma map_points_keep (kidId : string) (kids : list Kid.t) :
  map_points kidId (fun p => p) kids = kids.
Proof.
  unfold map_points. induction kids as [|k kids IH]; simpl; [reflexivity|].
  rewrite IH, with_points_same. now destruct (String.eqb (Kid.id k) kidId).
Qed.

Lemma toggle_bonus_cases {rt : Runtime} env state kidId dateISO completions kids :
  exists f bonuses,
    toggle_bonus env state kidId dateISO completions kids
    = Ok (map_points kidId f kids, bonuses)
    /\ BonusChange env state kidId dateISO completions f bonuses.
Proof.
  unfold toggle_bonus.
  destruct (isFullDayDone (State.with_completions state completions) kidId dateISO)
    eqn:Hfull.
  - destruct (consecutiveFullDaysEndingOn_returns
                (State.with_completions state completions) kidId dateISO)
      as (run & Hrun0 & Hrun).
    rewrite Hrun. simpl.
    destruct (0 <? run) eqn:Hpos; simpl;
      [|exists (fun p => p); eexists; rewrite map_points_keep; split;
        [reflexivity|constructor]].
    destruct (Z.rem run 10 =? 0) eqn:Hrem; simpl;
      [|exists (fun p => p); eexists; rewrite map_points_keep; split;
        [reflexivity|constructor]].
    destruct (List.find _ (State.streakBonuses state)) as [b|] eqn:Hfind; simpl.
    + exists (fun p => p); eexists; rewrite map_points_keep; split;
        [reflexivity|constructor].
    + eexists _, _. split; [reflexivity|].
      apply bc_awarded; auto.
      * now apply Z.ltb_lt.
      * now apply Z.eqb_eq.
  - destruct (List.find _ (State.streakBonuses state)) as [b|] eqn:Hfind.
    + eexists _, _. split; [reflexivity|]. now apply bc_revoked.
    + exists (fun p => p); eexists; rewrite map_points_keep; split;
        [reflexivity|constructor].
Qed.

Lemma BonusChange_nonneg {rt : Runtime} env state kidId dateISO completions f bonuses :
  BonusChange env state kidId dateISO completions f bonuses ->
  forall p, 0 <= p -> 0 <= f p.
Proof. intros H p Hp; inversion H; subst; lia. Qed.

Lemma toggle_complete_phases {rt : Runtime} env state kidId choreId dateISO :
  exists completions completed f bonuses,
    RecordChange env state kidId choreId dateISO completions
      (wasChecked state kidId choreId dateISO) completed
    /\ BonusChange env state kidId dateISO completions f bonuses
    /\ toggle_complete env state kidId choreId dateISO
       = do kids <- toggle_points state kidId choreId dateISO completed;
         Ok (toggled state (map_points kidId f kids)
                     (toggle_streaks state kidId choreId dateISO completed)
                     completions bonuses).
Proof.
  destruct (toggle_record_cases env state kidId choreId dateISO)
    as (cs & completed & Hrec & Hchange).
  unfold toggle_complete. rewrite Hrec. simpl.
  destruct (toggle_points state kidId choreId dateISO completed) as [kids| |] eqn:Hk.
  - destruct (toggle_bonus_cases env state kidId dateISO cs kids)
      as (f & bs & Hb & Hbonus).
    exists cs, completed, f, bs. simpl. rewrite Hb, Hk. simpl. auto.
  - destruct (toggle_bonus_cases env state kidId dateISO cs [])
      as (f & bs & Hb & Hbonus).
    exists cs, completed, f, bs. rewrite Hk. simpl. auto.
  - destruct (toggle_bonus_cases env state kidId dateISO cs [])
      as (f & bs & Hb & Hbonus).
    exists cs, completed, f, bs. rewrite Hk. simpl. auto.
Qed.

Lemma toggle_points_cases state kidId choreId dateISO completed :
  completed = negb (wasChecked state kidId choreId dateISO) ->
  (~ In kidId (map Kid.id (State.kids state))
   /\ toggle_points state kidId choreId dateISO completed = Ok (State.kids state))
  \/ (exists ch,
        List.find (fun c => String.eqb (Chore.id c) choreId) (State.chores state) = Some ch
        /\ toggle_points state kidId choreId dateISO completed
           = Ok (map_points kidId
                   (chorePoints (wasChecked state kidId choreId dateISO) completed
                                (Chore.points ch))
                   (State.kids state)))
  \/ (In kidId (map Kid.id (State.kids state))
      /\ List.find (fun c => String.eqb (Chore.id c) choreId) (State.chores state) = None
      /\ toggle_points state kidId choreId dateISO completed = Throw TypeError).
Proof.
  intros Hc.
  destruct (List.find (fun c => String.eqb (Chore.id c) choreId) (State.chores state))
    as [ch|] eqn:Hch.
  - right; left. exists ch. split; [reflexivity|]. now apply toggle_points_found.
  - destruct (in_dec string_dec kidId (map Kid.id (State.kids state))) as [Hin|Hnot].
    + right; right. repeat split; auto. now apply toggle_points_missing_chore.
    + left. split; [exact Hnot|]. now apply toggle_points_absent_kid.
Qed.

Lemma RecordChange_completed env state kidId choreId dateISO cs completed :
  RecordChange env state kidId choreId dateISO cs
    (wasChecked state kidId choreId dateISO) completed ->
  completed = negb (wasChecked state kidId choreId dateISO).
Proof.
  intros H. destruct (RecordChange_flips _ _ _ _ _ _ _ _ H) as [[-> ->]|[-> ->]];
    reflexivity.
Qed.

(** [TOGGLE_COMPLETE] returns a state or throws a [TypeError]; it never
    runs out of fuel. *)
Lemma toggle_complete_outcome {rt : Runtime} env state kidId choreId dateISO :
  (exists s', toggle_complete env state kidId choreId dateISO = Ok s')
  \/ toggle_complete env state kidId choreId dateISO = Throw TypeError.
Proof.
  destruct (toggle_complete_phases env state kidId choreId dateISO)
    as (cs & completed & f & bs & Hrec & Hbonus & ->).
  destruct (toggle_points_cases state kidId choreId dateISO completed
              (RecordChange_completed _ _ _ _ _ _ _ Hrec))
    as [[_ ->]|[(ch & _ & ->)|(_ & _ & ->)]]; simpl; eauto.
Qed.

Lemma RecordChange_changes env state kidId choreId dateISO cs was completed :
  RecordChange env state kidId choreId dateISO cs was completed ->
  cs <> State.completions state.
Proof.
  intros H Heq. inversion H as [Hidx Hcs|i e Hidx He Hp Hc Hcs|i e Hidx He Hp Hc Hcs];
    subst.
  - apply (f_equal (@length _)) in Hcs. rewrite last_length in Hcs. lia.
  - apply (f_equal (@length _)) in Hcs.
    rewrite length_delete in Hcs by (rewrite He; eauto).
    apply lookup_lt_Some in He. lia.
  - apply (f_equal (fun l => l !! i)) in Hcs.
    rewrite list_lookup_insert_eq in Hcs by (eapply lookup_lt_Some; eauto).
    rewrite He in Hcs. injection Hcs as Hcs.
    apply (f_equal Completion.completed) in Hcs. simpl in Hcs. congruence.
Qed.

Lemma find_chore_absent (choreId : string) (chores : list Chore.t) :
  ~ In choreId (map Chore.id chores) ->
  List.find (fun c => String.eqb (Chore.id c) choreId) chores = None.
Proof.
  induction chores as [|ch chores IH]; simpl; intros H; [reflexivity|].
  destruct (String.eqb (Chore.id ch) choreId) eqn:E.
  - apply String.eqb_eq in E. exfalso. apply H. now left.
  - apply IH. intros Hin. apply H. now right.
Qed.

Lemma find_chore_present (choreId : string) (chores : list Chore.t) :
  In choreId (map Chore.id chores) ->
  exists ch, List.find (fun c => String.eqb (Chore.id c) choreId) chores = Some ch
             /\ In ch chores /\ Chore.id ch = choreId.
Proof.
  induction chores as [|c chores IH]; simpl; intros H; [destruct H|].
  destruct (String.eqb (Chore.id c) choreId) eqn:E.
  - apply String.eqb_eq in E. exists c. auto.
  - destruct H as [H|H]; [apply String.eqb_neq in E; congruence|].
    destruct (IH H) as (ch & Hf & Hin & Hid). exists ch. auto.
Qed.

Lemma toggle_streaks_absent {rt : Runtime} state kidId choreId dateISO completed :
  ~ In choreId (map Chore.id (State.chores state)) ->
  toggle_streaks state kidId choreId dateISO completed = State.chores state.
Proof.
  unfold toggle_streaks.
  induction (State.chores state) as [|ch chores IH]; simpl; intros H; [reflexivity|].
  rewrite IH by tauto. f_equal. unfold streakUpdate.
  destruct (String.eqb (Chore.id ch) choreId) eqn:E; [|reflexivity].
  apply String.eqb_eq in E. tauto.
Qed.

Lemma no_record_findIndex state kidId choreId dateISO :
  (forall c, In c (State.completions state) ->
             completionKey c <> (kidId, choreId, dateISO)) ->
  findIndex (same_triple kidId choreId dateISO) (State.completions state) = None.
Proof.
  intros H. apply findIndex_None_intro. intros c Hc.
  destruct (same_triple kidId choreId dateISO c) eqn:E; [|reflexivity].
  exfalso. apply (H c Hc). unfold same_triple in E.
  apply andb_prop in E as [E E3]. apply andb_prop in E as [E1 E2].
  apply String.eqb_eq in E1, E2. apply Z.eqb_eq in E3.
  unfold completionKey. congruence.
Qed.

(* ===================================================================== *)
(** * Unknown kids and unknown chores *)
(* ===================================================================== *)

(** C10: when no kid of the state has the given id, the chore exists and the
    triple has no completion record yet, TOGGLE_COMPLETE returns a state whose
    completions are the old ones followed by a new record for that kid id,
    and whose kids (hence all balances) are the old ones. *)
Theorem toggle_unknown_kid_adds_dangling_completion {rt : Runtime} :
  forall (env : Env.t) (state : State.t) (kidId choreId : string) (dateISO : Z),
    ~ In kidId (map Kid.id (State.kids state)) ->
    In choreId (map Chore.id (State.chores state)) ->
    (forall c, In c (State.completions state) ->
               completionKey c <> (kidId, choreId, dateISO)) ->
    exists s',
      reducer env state (TOGGLE_COMPLETE kidId choreId dateISO) = Ok s'
      /\ State.completions s'
         = State.completions state
             ++ [Completion.mk (Env.nanoid_1 env) choreId kidId dateISO true]
      /\ State.kids s' = State.kids state.
Proof.
  intros env state kidId choreId dateISO Hkid _ Hnone. simpl.
  destruct (toggle_complete_phases env state kidId choreId dateISO)
    as (cs & completed & f & bs & Hrec & Hbonus & ->).
  rewrite toggle_points_absent_kid by exact Hkid. simpl.
  eexists. split; [reflexivity|]. simpl.
  pose proof (no_record_findIndex state kidId choreId dateISO Hnone) as Hidx.
  split.
  - inversion Hrec; subst; congruence.
  - now apply map_points_absent.
Qed.

Lemma toggle_unknown_kid_witness :
  exists s',
    reducer (rt := zoneUTC) env0 stateKA (TOGGLE_COMPLETE "ghost" "A" 19732) = Ok s'
    /\ State.completions s' = [Completion.mk "id-1" "A" "ghost" 19732 true]
    /\ State.kids s' = [kidK].
Proof.
  apply (toggle_unknown_kid_adds_dangling_completion env0 stateKA "ghost" "A" 19732).
  - simpl. intros [H|[]]. discriminate H.
  - simpl. left. reflexivity.
  - simpl. intros c [].
Defined.

(** C4, as the code has it: for a chore id that no chore of the state has,
    TOGGLE_COMPLETE throws a TypeError when some kid has the given kid id,
    and otherwise returns normally a state with the same kids and chores
    whose completions differ from the old ones. *)
Theorem toggle_unknown_chore {rt : Runtime} :
  forall (env : Env.t) (state : State.t) (kidId choreId : string) (dateISO : Z),
    ~ In choreId (map Chore.id (State.chores state)) ->
    (In kidId (map Kid.id (State.kids state)) ->
     reducer env state (TOGGLE_COMPLETE kidId choreId dateISO) = Throw TypeError)
    /\ (~ In kidId (map Kid.id (State.kids state)) ->
        exists s',
          reducer env state (TOGGLE_COMPLETE kidId choreId dateISO) = Ok s'
          /\ State.kids s' = State.kids state
          /\ State.chores s' = State.chores state
          /\ State.completions s' <> State.completions state).
Proof.
  intros env state kidId choreId dateISO Hchore. simpl.
  destruct (toggle_complete_phases env state kidId choreId dateISO)
    as (cs & completed & f & bs & Hrec & Hbonus & ->).
  split.
  - intros Hkid.
    rewrite toggle_points_missing_chore; auto.
    + now apply find_chore_absent.
    + eapply RecordChange_completed; eauto.
  - intros Hkid. rewrite toggle_points_absent_kid by exact Hkid. simpl.
    eexists. split; [reflexivity|]. simpl. repeat split.
    + now apply map_points_absent.
    + now apply toggle_streaks_absent.
    + eapply RecordChange_changes; eauto.
Qed.

Lemma toggle_unknown_chore_witness :
  reducer (rt := zoneUTC) env0 stateKA (TOGGLE_COMPLETE "K" "nope" 19732) = Throw TypeError
  /\ exists s',
       reducer (rt := zoneUTC) env0 stateKA (TOGGLE_COMPLETE "ghost" "nope" 19732) = Ok s'
       /\ State.kids s' = [kidK]
       /\ State.chores s' = [choreA]
       /\ State.completions s' <> [].
Proof.
  split.
  - apply (toggle_unknown_chore env0 stateKA "K" "nope" 19732).
    + simpl. intros [H|[]]. discriminate H.
    + simpl. left. reflexivity.
  - apply (toggle_unknown_chore env0 stateKA "ghost" "nope" 19732).
    + simpl. intros [H|[]]. discriminate H.
    + simpl. intros [H|[]]. discriminate H.
Defined.

(** C4 as stated fails: with no kid of that id the transition does not fail
    at all, it returns a state holding a completion for the unknown chore. *)
Lemma toggle_unknown_chore_returns :
  reducer (rt := zoneUTC) env0 stateKA (TOGGLE_COMPLETE "ghost" "nope" 19732)
  = Ok (State.mk [kidK] [choreA] [] [Completion.mk "id-1" "nope" "ghost" 19732 true]
                 [] [] [] (Settings.mk (1 # 10) true) 3)
  /\ ~ (exists e, reducer (rt := zoneUTC) env0 stateKA
        (TOGGLE_COMPLETE "ghost" "nope" 19732) = Throw e).
Proof.
  assert (H : reducer (rt := zoneUTC) env0 stateKA (TOGGLE_COMPLETE "ghost" "nope" 19732)
              = Ok (State.mk [kidK] [choreA] []
                             [Completion.mk "id-1" "nope" "ghost" 19732 true]
                             [] [] [] (Settings.mk (1 # 10) true) 3))
    by (vm_compute; reflexivity).
  split; [exact H|]. intros [e He]. rewrite H in He. discriminate He.
Qed.

(** C6, as the code has it: adjusting a kid id that no kid of the state has
    leaves the kids, and every other collection except the adjustment log,
    as they were, and still puts a new Adjustment record for that id at the
    head of the log. *)
Theorem adjust_unknown_kid_logs_only {rt : Runtime} :
  forall (env : Env.t) (state : State.t) (kidId : string) (delta : Z) (reason : string),
    ~ In kidId (map Kid.id (State.kids state)) ->
    exists a,
      reducer env state (ADJUST_POINTS_WITH_REASON kidId delta reason)
      = Ok (State.mk (State.kids state) (State.chores state) (State.rewards state)
                     (State.completions state) (State.payouts state)
                     (a :: State.adjustments state) (State.streakBonuses state)
                     (State.settings state) (State.version state))
      /\ Adjustment.kidId a = kidId
      /\ Adjustment.delta a = delta
      /\ Adjustment.id a = Env.nanoid_1 env.
Proof.
  intros env state kidId delta reason Hkid. simpl.
  rewrite map_points_absent by exact Hkid.
  eexists. split; [reflexivity|]. simpl. auto.
Qed.

Lemma adjust_unknown_kid_witness :
  exists a,
    reducer (rt := zoneUTC) env0 stateKA (ADJUST_POINTS_WITH_REASON "ghost" (-5) "  ")
    = Ok (State.mk [kidK] [choreA] [] [] [] [a] [] (Settings.mk (1 # 10) true) 3)
    /\ Adjustment.kidId a = "ghost"
    /\ Adjustment.delta a = -5
    /\ Adjustment.id a = "id-1".
Proof.
  apply (adjust_unknown_kid_logs_only env0 stateKA "ghost" (-5) "  ").
  simpl. intros [H|[]]. discriminate H.
Defined.

(** C6 as stated fails: the returned state is not the input state, its
    adjustment log has grown by a record for the unknown kid. *)
Lemma adjust_unknown_kid_not_noop :
  reducer (rt := zoneUTC) env0 stateKA (ADJUST_POINTS_WITH_REASON "ghost" (-5) "  ")
  = Ok (State.mk [kidK] [choreA] [] [] []
                 [Adjustment.mk "id-1" "ghost" (-5) "-adjust" "2024-01-10T08:00:00.000Z"]
                 [] (Settings.mk (1 # 10) true) 3)
  /\ reducer (rt := zoneUTC) env0 stateKA
        (ADJUST_POINTS_WITH_REASON "ghost" (-5) "  ") <> Ok stateKA.
Proof.
  split; [vm_compute; reflexivity|].
  intros H. apply (f_equal (fun r => match r with
                                     | Ok s => length (State.adjustments s)
                                     | _ => O
                                     end)) in H.
  vm_compute in H. discriminate H.
Qed.

(* ===================================================================== *)
(** * Balances stay non-negative *)
(* ===================================================================== *)

Lemma chorePoints_nonneg (was completed : bool) (pts p : Z) :
  0 <= pts -> 0 <= p -> 0 <= chorePoints was completed pts p.
Proof. unfold chorePoints. destruct was, completed; simpl; lia. Qed.

Lemma toggle_complete_nonneg {rt : Runtime} env state kidId choreId dateISO :
  pointsNonNegative (State.kids state) ->
  Forall (fun ch => 0 <= Chore.points ch) (State.chores state) ->
  (exists s', toggle_complete env state kidId choreId dateISO = Ok s'
              /\ pointsNonNegative (State.kids s'))
  \/ toggle_complete env state kidId choreId dateISO = Throw TypeError.
Proof.
  intros Hkids Hchores.
  destruct (toggle_complete_phases env state kidId choreId dateISO)
    as (cs & completed & f & bs & Hrec & Hbonus & ->).
  pose proof (BonusChange_nonneg _ _ _ _ _ _ _ Hbonus) as Hf.
  destruct (toggle_points_cases state kidId choreId dateISO completed
              (RecordChange_completed _ _ _ _ _ _ _ Hrec))
    as [[_ ->]|[(ch & Hch & ->)|(_ & _ & ->)]]; simpl; [left|left|now right].
  - eexists. split; [reflexivity|]. simpl. now apply map_points_nonneg.
  - eexists. split; [reflexivity|]. simpl.
    apply map_points_nonneg; [exact Hf|].
    apply map_points_nonneg; [|exact Hkids].
    intros p Hp. apply chorePoints_nonneg; [|exact Hp].
    apply List.find_some in Hch as [Hin _].
    rewrite List.Forall_forall in Hchores. now apply Hchores.
Qed.

(** C3, as the code has it: from a state in which the balance of every kid
    and the point value of every chore are non-negative, every action, a
    REPLACE_ALL only if the kids it supplies have non-negative balances,
    either returns a state in which every balance is non-negative or (a
    TOGGLE_COMPLETE for an unknown chore) throws a TypeError. *)
Theorem reducer_keeps_points_non_negative {rt : Runtime} :
  forall (env : Env.t) (state : State.t) (action : Action),
    pointsNonNegative (State.kids state) ->
    Forall (fun ch => 0 <= Chore.points ch) (State.chores state) ->
    (forall blob, action = REPLACE_ALL blob -> pointsNonNegative (Blob.kids blob)) ->
    (exists s', reducer env state action = Ok s' /\ pointsNonNegative (State.kids s'))
    \/ reducer env state action = Throw TypeError.
Proof.
  intros env state action Hkids Hchores Hblob.
  destruct action; simpl;
    try (left; eexists; split; [reflexivity|]; simpl; exact Hkids).
  - left. eexists. split; [reflexivity|]. simpl.
    apply Forall_app. split; [exact Hkids|]. constructor; [simpl; lia|constructor].
  - left. eexists. split; [reflexivity|]. simpl.
    apply map_points_nonneg; [intros; lia|exact Hkids].
  - now apply toggle_complete_nonneg.
  - left. eexists. split; [reflexivity|]. constructor.
  - left. eexists. split; [reflexivity|]. simpl. now apply Hblob.
Qed.

Lemma reducer_keeps_points_non_negative_witness :
  (exists s', reducer (rt := zoneUTC) env0 stateKA
        (ADJUST_POINTS_WITH_REASON "K" (-20) "late") = Ok s'
              /\ pointsNonNegative (State.kids s'))
  \/ reducer (rt := zoneUTC) env0 stateKA
        (ADJUST_POINTS_WITH_REASON "K" (-20) "late") = Throw TypeError.
Proof.
  apply (reducer_keeps_points_non_negative env0 stateKA
           (ADJUST_POINTS_WITH_REASON "K" (-20) "late")).
  - repeat constructor. simpl. lia.
  - repeat constructor. simpl. lia.
  - intros blob H. discriminate H.
Defined.

(** C3 as stated fails: REPLACE_ALL installs the kids of the supplied state as
    they are, so a non-negative state can be followed by a negative balance. *)
Lemma replace_all_can_install_negative_points :
  pointsNonNegative (State.kids stateKA)
  /\ exists s', reducer (rt := zoneUTC) env0 stateKA (REPLACE_ALL blobNegative) = Ok s'
                /\ ~ pointsNonNegative (State.kids s').
Proof.
  split.
  - repeat constructor. simpl. lia.
  - eexists. split; [reflexivity|]. simpl. intros H.
    inversion H as [|k ks Hk _]; subst. simpl in Hk. lia.
Qed.

(** Ticking a chore whose point value is negative adds that value unclamped. *)
Lemma toggle_negative_chore_goes_below_zero :
  exists s', reducer (rt := zoneUTC) env0 statePenalty (TOGGLE_COMPLETE "K" "A" 19732) = Ok s'
             /\ map Kid.points (State.kids s') = [-3].
Proof. eexists. split; [vm_compute; reflexivity|]. reflexivity. Qed.

(* ===================================================================== *)
(** * One record per key *)
(* ===================================================================== *)

Lemma same_triple_key kidId choreId dateISO c :
  same_triple kidId choreId dateISO c = true <->
  completionKey c = (kidId, choreId, dateISO).
Proof.
  unfold same_triple, completionKey. split.
  - intros E. apply andb_prop in E as [E E3]. apply andb_prop in E as [E1 E2].
    apply String.eqb_eq in E1, E2. apply Z.eqb_eq in E3. congruence.
  - intros [= -> -> ->]. now rewrite !String.eqb_refl, Z.eqb_refl.
Qed.

Lemma RecordChange_unique env state kidId choreId dateISO cs was completed :
  RecordChange env state kidId choreId dateISO cs was completed ->
  uniqueCompletions (State.completions state) -> uniqueCompletions cs.
Proof.
  unfold uniqueCompletions.
  intros H Hu. inversion H as [Hidx Hcs|i e Hidx He Hp Hc Hcs|i e Hidx He Hp Hc Hcs];
    subst.
  - rewrite map_app. simpl. apply NoDup_app_one; [exact Hu|].
    intros Hin. apply in_map_iff in Hin as (c & Hkey & Hin).
    pose proof (findIndex_None _ _ Hidx c Hin) as Hf.
    apply same_triple_key in Hkey. unfold completionKey in Hkey. simpl in Hkey.
    congruence.
  - rewrite map_delete. now apply NoDup_delete.
  - rewrite (map_insert_same completionKey _ i _ e He); [exact Hu|reflexivity].
Qed.

Lemma BonusChange_unique {rt : Runtime} env state kidId dateISO cs f bonuses :
  BonusChange env state kidId dateISO cs f bonuses ->
  uniqueBonuses (State.streakBonuses state) -> uniqueBonuses bonuses.
Proof.
  unfold uniqueBonuses.
  intros H Hu. inversion H as [|run Hfull Hrun Hpos Hrem Hfind|b Hfull Hfind]; subst.
  - exact Hu.
  - simpl. constructor; [|exact Hu].
    intros Hin. apply in_map_iff in Hin as (b & Hkey & Hin).
    pose proof (find_None_forall _ _ Hfind b Hin) as Hf. simpl in Hf.
    unfold bonusKey in Hkey. simpl in Hkey. injection Hkey as Hk Hd.
    rewrite Hk, Hd, String.eqb_refl, Z.eqb_refl in Hf. discriminate Hf.
  - now apply NoDup_map_filter.
Qed.

Lemma toggle_complete_unique {rt : Runtime} env state kidId choreId dateISO s' :
  uniqueRecords state ->
  toggle_complete env state kidId choreId dateISO = Ok s' ->
  uniqueRecords s'.
Proof.
  intros [Hc Hb].
  destruct (toggle_complete_phases env state kidId choreId dateISO)
    as (cs & completed & f & bs & Hrec & Hbonus & ->).
  destruct (toggle_points state kidId choreId dateISO completed); simpl;
    try discriminate.
  intros [= <-]. split; simpl.
  - eapply RecordChange_unique; eauto.
  - eapply BonusChange_unique; eauto.
Qed.

Lemma reducer_unique {rt : Runtime} env state action s' :
  uniqueRecords state ->
  suppliesUniqueRecords action ->
  reducer env state action = Ok s' ->
  uniqueRecords s'.
Proof.
  intros Hu Hsup.
  destruct action; simpl;
    try (intros [= <-]; destruct Hu as [Hc Hb]; split; simpl; assumption).
  - intros [= <-]. destruct Hu as [Hc Hb]. split; simpl; [|exact Hb].
    now apply NoDup_map_filter.
  - now apply toggle_complete_unique.
  - intros [= <-]. split; simpl; constructor.
  - intros [= <-]. exact Hsup.
Qed.

Lemma dispatchAll_unique {rt : Runtime} steps : forall s0 s,
  uniqueRecords s0 ->
  Forall (fun step => suppliesUniqueRecords (snd step)) steps ->
  dispatchAll s0 steps = Ok s ->
  uniqueRecords s.
Proof.
  induction steps as [|[env a] steps IH]; simpl; intros s0 s Hu Hsup Hrun.
  - now injection Hrun as <-.
  - inversion Hsup as [|? ? Ha Hrest]; subst. simpl in Ha.
    destruct (reducer env s0 a) as [s1| |] eqn:Hstep; simpl in Hrun; try discriminate.
    apply (IH s1 s); [|exact Hrest|exact Hrun].
    exact (reducer_unique env s0 a s1 Hu Ha Hstep).
Qed.

(** C5, as the code has it: after any sequence of actions applied to the
    default state in which every REPLACE_ALL supplies a state that itself has
    at most one Completion per (kid, chore, date) and at most one StreakBonus
    per (kid, date), the resulting state has at most one Completion per
    triple and at most one StreakBonus per pair. *)
Theorem unique_records_after_any_actions {rt : Runtime} :
  forall (steps : list (Env.t * Action)) (s : State.t),
    Forall (fun step => suppliesUniqueRecords (snd step)) steps ->
    dispatchAll emptyState steps = Ok s ->
    uniqueCompletions (State.completions s) /\ uniqueBonuses (State.streakBonuses s).
Proof.
  intros steps s Hsup Hrun.
  apply (dispatchAll_unique steps emptyState s); auto.
  split; simpl; constructor.
Qed.

Lemma unique_records_witness :
  uniqueCompletions (State.completions sessionEnd)
  /\ uniqueBonuses (State.streakBonuses sessionEnd).
Proof.
  apply (unique_records_after_any_actions (rt := zoneUTC) sessionSteps sessionEnd).
  - repeat constructor.
  - vm_compute. reflexivity.
Defined.

(** C5 as stated fails: REPLACE_ALL installs the supplied completions as they
    are, duplicates included. *)
Lemma replace_all_can_install_duplicates :
  exists s,
    dispatchAll (rt := zoneUTC) emptyState [(env0, REPLACE_ALL blobDuplicate)] = Ok s
    /\ ~ uniqueCompletions (State.completions s).
Proof.
  eexists. split; [reflexivity|]. unfold uniqueCompletions. simpl. intros H.
  inversion H as [|k ks Hnotin _]; subst. apply Hnotin. left. reflexivity.
Qed.

(* ===================================================================== *)
(** * Reordering chores *)
(* ===================================================================== *)

Lemma forEach_set_lookup (ids : list string) : forall (i : Z) (m : gmap string Z) (x : string),
  forEach_set ids i m !! x
  = match lastIndexOf x ids with
    | Some j => Some (i + Z.of_nat j + 1)
    | None => m !! x
    end.
Proof.
  induction ids as [|y ids IH]; intros i m x; simpl; [reflexivity|].
  rewrite IH. destruct (lastIndexOf x ids) as [j|].
  - f_equal. lia.
  - destruct (String.eqb y x) eqn:E.
    + apply String.eqb_eq in E. subst. rewrite lookup_insert_eq. f_equal. lia.
    + apply String.eqb_neq in E. now rewrite lookup_insert_ne.
Qed.

Lemma lastIndexOf_absent (x : string) (xs : list string) :
  ~ In x xs -> lastIndexOf x xs = None.
Proof.
  induction xs as [|y xs IH]; simpl; intros H; [reflexivity|].
  rewrite IH by tauto.
  destruct (String.eqb y x) eqn:E; [|reflexivity].
  apply String.eqb_eq in E. tauto.
Qed.

Lemma lastIndexOf_NoDup (xs : list string) : forall (j : nat) (x : string),
  List.NoDup xs -> xs !! j = Some x -> lastIndexOf x xs = Some j.
Proof.
  induction xs as [|y xs IH]; intros j x Hnd Hj; [discriminate|].
  inversion Hnd as [|? ? Hnotin Hnd']; subst. destruct j as [|j]; simpl in *.
  - injection Hj as ->. rewrite lastIndexOf_absent by exact Hnotin.
    now rewrite String.eqb_refl.
  - now rewrite (IH j x Hnd' Hj).
Qed.

Lemma insert_by_order_perm (c : Chore.t) (l : list Chore.t) :
  Permutation (insert_by_order c l) (c :: l).
Proof.
  induction l as [|x l IH]; simpl; [reflexivity|].
  destruct (order_key c - order_key x <=? 0); [reflexivity|].
  rewrite IH. apply perm_swap.
Qed.

Lemma sort_by_order_perm (l : list Chore.t) : Permutation (sort_by_order l) l.
Proof.
  unfold sort_by_order. induction l as [|x l IH]; simpl; [reflexivity|].
  rewrite insert_by_order_perm. now constructor.
Qed.

Lemma insert_by_order_sorted (c : Chore.t) (l : list Chore.t) :
  StronglySorted orderLe l -> StronglySorted orderLe (insert_by_order c l).
Proof.
  induction 1 as [|x l Hs IH Hall]; simpl.
  - repeat constructor.
  - destruct (order_key c - order_key x <=? 0) eqn:E.
    + apply Z.leb_le in E. constructor; [now constructor|].
      constructor; [unfold orderLe; lia|].
      eapply List.Forall_impl; [|exact Hall]. unfold orderLe. intros; lia.
    + apply Z.leb_gt in E. constructor; [exact IH|].
      rewrite List.Forall_forall. intros y Hy.
      apply (Permutation_in _ (insert_by_order_perm c l)) in Hy.
      destruct Hy as [<-|Hy]; [unfold orderLe; lia|].
      rewrite List.Forall_forall in Hall. now apply Hall.
Qed.

Lemma sort_by_order_sorted (l : list Chore.t) : StronglySorted orderLe (sort_by_order l).
Proof.
  unfold sort_by_order. induction l as [|x l IH]; simpl; [constructor|].
  now apply insert_by_order_sorted.
Qed.

Lemma reorder_map_newOrder (orderedIds : list string) (chores : list Chore.t) :
  map (fun c => Chore.with_order c
                  (match forEach_set orderedIds 0 ∅ !! Chore.id c with
                   | Some o => o
                   | None => default 9999 (Chore.order c)
                   end)) chores
  = map (fun c => Chore.with_order c (newOrder orderedIds c)) chores.
Proof.
  apply map_ext. intros c. unfold newOrder. rewrite forEach_set_lookup.
  destruct (lastIndexOf (Chore.id c) orderedIds); [f_equal; lia|].
  now rewrite lookup_empty.
Qed.

(** C7, as the code has it: REORDER_CHORES gives a chore whose id stands in
    the list the order p+1, p being the (last) place of the id in the list,
    that is 1..N in list sequence when no id is repeated; a chore that is not
    mentioned keeps the order it has and gets the fallback 9999 only when it
    has none; the chores are then sorted by order.  Consequently reordering
    the chores [A,B,C] with the list [C,A,B] yields [C,A,B], also after
    sorting by order once more. *)
Theorem reorder_chores_assigns_orders {rt : Runtime} :
  forall (env : Env.t) (state : State.t) (orderedIds : list string),
    exists chores',
      reducer env state (REORDER_CHORES orderedIds)
      = Ok (State.mk (State.kids state) chores' (State.rewards state)
                     (State.completions state) (State.payouts state)
                     (State.adjustments state) (State.streakBonuses state)
                     (State.settings state) (State.version state))
      /\ chores'
         = sort_by_order
             (map (fun c => Chore.with_order c (newOrder orderedIds c))
                  (State.chores state))
      /\ Permutation chores'
           (map (fun c => Chore.with_order c (newOrder orderedIds c)) (State.chores state))
      /\ StronglySorted orderLe chores'
      /\ (forall (j : nat) (c : Chore.t),
            List.NoDup orderedIds -> orderedIds !! j = Some (Chore.id c) ->
            newOrder orderedIds c = Z.of_nat j + 1)
      /\ (forall c : Chore.t,
            ~ In (Chore.id c) orderedIds ->
            newOrder orderedIds c = default 9999 (Chore.order c))
      /\ (forall A B C : Chore.t,
            State.chores state = [A; B; C] ->
            List.NoDup [Chore.id A; Chore.id B; Chore.id C] ->
            orderedIds = [Chore.id C; Chore.id A; Chore.id B] ->
            map Chore.id chores' = [Chore.id C; Chore.id A; Chore.id B]
            /\ sort_by_order chores' = chores').
Proof.
  intros env state orderedIds. eexists. split; [reflexivity|].
  rewrite reorder_map_newOrder.
  assert (Hpos : forall (j : nat) (c : Chore.t),
             List.NoDup orderedIds -> orderedIds !! j = Some (Chore.id c) ->
             newOrder orderedIds c = Z.of_nat j + 1).
  { intros j c Hnd Hj. unfold newOrder.
    now rewrite (lastIndexOf_NoDup orderedIds j (Chore.id c) Hnd Hj). }
  assert (Hscenario : forall A B C : Chore.t,
             List.NoDup [Chore.id A; Chore.id B; Chore.id C] ->
             sort_by_order
               (map (fun c => Chore.with_order c
                                (newOrder [Chore.id C; Chore.id A; Chore.id B] c))
                    [A; B; C])
             = [Chore.with_order C 1; Chore.with_order A 2; Chore.with_order B 3]).
  { intros A B C Hnd.
    assert (Hnd' : List.NoDup [Chore.id C; Chore.id A; Chore.id B]).
    { apply (Permutation_NoDup (l := [Chore.id A; Chore.id B; Chore.id C]));
        [|exact Hnd].
      apply Permutation_sym, (Permutation_cons_app [_; _] []). reflexivity. }
    assert (HA : newOrder [Chore.id C; Chore.id A; Chore.id B] A = 2)
      by (unfold newOrder; now rewrite (lastIndexOf_NoDup _ 1%nat _ Hnd' eq_refl)).
    assert (HB : newOrder [Chore.id C; Chore.id A; Chore.id B] B = 3)
      by (unfold newOrder; now rewrite (lastIndexOf_NoDup _ 2%nat _ Hnd' eq_refl)).
    assert (HC : newOrder [Chore.id C; Chore.id A; Chore.id B] C = 1)
      by (unfold newOrder; now rewrite (lastIndexOf_NoDup _ 0%nat _ Hnd' eq_refl)).
    cbn [map]. rewrite HA, HB, HC. reflexivity. }
  split; [reflexivity|].
  split; [apply sort_by_order_perm|].
  split; [apply sort_by_order_sorted|].
  split; [exact Hpos|].
  split; [intros c Hc; unfold newOrder; now rewrite lastIndexOf_absent|].
  intros A B C Hchores Hnd ->. rewrite Hchores, (Hscenario A B C Hnd).
  split; reflexivity.
Qed.

Lemma reorder_chores_witness :
  exists chores',
    reducer (rt := zoneUTC) env0 stateABC (REORDER_CHORES ["C"; "A"; "B"])
    = Ok (State.mk [] chores' [] [] [] [] [] (Settings.mk (1 # 10) true) 3)
    /\ map Chore.id chores' = ["C"; "A"; "B"]
    /\ sort_by_order chores' = chores'.
Proof.
  destruct (reorder_chores_assigns_orders (rt := zoneUTC) env0 stateABC ["C"; "A"; "B"])
    as (chores' & Hred & _ & _ & _ & _ & _ & Hscenario).
  exists chores'. split; [exact Hred|].
  apply (Hscenario (Chore.mk "A" "Dishes" 3 daily [] None (Some 1))
                   (Chore.mk "B" "Laundry" 2 daily [] None (Some 2))
                   (Chore.mk "C" "Trash" 1 daily [] None (Some 3))).
  - reflexivity.
  - simpl. repeat constructor; simpl; intros H;
      repeat (destruct H as [H|H]; [discriminate H|]); exact H.
  - reflexivity.
Defined.

(** C7 as stated fails: with chores A (order 1) and B (order 2) and the list
    [B], the chore A, which the list does not mention, keeps order 1 instead
    of a large fallback, and sorts first, not last. *)
Lemma reorder_unmentioned_keeps_order :
  exists s',
    reducer (rt := zoneUTC) env0
      (State.mk []
                [Chore.mk "A" "Dishes" 3 daily [] None (Some 1);
                 Chore.mk "B" "Laundry" 2 daily [] None (Some 2)]
                [] [] [] [] [] (Settings.mk (1 # 10) true) 3)
      (REORDER_CHORES ["B"]) = Ok s'
    /\ map (fun c => (Chore.id c, Chore.order c)) (State.chores s')
       = [("A", Some 1); ("B", Some 1)].
Proof. eexists. split; [vm_compute; reflexivity|]. reflexivity. Qed.

(* ===================================================================== *)
(** * Loading the stored state *)
(* ===================================================================== *)

Lemma defaults_fields :
  defaultFields Storage.defaults
  /\ Storage.defaults !! "adjustments" = None
  /\ Storage.defaults !! "streakBonuses" = None.
Proof. unfold defaultFields. repeat split; vm_compute; reflexivity. Qed.

Lemma backfilled_defaults_fields :
  let o := Storage.defaults
           ∪ Storage.props_from [("adjustments", JArr []); ("streakBonuses", JArr [])] ∅ in
  defaultFields o
  /\ o !! "adjustments" = Some (JArr [])
  /\ o !! "streakBonuses" = Some (JArr []).
Proof. unfold defaultFields. repeat split; vm_compute; reflexivity. Qed.

Lemma loadState_returns JSON_parse localStorage :
  exists o, Storage.loadState JSON_parse localStorage = Ok o
            /\ (missingOrCorrupt JSON_parse localStorage -> o = Storage.defaults).
Proof.
  unfold Storage.loadState, missingOrCorrupt, Storage.parse.
  destruct (localStorage !! Storage.KEY) as [text|]; [|eauto].
  destruct (String.eqb text "") eqn:E; [eauto|].
  apply String.eqb_neq in E.
  destruct (JSON_parse text) as [v|]; simpl.
  - eexists. split; [reflexivity|]. intros [H|H]; [contradiction|discriminate].
  - eauto.
Qed.

(** C8, as the code has it: for every stored input [loadState] returns an
    object without failing, and when the stored item is absent, empty or
    unparseable it returns the default object: empty kids, chores, rewards,
    completions and payouts, settings {dollarsPerPoint: 0.1,
    hideCompletedOnBoard: true} and schema version 2, with no adjustments
    and no streakBonuses property; those two are added, as empty
    collections, by the initializer that calls [loadState]. *)
Theorem load_state_never_fails :
  forall (JSON_parse : string -> option json) (localStorage : gmap string string),
    exists o o',
      Storage.loadState JSON_parse localStorage = Ok o
      /\ Storage.initialState JSON_parse localStorage = Ok o'
      /\ (missingOrCorrupt JSON_parse localStorage ->
          defaultFields o
          /\ o !! "adjustments" = None
          /\ o !! "streakBonuses" = None
          /\ defaultFields o'
          /\ o' !! "adjustments" = Some (JArr [])
          /\ o' !! "streakBonuses" = Some (JArr [])).
Proof.
  intros JSON_parse localStorage.
  destruct (loadState_returns JSON_parse localStorage) as (o & Hload & Hdefault).
  exists o. eexists. split; [exact Hload|].
  unfold Storage.initialState. rewrite Hload. simpl. split; [reflexivity|].
  intros Hbad. rewrite (Hdefault Hbad).
  destruct defaults_fields as (H1 & H2 & H3).
  destruct backfilled_defaults_fields as (H4 & H5 & H6).
  repeat split; assumption.
Qed.

Lemma load_state_witness :
  exists o o',
    Storage.loadState (fun _ => None) {[ Storage.KEY := "{oops" ]} = Ok o
    /\ Storage.initialState (fun _ => None) {[ Storage.KEY := "{oops" ]} = Ok o'
    /\ defaultFields o
    /\ o !! "adjustments" = None
    /\ o !! "streakBonuses" = None
    /\ defaultFields o'
    /\ o' !! "adjustments" = Some (JArr [])
    /\ o' !! "streakBonuses" = Some (JArr []).
Proof.
  destruct (load_state_never_fails (fun _ => None) {[ Storage.KEY := "{oops" ]})
    as (o & o' & Hload & Hinit & Hfields).
  exists o, o'. split; [exact Hload|]. split; [exact Hinit|].
  apply Hfields. unfold missingOrCorrupt.
  rewrite lookup_singleton_eq. right. reflexivity.
Defined.

(** C8 as stated fails: the default that [loadState] returns for an empty
    store carries schema version 2, not 3, and has no adjustments and no
    streakBonuses collection. *)
Lemma load_default_is_version_2 :
  exists o,
    Storage.loadState (fun _ => None) ∅ = Ok o
    /\ o !! "version" = Some (JNum (2 # 1))
    /\ o !! "version" <> Some (JNum (3 # 1))
    /\ o !! "adjustments" = None
    /\ o !! "streakBonuses" = None.
Proof.
  exists Storage.defaults. split; [reflexivity|].
  destruct defaults_fields as ((_ & _ & _ & _ & _ & _ & Hv) & Ha & Hs).
  repeat split; try assumption.
  rewrite Hv. intros H. discriminate H.
Qed.

(* ===================================================================== *)
(** * The ten-day scenario *)
(* ===================================================================== *)

Section TenDays.
Context {rt : Runtime}.
Variables (envs : nat -> Env.t) (s0 : State.t) (K : Kid.t) (C : Chore.t) (d : Z).
Hypothesis HCpoints : Chore.points C = 3.
Hypothesis HCdaily : Chore.schedule C = daily.
Hypothesis HCassigned : Chore.assignedKidIds C = [Kid.id K].
(** The zone is not behind UTC on the ten days. *)
Hypothesis Hzone : forall j, 0 <= j <= 9 -> behindUTC (d + j) = false.

Local Abbreviation k := (Kid.id K).
Local Abbreviation c := (Chore.id C).
Local Abbreviation ticksN := (ticks envs K C d).
Local Abbreviation choreN := (tickedChore K C).
Local Abbreviation stateN := (tickedState envs s0 K C d).
Local Abbreviation stateTen := (tenthState envs s0 K C d).
Local Abbreviation stateUnticked := (untickedState envs s0 K C d).

Lemma ticks_length n : length (ticksN n) = n.
Proof. induction n as [|n IH]; simpl; [reflexivity|]. rewrite last_length. now f_equal. Qed.

Lemma ticks_in n x :
  In x (ticksN n) ->
  exists i, (i < n)%nat
            /\ x = Completion.mk (Env.nanoid_1 (envs i)) c k (d + Z.of_nat i) true.
Proof.
  induction n as [|n IH]; simpl; [intros []|].
  intros H. apply in_app_or in H as [H|[<-|[]]].
  - destruct (IH H) as (i & Hi & ->). exists i. split; [lia|reflexivity].
  - exists n. split; [lia|reflexivity].
Qed.

Lemma ticks_done n x :
  existsb (done_triple k c x) (ticksN n) = (d <=? x) && (x <? d + Z.of_nat n).
Proof.
  induction n as [|n IH]; simpl.
  - decide_bounds.
  - rewrite existsb_app, IH. simpl.
    unfold done_triple, same_triple. simpl.
    rewrite !String.eqb_refl. simpl.
    decide_bounds.
Qed.

Lemma ticks_findIndex_fresh n x :
  d + Z.of_nat n <= x -> findIndex (same_triple k c x) (ticksN n) = None.
Proof.
  intros Hx. apply findIndex_None_intro. intros r Hr.
  destruct (ticks_in n r Hr) as (i & Hi & ->).
  unfold same_triple. simpl.
  destruct (Z.eqb_spec (d + Z.of_nat i) x); [lia|].
  now rewrite !andb_false_r.
Qed.

Lemma tickedChore_id n : Chore.id (choreN n) = c.
Proof. now destruct n. Qed.
Lemma tickedChore_points n : Chore.points (choreN n) = 3.
Proof using HCpoints. now destruct n. Qed.
Lemma tickedChore_schedule n : Chore.schedule (choreN n) = daily.
Proof using HCdaily. now destruct n. Qed.
Lemma tickedChore_assigned n : Chore.assignedKidIds (choreN n) = [k].
Proof using HCassigned. now destruct n. Qed.

(** With the single daily chore, the full days are the ticked days. *)
Lemma full_ticked (s : State.t) (n m : nat) (x : Z) :
  State.chores s = [choreN m] -> State.completions s = ticksN n ->
  isFullDayDone s k x = (d <=? x) && (x <? d + Z.of_nat n).
Proof using HCdaily HCassigned.
  intros Hch Hcs. unfold isFullDayDone, choresDueForKidOnDate, isChoreDueOn.
  rewrite Hch, Hcs. simpl.
  rewrite tickedChore_assigned, tickedChore_schedule. unfold includes_str. simpl.
  rewrite String.eqb_refl. simpl.
  rewrite tickedChore_id, ticks_done. now rewrite andb_true_r.
Qed.

Lemma newDate_ticked (j : nat) :
  (j <= 9)%nat -> newDate (d + Z.of_nat j) = d + Z.of_nat j.
Proof using Hzone. intros Hj. unfold newDate. rewrite Hzone by lia. reflexivity. Qed.

Lemma run_ticked (s : State.t) (n m j : nat) :
  State.chores s = [choreN m] -> State.completions s = ticksN n ->
  (j < n)%nat -> (j <= 9)%nat ->
  consecutiveFullDaysEndingOn s k (d + Z.of_nat j) = Ok (Z.of_nat j + 1).
Proof using HCdaily HCassigned Hzone.
  intros Hch Hcs Hj Hj9. unfold consecutiveFullDaysEndingOn.
  rewrite newDate_ticked by exact Hj9.
  destruct (fullDaysLoop_exits s k (S (length (State.completions s))) 0
                               (d + Z.of_nat j))
    as (r & Hr & _ & Hrun & Hall & Hstop).
  { pose proof (recordsUpTo_bound s (d + Z.of_nat j)). lia. }
  rewrite Hrun. f_equal. simpl.
  rewrite (full_ticked s n m _ Hch Hcs) in Hstop.
  assert (Hgt : Z.of_nat j < r).
  { destruct (Z.leb_spec d (d + Z.of_nat j - r)),
      (Z.ltb_spec (d + Z.of_nat j - r) (d + Z.of_nat n)); simpl in Hstop;
      try discriminate; lia. }
  destruct (Z.eq_dec r (Z.of_nat j + 1)) as [->|Hne]; [reflexivity|].
  specialize (Hall (Z.of_nat j + 1)). rewrite (full_ticked s n m _ Hch Hcs) in Hall.
  assert (Hfalse : (d <=? d + Z.of_nat j - (Z.of_nat j + 1)) = false)
    by (apply Z.leb_gt; lia).
  rewrite Hfalse in Hall. simpl in Hall.
  assert (false = true) by (apply Hall; lia). discriminate.
Qed.

Lemma tick_record n :
  toggle_record (envs n) (stateN n) k c (d + Z.of_nat n) = Ok (ticksN (S n), true).
Proof.
  unfold toggle_record. simpl State.completions.
  rewrite ticks_findIndex_fresh by lia. reflexivity.
Qed.

Lemma tick_points n :
  toggle_points (stateN n) k c (d + Z.of_nat n) true
  = Ok [Kid.with_points K (3 * Z.of_nat (S n))].
Proof using HCpoints.
  rewrite (toggle_points_found _ _ _ _ _ (choreN n)).
  - unfold wasChecked. simpl State.completions.
    rewrite ticks_findIndex_fresh by lia.
    unfold map_points, chorePoints. simpl.
    rewrite String.eqb_refl, tickedChore_points.
    unfold Kid.with_points. simpl. do 3 f_equal. lia.
  - simpl. now rewrite tickedChore_id, String.eqb_refl.
Qed.

Lemma tick_streaks n :
  (n <= 9)%nat ->
  toggle_streaks (stateN n) k c (d + Z.of_nat n) true = [choreN (S n)].
Proof using Hzone.
  intros Hn. unfold toggle_streaks. simpl State.chores. cbn [map].
  unfold streakUpdate, toISO, addDays. rewrite newDate_ticked by exact Hn.
  simpl State.completions.
  rewrite tickedChore_id, String.eqb_refl, ticks_done. cbn [negb].
  destruct n as [|n].
  - replace ((d <=? d + Z.of_nat 0 + -1) && (d + Z.of_nat 0 + -1 <? d + Z.of_nat 0))
      with false by decide_bounds.
    reflexivity.
  - replace ((d <=? d + Z.of_nat (S n) + -1)
             && (d + Z.of_nat (S n) + -1 <? d + Z.of_nat (S n))) with true.
    + unfold tickedChore, Chore.with_streakByKid. simpl.
      rewrite lookup_insert_eq. simpl. rewrite insert_insert_eq.
      replace (Z.of_nat (S n) + 1) with (Z.of_nat (S (S n))) by lia. reflexivity.
    + decide_bounds.
Qed.

Lemma tick_bonus_kept n kids :
  (n <= 8)%nat ->
  toggle_bonus (envs n) (stateN n) k (d + Z.of_nat n) (ticksN (S n)) kids
  = Ok (kids, []).
Proof using HCdaily HCassigned Hzone.
  intros Hn. unfold toggle_bonus.
  rewrite (full_ticked _ (S n) n) by reflexivity.
  replace ((d <=? d + Z.of_nat n) && (d + Z.of_nat n <? d + Z.of_nat (S n))) with true
    by decide_bounds.
  rewrite (run_ticked _ (S n) n n) by (reflexivity || lia).
  simpl bind. rewrite Z.rem_small by lia.
  replace (Z.of_nat n + 1 =? 0) with false by (symmetry; apply Z.eqb_neq; lia).
  now rewrite andb_false_r.
Qed.

Lemma tick_bonus_awarded kids :
  toggle_bonus (envs 9%nat) (stateN 9%nat) k (d + Z.of_nat 9) (ticksN 10%nat) kids
  = Ok (map_points k (fun p => p + 5) kids,
        [StreakBonus.mk (Env.nanoid_2 (envs 9%nat)) k (d + 9) 10 5]).
Proof using HCdaily HCassigned Hzone.
  unfold toggle_bonus.
  rewrite (full_ticked _ 10%nat 9%nat) by reflexivity.
  replace ((d <=? d + Z.of_nat 9) && (d + Z.of_nat 9 <? d + Z.of_nat 10)) with true
    by decide_bounds.
  rewrite (run_ticked _ 10%nat 9%nat 9%nat) by (reflexivity || lia).
  reflexivity.
Qed.

Lemma tick_step n :
  (n <= 8)%nat ->
  reducer (envs n) (stateN n) (TOGGLE_COMPLETE k c (d + Z.of_nat n)) = Ok (stateN (S n)).
Proof using HCpoints HCdaily HCassigned Hzone.
  intros Hn. simpl reducer. unfold toggle_complete.
  rewrite tick_record. simpl bind. cbn [fst snd].
  rewrite tick_points. simpl bind.
  rewrite tick_bonus_kept by exact Hn. simpl bind. cbn [fst snd].
  rewrite tick_streaks by lia. reflexivity.
Qed.

Lemma tick_tenth :
  reducer (envs 9%nat) (stateN 9%nat) (TOGGLE_COMPLETE k c (d + Z.of_nat 9)) = Ok stateTen.
Proof using HCpoints HCdaily HCassigned Hzone.
  simpl reducer. unfold toggle_complete.
  rewrite tick_record. simpl bind. cbn [fst snd].
  rewrite tick_points. simpl bind.
  rewrite tick_bonus_awarded. simpl bind. cbn [fst snd].
  rewrite tick_streaks by lia. unfold map_points. cbn [map Kid.with_points Kid.id].
  rewrite String.eqb_refl. reflexivity.
Qed.

Lemma ticks_reach_ten m : forall n,
  (n + m = 10)%nat -> (1 <= m)%nat ->
  tickDays envs k c n (d + Z.of_nat n) m (stateN n) = Ok stateTen.
Proof using HCpoints HCdaily HCassigned Hzone.
  induction m as [|m IH]; intros n Hsum Hm; [lia|].
  cbn [tickDays]. destruct m as [|m].
  - assert (n = 9%nat) as -> by lia. rewrite tick_tenth. reflexivity.
  - rewrite tick_step by lia. simpl bind.
    replace (d + Z.of_nat n + 1) with (d + Z.of_nat (S n)) by lia.
    apply IH; lia.
Qed.

Lemma untick_findIndex :
  findIndex (same_triple k c (d + 9)) (ticksN 10%nat) = Some 9%nat.
Proof.
  change (ticksN 10%nat)
    with (ticksN 9%nat
            ++ [Completion.mk (Env.nanoid_1 (envs 9%nat)) c k (d + Z.of_nat 9) true]).
  rewrite findIndex_app_last.
  - now rewrite ticks_length.
  - apply ticks_findIndex_fresh. lia.
  - unfold same_triple. simpl. rewrite !String.eqb_refl. simpl. apply Z.eqb_eq. lia.
Qed.

Lemma untick_lookup :
  ticksN 10%nat !! 9%nat
  = Some (Completion.mk (Env.nanoid_1 (envs 9%nat)) c k (d + Z.of_nat 9) true).
Proof.
  change (ticksN 10%nat)
    with (ticksN 9%nat
            ++ [Completion.mk (Env.nanoid_1 (envs 9%nat)) c k (d + Z.of_nat 9) true]).
  rewrite <- (ticks_length 9) at 2. apply list_lookup_middle. reflexivity.
Qed.

Lemma untick_delete : delete 9%nat (ticksN 10%nat) = ticksN 9%nat.
Proof.
  change (ticksN 10%nat)
    with (ticksN 9%nat
            ++ [Completion.mk (Env.nanoid_1 (envs 9%nat)) c k (d + Z.of_nat 9) true]).
  rewrite <- (ticks_length 9) at 1. rewrite delete_middle. apply app_nil_r.
Qed.

Lemma untick_tenth env' :
  reducer env' stateTen (TOGGLE_COMPLETE k c (d + 9)) = Ok stateUnticked.
Proof using HCpoints HCdaily HCassigned.
  simpl reducer. unfold toggle_complete.
  assert (Hrec : toggle_record env' stateTen k c (d + 9) = Ok (ticksN 9%nat, false)).
  { unfold toggle_record, tenthState. cbn [State.completions].
    rewrite untick_findIndex, untick_lookup. cbn [deref bind Completion.completed negb].
    now rewrite untick_delete. }
  rewrite Hrec. cbn [bind]. cbn [fst snd].
  assert (Hpts : toggle_points stateTen k c (d + 9) false
                 = Ok [Kid.with_points K 32]).
  { rewrite (toggle_points_found _ _ _ _ _ (choreN 10%nat)).
    - unfold wasChecked, tenthState. cbn [State.completions State.kids].
      rewrite untick_findIndex, untick_lookup.
      unfold map_points, chorePoints. simpl.
      rewrite String.eqb_refl, HCpoints. reflexivity.
    - unfold tenthState. cbn [State.chores find]. rewrite tickedChore_id.
      now rewrite String.eqb_refl. }
  rewrite Hpts. cbn [bind].
  assert (Hbonus : toggle_bonus env' stateTen k (d + 9) (ticksN 9%nat)
                                [Kid.with_points K 32]
                   = Ok ([Kid.with_points K 27], [])).
  { unfold toggle_bonus.
    rewrite (full_ticked _ 9%nat 10%nat) by reflexivity.
    replace ((d <=? d + 9) && (d + 9 <? d + Z.of_nat 9)) with false
      by decide_bounds.
    simpl. rewrite !String.eqb_refl, Z.eqb_refl. simpl.
    unfold map_points. simpl. rewrite !String.eqb_refl. reflexivity. }
  rewrite Hbonus. cbn [bind]. cbn [fst snd].
  unfold untickedState. do 2 f_equal.
  unfold toggle_streaks, streakUpdate. simpl. rewrite String.eqb_refl. simpl.
  unfold Chore.with_streakByKid. simpl. now rewrite insert_insert_eq.
Qed.

End TenDays.

(** The ten-day scenario where the zone is not behind UTC on the ten days:
    from a state whose only kid K has no points and whose only chore is
    daily, worth 3 points and assigned to K alone, with no completions and no
    bonuses yet, ticking the chore on ten consecutive days gives K 35 points
    and exactly one StreakBonus, of streak length 10; unticking day ten then
    leaves K with 27 points, no StreakBonus, and a streak counter of 0 for K
    on the chore. *)
Theorem ten_day_streak_scenario {rt : Runtime} :
  forall (envs : nat -> Env.t) (env' : Env.t) (s0 : State.t) (K : Kid.t) (C : Chore.t)
         (d : Z),
    (forall j, 0 <= j <= 9 -> behindUTC (d + j) = false) ->
    State.kids s0 = [K] -> State.chores s0 = [C] ->
    State.completions s0 = [] -> State.streakBonuses s0 = [] ->
    Kid.points K = 0 ->
    Chore.points C = 3 -> Chore.schedule C = daily ->
    Chore.assignedKidIds C = [Kid.id K] ->
    exists s10 s11 b,
      tickDays envs (Kid.id K) (Chore.id C) 0 d 10 s0 = Ok s10
      /\ map Kid.points (State.kids s10) = [35]
      /\ State.streakBonuses s10 = [b]
      /\ StreakBonus.streakLength b = 10
      /\ reducer env' s10 (TOGGLE_COMPLETE (Kid.id K) (Chore.id C) (d + 9)) = Ok s11
      /\ map Kid.points (State.kids s11) = [27]
      /\ State.streakBonuses s11 = []
      /\ map (streakOf (Kid.id K)) (State.chores s11) = [Some 0].
Proof.
  intros envs env' s0 K C d Hz Hkids Hchores Hcs Hbs HK HCp HCd HCa.
  assert (Hs0 : s0 = tickedState envs s0 K C d 0).
  { destruct s0, K. simpl in *. subst. reflexivity. }
  exists (tenthState envs s0 K C d), (untickedState envs s0 K C d). eexists.
  split.
  { assert (Hrun : tickDays envs (Kid.id K) (Chore.id C) 0 (d + Z.of_nat 0) 10
                             (tickedState envs s0 K C d 0)
                    = Ok (tenthState envs s0 K C d))
      by (apply (ticks_reach_ten envs s0 K C d HCp HCd HCa Hz 10 0); lia).
    rewrite <- Hs0 in Hrun. replace (d + Z.of_nat 0) with d in Hrun by lia.
    exact Hrun. }
  split; [reflexivity|]. split; [reflexivity|]. split; [reflexivity|].
  split; [apply (untick_tenth envs s0 K C d HCp HCd HCa)|].
  split; [reflexivity|]. split; [reflexivity|].
  unfold untickedState, streakOf. simpl. now rewrite lookup_insert_eq.
Qed.

Lemma ten_day_streak_witness :
  exists s10 s11 b,
    tickDays (rt := zoneUTC) (fun _ => env0) "K" "A" 0 19732 10 stateKA = Ok s10
    /\ map Kid.points (State.kids s10) = [35]
    /\ State.streakBonuses s10 = [b]
    /\ StreakBonus.streakLength b = 10
    /\ reducer (rt := zoneUTC) env0 s10 (TOGGLE_COMPLETE "K" "A" (19732 + 9)) = Ok s11
    /\ map Kid.points (State.kids s11) = [27]
    /\ State.streakBonuses s11 = []
    /\ map (streakOf "K") (State.chores s11) = [Some 0].
Proof.
  apply (ten_day_streak_scenario (rt := zoneUTC) (fun _ => env0) env0 stateKA kidK
                                 choreA 19732);
    reflexivity.
Defined.

(** C2: in a zone behind UTC the scenario comes out differently.  The walk
    of [consecutiveFullDaysEndingOn] and the look at yesterday both start
    from [new Date(dateISO)], which falls on the local day before the date:
    after the same ten ticks K has the 30 chore points only, there is no
    StreakBonus, and the streak counter of K on the chore is 9. *)
Theorem ten_day_streak_behind_utc :
  exists s10,
    tickDays (rt := zoneWest) (fun _ => env0) "K" "A" 0 19732 10 stateKA = Ok s10
    /\ map Kid.points (State.kids s10) = [30]
    /\ State.streakBonuses s10 = []
    /\ map (streakOf "K") (State.chores s10) = [Some 9]
    /\ consecutiveFullDaysEndingOn (rt := zoneWest) s10 "K" (19732 + 9) = Ok 9
    /\ isFullDayDone (rt := zoneWest) s10 "K" (19732 + 9) = true.
Proof.
  eexists. split; [vm_compute; reflexivity|].
  repeat split; vm_compute; reflexivity.
Qed.

(* ===================================================================== *)
(** * Ticking and unticking the same triple *)
(* ===================================================================== *)

Lemma map_points_compose (kidId : string) (f g : Z -> Z) (kids : list Kid.t) :
  map_points kidId f (map_points kidId g kids)
  = map_points kidId (fun p => f (g p)) kids.
Proof.
  unfold map_points. induction kids as [|x kids IH]; simpl; [reflexivity|].
  rewrite IH. f_equal.
  destruct (String.eqb (Kid.id x) kidId) eqn:E; simpl; rewrite E; reflexivity.
Qed.

Lemma map_points_fixes (kidId : string) (f : Z -> Z) (kids : list Kid.t) :
  pointsNonNegative kids -> (forall p, 0 <= p -> f p = p) ->
  map_points kidId f kids = kids.
Proof.
  unfold pointsNonNegative, map_points. intros Hk Hf.
  induction kids as [|x kids IH]; simpl; [reflexivity|].
  inversion Hk; subst. rewrite IH by assumption. f_equal.
  destruct (String.eqb (Kid.id x) kidId); [|reflexivity].
  rewrite Hf by assumption. apply with_points_same.
Qed.

Lemma toggle_streaks_map {rt : Runtime} state kidId choreId dateISO completed :
  toggle_streaks state kidId choreId dateISO completed
  = map (streakUpdate state kidId choreId dateISO completed) (State.chores state).
Proof. reflexivity. Qed.

Lemma streakUpdate_id {rt : Runtime} state kidId choreId dateISO completed ch :
  Chore.id (streakUpdate state kidId choreId dateISO completed ch) = Chore.id ch.
Proof. unfold streakUpdate. now destruct (negb (String.eqb (Chore.id ch) choreId)). Qed.

Lemma streakUpdate_points {rt : Runtime} state kidId choreId dateISO completed ch :
  Chore.points (streakUpdate state kidId choreId dateISO completed ch) = Chore.points ch.
Proof. unfold streakUpdate. now destruct (negb (String.eqb (Chore.id ch) choreId)). Qed.

Lemma streakUpdate_due {rt : Runtime} state kidId choreId dateISO completed ch kid x :
  includes_str (Chore.assignedKidIds
                  (streakUpdate state kidId choreId dateISO completed ch)) kid
  && isChoreDueOn (streakUpdate state kidId choreId dateISO completed ch) x
  = includes_str (Chore.assignedKidIds ch) kid && isChoreDueOn ch x.
Proof.
  unfold streakUpdate, isChoreDueOn.
  now destruct (negb (String.eqb (Chore.id ch) choreId)).
Qed.

Lemma filter_map_same {A} (p : A -> bool) (g : A -> A) (l : list A) :
  (forall x, p (g x) = p x) -> List.filter p (map g l) = map g (List.filter p l).
Proof.
  intros H. induction l as [|x l IH]; simpl; [reflexivity|].
  rewrite H. destruct (p x); simpl; now rewrite IH.
Qed.

Lemma forallb_map_same {A} (q : A -> bool) (g : A -> A) (l : list A) :
  (forall x, q (g x) = q x) -> forallb q (map g l) = forallb q l.
Proof.
  intros H. induction l as [|x l IH]; simpl; [reflexivity|]. now rewrite H, IH.
Qed.

(** Whether a day is full does not depend on the streak counters. *)
Lemma isFullDayDone_streaks {rt : Runtime}
      (s s' : State.t) state kidId choreId dateISO completed kid x :
  State.chores s' = map (streakUpdate state kidId choreId dateISO completed)
                        (State.chores s) ->
  State.completions s' = State.completions s ->
  isFullDayDone s' kid x = isFullDayDone s kid x.
Proof.
  intros Hch Hcs. unfold isFullDayDone, choresDueForKidOnDate. rewrite Hch, Hcs.
  rewrite filter_map_same by (intros; apply streakUpdate_due).
  rewrite length_map, forallb_map_same; [reflexivity|].
  intros ch. now rewrite streakUpdate_id.
Qed.

Lemma find_chore_streaks {rt : Runtime}
      state kidId choreId dateISO completed (chores : list Chore.t) ch :
  List.find (fun x => String.eqb (Chore.id x) choreId) chores = Some ch ->
  List.find (fun x => String.eqb (Chore.id x) choreId)
            (map (streakUpdate state kidId choreId dateISO completed) chores)
  = Some (streakUpdate state kidId choreId dateISO completed ch).
Proof.
  induction chores as [|x chores IH]; simpl; [discriminate|].
  rewrite streakUpdate_id.
  destruct (String.eqb (Chore.id x) choreId); [now intros [= ->]|exact IH].
Qed.

(** Unticking after ticking leaves every chore as an untick alone would. *)
Lemma streakUpdate_twice {rt : Runtime} s1 state kidId choreId dateISO ch :
  streakUpdate s1 kidId choreId dateISO false
    (streakUpdate state kidId choreId dateISO true ch)
  = streakUpdate state kidId choreId dateISO false ch.
Proof.
  unfold streakUpdate.
  destruct (String.eqb (Chore.id ch) choreId) eqn:E; simpl; [|now rewrite E].
  rewrite E. simpl. unfold Chore.with_streakByKid. simpl.
  now rewrite insert_insert_eq.
Qed.

Lemma streakUpdate_resets {rt : Runtime} state kidId choreId dateISO ch :
  Chore.id ch = choreId ->
  streakOf kidId (streakUpdate state kidId choreId dateISO false ch) = Some 0.
Proof.
  intros <-. unfold streakUpdate, streakOf. rewrite String.eqb_refl. simpl.
  apply lookup_insert_eq.
Qed.

Lemma filter_all {A} (p : A -> bool) (l : list A) :
  (forall x, In x l -> p x = true) -> List.filter p l = l.
Proof.
  induction l as [|x l IH]; simpl; intros H; [reflexivity|].
  rewrite (H x (or_introl eq_refl)). f_equal. apply IH. intros y Hy. apply H. now right.
Qed.

Lemma find_bonus_none (kidId : string) (dateISO : Z) (bs : list StreakBonus.t) :
  (forall b, In b bs -> bonusKey b <> (kidId, dateISO)) ->
  List.find (fun b => String.eqb (StreakBonus.kidId b) kidId
                      && Z.eqb (StreakBonus.dateISO b) dateISO) bs = None.
Proof.
  induction bs as [|b bs IH]; simpl; intros H; [reflexivity|].
  destruct (String.eqb (StreakBonus.kidId b) kidId
            && Z.eqb (StreakBonus.dateISO b) dateISO) eqn:E.
  - exfalso. apply (H b (or_introl eq_refl)).
    apply andb_prop in E as [E1 E2]. apply String.eqb_eq in E1. apply Z.eqb_eq in E2.
    unfold bonusKey. congruence.
  - apply IH. intros b' Hb'. apply H. now right.
Qed.

Section RoundTrip.
Context {rt : Runtime}.
Variables (env1 env2 : Env.t) (state : State.t) (kidId choreId : string) (dateISO : Z).
Hypothesis Hchore : In choreId (map Chore.id (State.chores state)).
Hypothesis Hunticked :
  forall r, In r (State.completions state) ->
            completionKey r <> (kidId, choreId, dateISO).
Hypothesis Hpoints : pointsNonNegative (State.kids state).
Hypothesis Hnotfull : isFullDayDone state kidId dateISO = false.
Hypothesis Hnobonus :
  forall b, In b (State.streakBonuses state) -> bonusKey b <> (kidId, dateISO).
Hypothesis Hbonusid :
  forall b, In b (State.streakBonuses state) -> StreakBonus.id b <> Env.nanoid_2 env1.

Local Abbreviation newRecord :=
  (Completion.mk (Env.nanoid_1 env1) choreId kidId dateISO true).

(** The first toggle: the record is appended, the chore points are added,
    and a bonus is either awarded or not. *)
Lemma first_toggle :
  exists ch f bs,
    List.find (fun x => String.eqb (Chore.id x) choreId) (State.chores state) = Some ch
    /\ toggle_complete env1 state kidId choreId dateISO
       = Ok (toggled state
               (map_points kidId (fun p => f (p + Chore.points ch)) (State.kids state))
               (map (streakUpdate state kidId choreId dateISO true) (State.chores state))
               (State.completions state ++ [newRecord]) bs)
    /\ ((f = (fun p => p) /\ bs = State.streakBonuses state)
        \/ (exists run,
              f = (fun p => p + 5)
              /\ bs = StreakBonus.mk (Env.nanoid_2 env1) kidId dateISO run 5
                        :: State.streakBonuses state)).
Proof using Hchore Hunticked Hnobonus.
  destruct (find_chore_present choreId (State.chores state) Hchore)
    as (ch & Hfind & _ & _).
  pose proof (no_record_findIndex state kidId choreId dateISO Hunticked) as Hidx.
  destruct (toggle_complete_phases env1 state kidId choreId dateISO)
    as (cs & completed & f & bs & Hrec & Hbonus & Heq).
  assert (Hwas : wasChecked state kidId choreId dateISO = false)
    by (unfold wasChecked; now rewrite Hidx).
  rewrite Hwas in *.
  inversion Hrec; subst; try congruence.
  rewrite (toggle_points_found _ _ _ _ _ ch Hfind), Hwas in Heq. simpl in Heq.
  rewrite map_points_compose in Heq. unfold chorePoints in Heq. simpl in Heq.
  exists ch, f, bs. split; [exact Hfind|]. split; [exact Heq|].
  inversion Hbonus as [|run Hfull Hrun Hpos Hrem Hnone|b Hfull Hsome]; subst.
  - left. auto.
  - right. exists run. auto.
  - rewrite (find_bonus_none kidId dateISO _ Hnobonus) in Hsome. discriminate.
Qed.

(** The second toggle, from the state the first one returns. *)
Lemma second_toggle ch f bs :
  List.find (fun x => String.eqb (Chore.id x) choreId) (State.chores state) = Some ch ->
  (f = (fun p => p) /\ bs = State.streakBonuses state)
  \/ (exists run,
        f = (fun p => p + 5)
        /\ bs = StreakBonus.mk (Env.nanoid_2 env1) kidId dateISO run 5
                  :: State.streakBonuses state) ->
  toggle_complete env2
    (toggled state
       (map_points kidId (fun p => f (p + Chore.points ch)) (State.kids state))
       (map (streakUpdate state kidId choreId dateISO true) (State.chores state))
       (State.completions state ++ [newRecord]) bs)
    kidId choreId dateISO
  = Ok (toggled state (State.kids state)
          (map (streakUpdate state kidId choreId dateISO false) (State.chores state))
          (State.completions state) (State.streakBonuses state)).
Proof using Hunticked Hpoints Hnotfull Hnobonus Hbonusid.
  intros Hfind Hcases.
  set (s1 := toggled state _ _ _ bs).
  pose proof (no_record_findIndex state kidId choreId dateISO Hunticked) as Hidx.
  assert (Hnew : same_triple kidId choreId dateISO newRecord = true)
    by (unfold same_triple; simpl; now rewrite !String.eqb_refl, Z.eqb_refl).
  assert (Hidx1 : findIndex (same_triple kidId choreId dateISO) (State.completions s1)
                  = Some (length (State.completions state)))
    by (apply findIndex_app_last; assumption).
  assert (Hlook : State.completions s1 !! length (State.completions state)
                  = Some newRecord)
    by (apply list_lookup_middle; reflexivity).
  assert (Hrec : toggle_record env2 s1 kidId choreId dateISO
                 = Ok (State.completions state, false)).
  { unfold toggle_record. rewrite Hidx1, Hlook. cbn [deref bind Completion.completed negb].
    subst s1. cbn [toggled State.completions].
    rewrite delete_middle. now rewrite app_nil_r. }
  assert (Hpts : toggle_points s1 kidId choreId dateISO false
                 = Ok (map_points kidId
                         (fun p => Z.max 0 (f (p + Chore.points ch) - Chore.points ch))
                         (State.kids state))).
  { rewrite (toggle_points_found s1 _ _ _ _
               (streakUpdate state kidId choreId dateISO true ch)).
    - unfold wasChecked. rewrite Hidx1, Hlook. subst s1. cbn [toggled State.kids].
      rewrite map_points_compose, streakUpdate_points. reflexivity.
    - subst s1. cbn [toggled State.chores]. now apply find_chore_streaks. }
  assert (Hfull : isFullDayDone (State.with_completions s1 (State.completions state))
                                kidId dateISO = false).
  { rewrite <- Hnotfull.
    apply (isFullDayDone_streaks state _ state kidId choreId dateISO true);
      reflexivity. }
  assert (Hbonus : toggle_bonus env2 s1 kidId dateISO (State.completions state)
                     (map_points kidId
                        (fun p => Z.max 0 (f (p + Chore.points ch) - Chore.points ch))
                        (State.kids state))
                   = Ok (State.kids state, State.streakBonuses state)).
  { unfold toggle_bonus. rewrite Hfull. subst s1. cbn [toggled State.streakBonuses].
    destruct Hcases as [[-> ->]|(run & -> & ->)].
    - rewrite (find_bonus_none kidId dateISO _ Hnobonus).
      rewrite map_points_fixes; [reflexivity|exact Hpoints|intros; lia].
    - cbn [find StreakBonus.kidId StreakBonus.dateISO].
      rewrite String.eqb_refl, Z.eqb_refl. cbn [andb StreakBonus.points StreakBonus.id].
      rewrite map_points_compose.
      rewrite map_points_fixes; [|exact Hpoints|intros; lia].
      cbn [List.filter]. rewrite String.eqb_refl. cbn [negb].
      rewrite filter_all; [reflexivity|].
      intros b Hb. apply negb_true_iff, String.eqb_neq. now apply Hbonusid. }
  unfold toggle_complete. rewrite Hrec. cbn [bind fst snd].
  rewrite Hpts. cbn [bind]. rewrite Hbonus. cbn [bind fst snd].
  rewrite toggle_streaks_map. subst s1. cbn [toggled State.chores].
  rewrite map_map. unfold toggled. cbn [State.rewards State.payouts State.adjustments
                                          State.settings State.version].
  do 2 f_equal. apply map_ext. intros x. apply streakUpdate_twice.
Qed.

End RoundTrip.

(** When the chore is due for the kid that day and is not ticked, the day is
    not a full day. *)
Lemma due_unticked_not_full {rt : Runtime} state kidId choreId dateISO ch :
  In ch (State.chores state) -> Chore.id ch = choreId ->
  includes_str (Chore.assignedKidIds ch) kidId = true ->
  isChoreDueOn ch dateISO = true ->
  (forall r, In r (State.completions state) ->
             completionKey r <> (kidId, choreId, dateISO)) ->
  isFullDayDone state kidId dateISO = false.
Proof.
  intros Hin Hid Has Hdue Hnone. unfold isFullDayDone.
  assert (Hd : In ch (choresDueForKidOnDate state kidId dateISO)).
  { unfold choresDueForKidOnDate. apply filter_In. split; [exact Hin|].
    now rewrite Has, Hdue. }
  destruct (choresDueForKidOnDate state kidId dateISO) as [|x due] eqn:E;
    [destruct Hd|].
  cbn [length Nat.eqb]. apply not_true_is_false. intros Hall.
  rewrite forallb_forall in Hall. specialize (Hall ch Hd).
  apply existsb_exists in Hall as (r & Hr & Hdone).
  unfold done_triple in Hdone. apply andb_prop in Hdone as [Hsame _].
  apply same_triple_key in Hsame. rewrite Hid in Hsame. exact (Hnone r Hr Hsame).
Qed.

(** C1, as the code has it: when the triple has no completion record, the
    balances are non-negative, the day is not already a full day for the kid
    (as when the chore is due for the kid and not yet ticked), no StreakBonus
    exists yet for (kid, date) and the id drawn for a new bonus is not in
    use, toggling the triple twice restores the kids with their points, the
    completions and the streak bonuses: a bonus awarded by the first toggle
    is revoked by the second and nets to zero.  The chore's streak counter
    of the kid is not restored: it is reset to 0. *)
Theorem toggle_twice_round_trip {rt : Runtime} :
  forall (env1 env2 : Env.t) (state : State.t) (kidId choreId : string) (dateISO : Z),
    In choreId (map Chore.id (State.chores state)) ->
    (forall r, In r (State.completions state) ->
               completionKey r <> (kidId, choreId, dateISO)) ->
    pointsNonNegative (State.kids state) ->
    isFullDayDone state kidId dateISO = false ->
    (forall b, In b (State.streakBonuses state) -> bonusKey b <> (kidId, dateISO)) ->
    (forall b, In b (State.streakBonuses state) ->
               StreakBonus.id b <> Env.nanoid_2 env1) ->
    exists s1 s2,
      reducer env1 state (TOGGLE_COMPLETE kidId choreId dateISO) = Ok s1
      /\ reducer env2 s1 (TOGGLE_COMPLETE kidId choreId dateISO) = Ok s2
      /\ (State.streakBonuses s1 = State.streakBonuses state
          \/ exists run,
               State.streakBonuses s1
               = StreakBonus.mk (Env.nanoid_2 env1) kidId dateISO run 5
                   :: State.streakBonuses state)
      /\ State.kids s2 = State.kids state
      /\ State.completions s2 = State.completions state
      /\ State.streakBonuses s2 = State.streakBonuses state
      /\ State.chores s2
         = map (streakUpdate state kidId choreId dateISO false) (State.chores state)
      /\ (forall ch, In ch (State.chores s2) -> Chore.id ch = choreId ->
                     streakOf kidId ch = Some 0).
Proof.
  intros env1 env2 state kidId choreId dateISO Hchore Hunticked Hpoints Hnotfull
         Hnobonus Hbonusid.
  destruct (first_toggle env1 state kidId choreId dateISO Hchore Hunticked Hnobonus)
    as (ch & f & bs & Hfind & Hfirst & Hcases).
  pose proof (second_toggle env1 env2 state kidId choreId dateISO Hunticked Hpoints
                Hnotfull Hnobonus Hbonusid ch f bs Hfind Hcases) as Hsecond.
  eexists _, _. simpl reducer. split; [exact Hfirst|]. split; [exact Hsecond|].
  cbn [toggled State.kids State.chores State.completions State.streakBonuses].
  split.
  { destruct Hcases as [[_ ->]|(run & _ & ->)]; [now left|right; now exists run]. }
  repeat split.
  intros x Hx Hid. apply in_map_iff in Hx as (y & <- & _).
  rewrite streakUpdate_id in Hid. now apply streakUpdate_resets.
Qed.

Lemma toggle_twice_witness :
  exists s1 s2,
    reducer (rt := zoneUTC) env0 stateNine (TOGGLE_COMPLETE "K" "A" 19741) = Ok s1
    /\ reducer (rt := zoneUTC) env0 s1 (TOGGLE_COMPLETE "K" "A" 19741) = Ok s2
    /\ (State.streakBonuses s1 = []
        \/ exists run,
             State.streakBonuses s1 = [StreakBonus.mk "id-2" "K" 19741 run 5])
    /\ State.kids s2 = State.kids stateNine
    /\ State.completions s2 = State.completions stateNine
    /\ State.streakBonuses s2 = []
    /\ State.chores s2
       = map (streakUpdate (rt := zoneUTC) stateNine "K" "A" 19741 false) (State.chores stateNine)
    /\ (forall ch, In ch (State.chores s2) -> Chore.id ch = "A" ->
                   streakOf "K" ch = Some 0).
Proof.
  apply (toggle_twice_round_trip env0 env0 stateNine "K" "A" 19741).
  - simpl. left. reflexivity.
  - intros r Hr Hkey. simpl in Hr. unfold completionKey in Hkey.
    repeat (destruct Hr as [<-|Hr]; [simpl in Hkey; injection Hkey as Hd;
                                     vm_compute in Hd; discriminate Hd|]).
    exact Hr.
  - repeat constructor. simpl. lia.
  - vm_compute. reflexivity.
  - intros b [].
  - intros b [].
Defined.

(** C1 as stated fails: after nine ticked days the streak counter of K on the
    chore is 9; ticking and unticking the tenth day restores points,
    completions and bonuses (the day-ten bonus comes and goes), but leaves
    the streak counter at 0, not 9. *)
Lemma toggle_twice_resets_streak :
  exists s1 s2,
    reducer (rt := zoneUTC) env0 stateNine (TOGGLE_COMPLETE "K" "A" 19741) = Ok s1
    /\ reducer (rt := zoneUTC) env0 s1 (TOGGLE_COMPLETE "K" "A" 19741) = Ok s2
    /\ map Kid.points (State.kids s1) = [35]
    /\ map Kid.points (State.kids s2) = map Kid.points (State.kids stateNine)
    /\ map (streakOf "K") (State.chores stateNine) = [Some 9]
    /\ map (streakOf "K") (State.chores s2) = [Some 0].
Proof.
  eexists _, _. split; [vm_compute; reflexivity|].
  split; [vm_compute; reflexivity|].
  repeat split; vm_compute; reflexivity.
Qed.

(** From a ticked triple the round trip does not restore the completions
    either: the record comes back with the id drawn by the second toggle. *)
Lemma untick_then_tick_renews_record :
  exists s s1 s2,
    reducer (rt := zoneUTC) env0 stateKA (TOGGLE_COMPLETE "K" "A" 19732) = Ok s
    /\ reducer (rt := zoneUTC) env0 s (TOGGLE_COMPLETE "K" "A" 19732) = Ok s1
    /\ reducer (rt := zoneUTC) (Env.mk "id-7" "id-8" "later") s1
          (TOGGLE_COMPLETE "K" "A" 19732) = Ok s2
    /\ map Completion.id (State.completions s) = ["id-1"]
    /\ map Completion.id (State.completions s2) = ["id-7"].
Proof.
  eexists _, _, _. split; [vm_compute; reflexivity|].
  split; [vm_compute; reflexivity|].
  split; [vm_compute; reflexivity|].
  split; reflexivity.
Qed.

(** When the day is already full the round trip does not restore the points:
    here days 2 to 10 are ticked before day 1, so that no bonus exists for
    day 10; toggling the unassigned chore B twice on day 10 then awards the
    bonus and keeps it. *)
Lemma bonus_kept_on_already_full_day :
  exists s s1 s2,
    (do s' <- tickDays (rt := zoneUTC) (fun _ => env0) "K" "A" 0 19733 9 stateKAB;
     reducer (rt := zoneUTC) env0 s' (TOGGLE_COMPLETE "K" "A" 19732)) = Ok s
    /\ reducer (rt := zoneUTC) env0 s (TOGGLE_COMPLETE "K" "B" 19741) = Ok s1
    /\ reducer (rt := zoneUTC) env0 s1 (TOGGLE_COMPLETE "K" "B" 19741) = Ok s2
    /\ map Kid.points (State.kids s) = [30]
    /\ State.streakBonuses s = []
    /\ map Kid.points (State.kids s2) = [35]
    /\ State.streakBonuses s2 = [StreakBonus.mk "id-2" "K" 19741 10 5]
    /\ State.completions s2 = State.completions s.
Proof.
  eexists _, _, _. split; [vm_compute; reflexivity|].
  split; [vm_compute; reflexivity|].
  split; [vm_compute; reflexivity|].
  repeat split; vm_compute; reflexivity.
Qed.

(* ===================================================================== *)
(** * The other transitions of the reducer *)
(* ===================================================================== *)

Lemma state_eta (s : State.t) :
  State.mk (State.kids s) (State.chores s) (State.rewards s) (State.completions s)
           (State.payouts s) (State.adjustments s) (State.streakBonuses s)
           (State.settings s) (State.version s) = s.
Proof. now destruct s. Qed.



Lemma maxOrder_bounds (chores : list Chore.t) : forall (m : Z),
  m <= fold_left (fun m c => Z.max m (default 0 (Chore.order c))) chores m
  /\ forall x, In x chores ->
       order_key x <= fold_left (fun m c => Z.max m (default 0 (Chore.order c))) chores m.
Proof.
  induction chores as [|c chores IH]; intros m; simpl.
  - split; [lia|intros x []].
  - destruct (IH (Z.max m (default 0 (Chore.order c)))) as [Hm Hall]. split; [lia|].
    intros x [<-|Hx]; [unfold order_key; lia|now apply Hall].
Qed.

Lemma insert_by_order_before_last (c last : Chore.t) (l : list Chore.t) :
  order_key c <= order_key last ->
  insert_by_order c (l ++ [last]) = insert_by_order c l ++ [last].
Proof.
  intros Hc. induction l as [|x l IH]; simpl.
  - replace (order_key c - order_key last <=? 0) with true
      by (symmetry; apply Z.leb_le; lia).
    reflexivity.
  - destruct (order_key c - order_key x <=? 0); [reflexivity|]. now rewrite IH.
Qed.

Lemma sort_by_order_last (l : list Chore.t) (last : Chore.t) :
  (forall x, In x l -> order_key x <= order_key last) ->
  sort_by_order (l ++ [last]) = sort_by_order l ++ [last].
Proof.
  unfold sort_by_order. induction l as [|x l IH]; simpl; intros H; [reflexivity|].
  rewrite IH by (intros y Hy; apply H; now right).
  apply insert_by_order_before_last. apply H. now left.
Qed.

(** X2: ADD_CHORE appends a chore whose order is at least 1 and greater than
    the order of every chore already there, with an empty streak map, so
    that sorting the chores by order keeps the new chore last. *)
Theorem add_chore_sorts_last {rt : Runtime} :
  forall (env : Env.t) (state : State.t) (title : string) (points : Z)
         (schedule : Schedule) (assignedKidIds : list string),
    exists ch,
      reducer env state (ADD_CHORE title points schedule assignedKidIds)
      = Ok (State.mk (State.kids state) (State.chores state ++ [ch])
                     (State.rewards state) (State.completions state)
                     (State.payouts state) (State.adjustments state)
                     (State.streakBonuses state) (State.settings state)
                     (State.version state))
      /\ Chore.id ch = Env.nanoid_1 env
      /\ Chore.streakByKid ch = Some ∅
      /\ 1 <= order_key ch
      /\ (forall x, In x (State.chores state) -> order_key x < order_key ch)
      /\ sort_by_order (State.chores state ++ [ch])
         = sort_by_order (State.chores state) ++ [ch].
Proof.
  intros env state title points schedule assignedKidIds.
  destruct (maxOrder_bounds (State.chores state) 0) as [H0 Hall].
  set (maxOrder := fold_left (fun m c => Z.max m (default 0 (Chore.order c)))
                             (State.chores state) 0) in *.
  set (ch := Chore.mk (Env.nanoid_1 env) title points schedule assignedKidIds
                      (Some ∅) (Some (maxOrder + 1))).
  assert (Hkey : order_key ch = maxOrder + 1) by reflexivity.
  exists ch. split; [reflexivity|]. split; [reflexivity|]. split; [reflexivity|].
  rewrite Hkey. split; [lia|]. split.
  - intros x Hx. specialize (Hall x Hx). lia.
  - apply sort_by_order_last. intros x Hx. specialize (Hall x Hx). lia.
Qed.

(** X3: ADD_KID appends a kid with no points and the generated id and leaves
    the kids already there as they are; a colour that is given and not empty
    is kept, otherwise the kid gets the palette colour at the number of
    existing kids modulo 6, which is one of the six palette colours. *)
Theorem add_kid_appends_with_palette_colour {rt : Runtime} :
  forall (env : Env.t) (state : State.t) (name : string) (color avatarEmoji : option string),
    exists kid,
      reducer env state (ADD_KID name color avatarEmoji)
      = Ok (State.mk (State.kids state ++ [kid]) (State.chores state)
                     (State.rewards state) (State.completions state)
                     (State.payouts state) (State.adjustments state)
                     (State.streakBonuses state) (State.settings state)
                     (State.version state))
      /\ Kid.id kid = Env.nanoid_1 env
      /\ Kid.points kid = 0
      /\ Kid.name kid = trim name
      /\ (forall c, color = Some c -> c <> "" -> Kid.color kid = Some c)
      /\ (color = None \/ color = Some "" ->
          Kid.color kid
          = Some (nth (length (State.kids state) mod 6) pastelPool "")
          /\ In (nth (length (State.kids state) mod 6) pastelPool "") pastelPool).
Proof.
  intros env state name color avatarEmoji.
  eexists. split; [reflexivity|]. cbn [Kid.id Kid.points Kid.name Kid.color].
  split; [reflexivity|]. split; [reflexivity|]. split; [reflexivity|]. split.
  - intros c -> Hc. unfold opt_str_or, str_or.
    apply String.eqb_neq in Hc. now rewrite Hc.
  - intros Hcol. split.
    + destruct Hcol as [->| ->]; reflexivity.
    + apply nth_In. change (length pastelPool) with 6%nat.
      apply Nat.mod_upper_bound. lia.
Qed.

(** X4: with non-negative balances, adding a non-negative amount to a kid
    and then deducting the same amount returns every kid to the balance it
    had, while the adjustment log keeps both entries, whose deltas cancel. *)
Theorem adjust_up_then_down_restores_balance {rt : Runtime} :
  forall (env1 env2 : Env.t) (state : State.t) (kidId : string) (delta : Z)
         (reason1 reason2 : string),
    pointsNonNegative (State.kids state) ->
    0 <= delta ->
    exists s1 s2 a1 a2,
      reducer env1 state (ADJUST_POINTS_WITH_REASON kidId delta reason1) = Ok s1
      /\ reducer env2 s1 (ADJUST_POINTS_WITH_REASON kidId (- delta) reason2) = Ok s2
      /\ State.kids s2 = State.kids state
      /\ State.adjustments s2 = a2 :: a1 :: State.adjustments state
      /\ Adjustment.delta a1 + Adjustment.delta a2 = 0.
Proof.
  intros env1 env2 state kidId delta reason1 reason2 Hk Hd.
  eexists _, _, _, _. split; [reflexivity|]. split; [reflexivity|].
  cbn [State.kids State.adjustments Adjustment.delta].
  split; [|split; [reflexivity|simpl; lia]].
  rewrite map_points_compose. apply map_points_fixes; [exact Hk|]. intros p Hp. lia.
Qed.

Lemma adjust_up_then_down_witness :
  exists s1 s2 a1 a2,
    reducer (rt := zoneUTC) env0 stateKA (ADJUST_POINTS_WITH_REASON "K" 5 "helped") = Ok s1
    /\ reducer (rt := zoneUTC) env0 s1 (ADJUST_POINTS_WITH_REASON "K" (- 5) "oops") = Ok s2
    /\ State.kids s2 = State.kids stateKA
    /\ State.adjustments s2 = a2 :: a1 :: State.adjustments stateKA
    /\ Adjustment.delta a1 + Adjustment.delta a2 = 0.
Proof.
  apply (adjust_up_then_down_restores_balance env0 env0 stateKA "K" 5 "helped" "oops").
  - repeat constructor. simpl. lia.
  - lia.
Defined.

(** X5: ADJUST_POINTS_WITH_REASON always logs one record carrying the kid id
    and the requested delta, also when the balance was clamped at zero; the
    logged reason is the trimmed reason, and when that is blank it is
    "+adjust" for a positive delta and "-adjust" otherwise (a zero delta
    included), so it is never empty. *)
Theorem adjust_logs_requested_delta {rt : Runtime} :
  forall (env : Env.t) (state : State.t) (kidId : string) (delta : Z) (reason : string),
    exists s' a,
      reducer env state (ADJUST_POINTS_WITH_REASON kidId delta reason) = Ok s'
      /\ State.adjustments s' = a :: State.adjustments state
      /\ Adjustment.kidId a = kidId
      /\ Adjustment.delta a = delta
      /\ Adjustment.timestampISO a = Env.now env
      /\ Adjustment.reason a <> ""
      /\ (trim reason <> "" -> Adjustment.reason a = trim reason)
      /\ (trim reason = "" ->
          Adjustment.reason a = if 0 <? delta then "+adjust" else "-adjust")
      /\ State.kids s'
         = map_points kidId (fun p => Z.max 0 (p + delta)) (State.kids state).
Proof.
  intros env state kidId delta reason.
  eexists _, _. split; [reflexivity|].
  cbn [State.adjustments State.kids Adjustment.kidId Adjustment.delta
       Adjustment.timestampISO Adjustment.reason].
  repeat (split; [reflexivity|]). unfold str_or.
  destruct (String.eqb (trim reason) "") eqn:E.
  - apply String.eqb_eq in E. split; [now destruct (0 <? delta)|].
    split; [congruence|]. split; [now destruct (0 <? delta)|reflexivity].
  - apply String.eqb_neq in E. split; [exact E|].
    split; [reflexivity|]. split; [congruence|reflexivity].
Qed.

(** X6: UPDATE_SETTINGS with no field given returns the state unchanged, an
    update changes nothing but the settings (kids, chores, completions,
    bonuses, rewards, payouts, adjustments and version stay), a given field
    takes the given value, and applying the same update a second time
    changes nothing more. *)
Theorem update_settings_partial_and_idempotent {rt : Runtime} :
  forall (env env' : Env.t) (state : State.t) (dollarsPerPoint : option Q)
         (hideCompletedOnBoard : option bool),
    reducer env state (UPDATE_SETTINGS None None) = Ok state
    /\ exists s',
         reducer env state (UPDATE_SETTINGS dollarsPerPoint hideCompletedOnBoard) = Ok s'
         /\ State.kids s' = State.kids state
         /\ State.chores s' = State.chores state
         /\ State.completions s' = State.completions state
         /\ State.streakBonuses s' = State.streakBonuses state
         /\ State.rewards s' = State.rewards state
         /\ State.payouts s' = State.payouts state
         /\ State.adjustments s' = State.adjustments state
         /\ State.version s' = State.version state
         /\ Settings.dollarsPerPoint (State.settings s')
            = default (Settings.dollarsPerPoint (State.settings state)) dollarsPerPoint
         /\ Settings.hideCompletedOnBoard (State.settings s')
            = default (Settings.hideCompletedOnBoard (State.settings state))
                      hideCompletedOnBoard
         /\ reducer env' s' (UPDATE_SETTINGS dollarsPerPoint hideCompletedOnBoard) = Ok s'.
Proof.
  intros env env' state dollarsPerPoint hideCompletedOnBoard. split.
  - destruct state as [? ? ? ? ? ? ? [? ?] ?]. reflexivity.
  - eexists. split; [reflexivity|]. simpl. repeat (split; [reflexivity|]).
    destruct dollarsPerPoint, hideCompletedOnBoard; reflexivity.
Qed.

(** X7: a run of PAYOUT actions always succeeds, adds exactly one payout
    record per action in front of the payouts already there, and changes no
    kid (hence no balance), chore, completion, adjustment, bonus or
    setting. *)
Theorem payouts_never_touch_balances {rt : Runtime} :
  forall (steps : list (Env.t * Action)) (s0 : State.t),
    Forall (fun step => isPayout (snd step)) steps ->
    exists s,
      dispatchAll s0 steps = Ok s
      /\ State.kids s = State.kids s0
      /\ State.chores s = State.chores s0
      /\ State.completions s = State.completions s0
      /\ State.adjustments s = State.adjustments s0
      /\ State.streakBonuses s = State.streakBonuses s0
      /\ State.settings s = State.settings s0
      /\ exists added, State.payouts s = added ++ State.payouts s0
                       /\ length added = length steps.
Proof.
  induction steps as [|[env a] steps IH]; intros s0 Hall.
  - exists s0. simpl. repeat (split; [reflexivity|]). exists []. auto.
  - inversion Hall as [|? ? Ha Hrest]; subst. simpl in Ha.
    destruct a; try contradiction. cbn [dispatchAll reducer bind].
    match goal with
    | |- context [dispatchAll ?s1 steps] =>
        destruct (IH s1 Hrest)
          as (s & Hrun & Hk & Hc & Hcs & Had & Hb & Hs & added & Hp & Hl)
    end.
    exists s. split; [exact Hrun|]. simpl in *.
    repeat (split; [assumption|]).
    eexists (added ++ [_]). rewrite <- app_assoc. split; [exact Hp|].
    rewrite last_length. now f_equal.
Qed.

Lemma payouts_never_touch_balances_witness :
  exists s,
    dispatchAll (rt := zoneUTC) stateKA
      [(env0, PAYOUT "K" period_weekly 19732 19738 50);
       (env0, PAYOUT "K" period_monthly 19732 19762 20)] = Ok s
    /\ State.kids s = State.kids stateKA
    /\ State.chores s = State.chores stateKA
    /\ State.completions s = State.completions stateKA
    /\ State.adjustments s = State.adjustments stateKA
    /\ State.streakBonuses s = State.streakBonuses stateKA
    /\ State.settings s = State.settings stateKA
    /\ exists added, State.payouts s = added ++ State.payouts stateKA
                     /\ length added = 2%nat.
Proof.
  apply (payouts_never_touch_balances
           [(env0, PAYOUT "K" period_weekly 19732 19738 50);
            (env0, PAYOUT "K" period_monthly 19732 19762 20)] stateKA).
  repeat constructor.
Defined.

Lemma filter_reward_fresh (id : string) (rewards : list Reward.t) :
  ~ In id (map Reward.id rewards) ->
  List.filter (fun r => negb (String.eqb (Reward.id r) id)) rewards = rewards.
Proof.
  intros H. apply filter_all. intros r Hr. apply negb_true_iff, String.eqb_neq.
  intros <-. apply H. now apply in_map.
Qed.

(** X8: when the generated id is not the id of a reward already there,
    ADD_REWARD followed by DELETE_REWARD of that id returns the state as it
    was; and DELETE_REWARD of an id that no reward has returns the state
    unchanged. *)
Theorem reward_add_delete_round_trip {rt : Runtime} :
  forall (env env' : Env.t) (state : State.t) (title : string) (cost : Z),
    ~ In (Env.nanoid_1 env) (map Reward.id (State.rewards state)) ->
    (exists s1,
       reducer env state (ADD_REWARD title cost) = Ok s1
       /\ State.rewards s1
          = State.rewards state ++ [Reward.mk (Env.nanoid_1 env) title cost]
       /\ reducer env' s1 (DELETE_REWARD (Env.nanoid_1 env)) = Ok state)
    /\ reducer env' state (DELETE_REWARD (Env.nanoid_1 env)) = Ok state.
Proof.
  intros env env' state title cost Hfresh. split.
  - eexists. split; [reflexivity|]. split; [reflexivity|].
    cbn [reducer State.kids State.chores State.rewards State.completions State.payouts
         State.adjustments State.streakBonuses State.settings State.version].
    rewrite List.filter_app, filter_reward_fresh by exact Hfresh.
    cbn [List.filter Reward.id]. rewrite String.eqb_refl. cbn [negb].
    rewrite app_nil_r. now rewrite state_eta.
  - cbn [reducer]. rewrite filter_reward_fresh by exact Hfresh. now rewrite state_eta.
Qed.

Lemma reward_add_delete_witness :
  (exists s1,
     reducer (rt := zoneUTC) env0 stateKA (ADD_REWARD "Movie night" 20) = Ok s1
     /\ State.rewards s1 = [Reward.mk "id-1" "Movie night" 20]
     /\ reducer (rt := zoneUTC) env0 s1 (DELETE_REWARD "id-1") = Ok stateKA)
  /\ reducer (rt := zoneUTC) env0 stateKA (DELETE_REWARD "id-1") = Ok stateKA.
Proof.
  apply (reward_add_delete_round_trip env0 env0 stateKA "Movie night" 20).
  simpl. intros [].
Defined.

(** X9: REPLACE_ALL does not look at the current state: restoring the blob of
    a backup that holds every field of a state yields exactly that state,
    whatever the state was before, schema version included; a blob without
    adjustments, streak bonuses or version gets empty logs and version 3. *)
Theorem replace_all_restores_backup {rt : Runtime} :
  forall (env : Env.t) (current saved : State.t),
    reducer env current (REPLACE_ALL (blobOfState saved)) = Ok saved
    /\ forall blob,
         Blob.adjustments blob = None -> Blob.streakBonuses blob = None ->
         Blob.version blob = None ->
         exists s',
           reducer env current (REPLACE_ALL blob) = Ok s'
           /\ State.adjustments s' = [] /\ State.streakBonuses s' = []
           /\ State.version s' = 3
           /\ State.kids s' = Blob.kids blob
           /\ State.completions s' = Blob.completions blob.
Proof.
  intros env current saved. split.
  - simpl. now rewrite state_eta.
  - intros blob Ha Hb Hv. eexists. split; [reflexivity|]. simpl.
    rewrite Ha, Hb, Hv. auto.
Qed.

(** X10: the reducer returns a state for every action except a
    TOGGLE_COMPLETE whose chore id no chore of the state has: it throws for
    nothing else and its loop always ends. *)
Theorem reducer_returns_unless_chore_unknown {rt : Runtime} :
  forall (env : Env.t) (state : State.t) (action : Action),
    (forall kidId choreId dateISO,
        action = TOGGLE_COMPLETE kidId choreId dateISO ->
        In choreId (map Chore.id (State.chores state))) ->
    exists s', reducer env state action = Ok s'.
Proof.
  intros env state action Hchore.
  destruct action; try (eexists; reflexivity).
  specialize (Hchore _ _ _ eq_refl).
  destruct (find_chore_present _ _ Hchore) as (ch & Hfind & _).
  destruct (toggle_complete_phases env state kidId choreId dateISO)
    as (cs & completed & f & bs & _ & _ & Heq).
  cbn [reducer]. rewrite Heq, (toggle_points_found _ _ _ _ _ ch Hfind). simpl. eauto.
Qed.

Lemma reducer_returns_witness :
  exists s', reducer (rt := zoneUTC) env0 stateKA (TOGGLE_COMPLETE "K" "A" 19732) = Ok s'.
Proof.
  apply (reducer_returns_unless_chore_unknown env0 stateKA (TOGGLE_COMPLETE "K" "A" 19732)).
  intros kidId choreId dateISO [= <- <- <-]. simpl. left. reflexivity.
Defined.

(* ===================================================================== *)
(** * What a toggle changes and what it leaves alone *)
(* ===================================================================== *)

Lemma toggle_complete_inv {rt : Runtime} env state kidId choreId dateISO s' :
  toggle_complete env state kidId choreId dateISO = Ok s' ->
  exists completed f kids1,
    RecordChange env state kidId choreId dateISO (State.completions s')
      (wasChecked state kidId choreId dateISO) completed
    /\ BonusChange env state kidId dateISO (State.completions s') f
         (State.streakBonuses s')
    /\ toggle_points state kidId choreId dateISO completed = Ok kids1
    /\ s' = toggled state (map_points kidId f kids1)
              (toggle_streaks state kidId choreId dateISO completed)
              (State.completions s') (State.streakBonuses s').
Proof.
  destruct (toggle_complete_phases env state kidId choreId dateISO)
    as (cs & completed & f & bs & Hrec & Hbonus & ->).
  destruct (toggle_points state kidId choreId dateISO completed) as [kids1| |] eqn:Hp;
    simpl; try discriminate.
  intros [= <-]. exists completed, f, kids1. simpl. auto.
Qed.

Lemma isCompleted_done_triple state choreId dateISO kidId :
  isCompleted state choreId dateISO kidId
  = existsb (done_triple kidId choreId dateISO) (State.completions state).
Proof.
  unfold isCompleted.
  induction (State.completions state) as [|c cs IH]; simpl; [reflexivity|].
  rewrite IH. f_equal. unfold done_triple, same_triple.
  destruct (String.eqb (Completion.choreId c) choreId),
    (Z.eqb (Completion.date c) dateISO), (String.eqb (Completion.kidId c) kidId);
    reflexivity.
Qed.

Lemma existsb_false_intro {A} (p : A -> bool) (l : list A) :
  (forall x, In x l -> p x = false) -> existsb p l = false.
Proof.
  intros H. apply not_true_is_false. intros Hex.
  apply existsb_exists in Hex as (x & Hx & Hp). rewrite (H x Hx) in Hp. discriminate.
Qed.

Lemma existsb_delete {A} (p : A -> bool) (l : list A) (i : nat) (e : A) :
  l !! i = Some e -> p e = false -> existsb p (delete i l) = existsb p l.
Proof.
  revert i. induction l as [|y l IH]; intros [|i]; simpl; try discriminate.
  - intros [= ->] ->. reflexivity.
  - intros Hl He. now rewrite (IH i Hl He).
Qed.

Lemma existsb_insert {A} (p : A -> bool) (l : list A) (i : nat) (e x : A) :
  l !! i = Some e -> p x = p e -> existsb p (<[i := x]> l) = existsb p l.
Proof.
  revert i. induction l as [|y l IH]; intros [|i]; simpl; try discriminate.
  - intros [= ->] ->. reflexivity.
  - intros Hl He. now rewrite (IH i Hl He).
Qed.

Lemma lookup_In {A} (l : list A) (i : nat) (x : A) : l !! i = Some x -> In x l.
Proof.
  revert i. induction l as [|y l IH]; intros [|i]; simpl; try discriminate.
  - intros [= ->]. now left.
  - intros H. right. eauto.
Qed.

(** With unique keys, the record at a position is the only one of its key. *)
Lemma unique_key_elsewhere {A B} (f : A -> B) (l : list A) (i : nat) (e : A) :
  List.NoDup (map f l) -> l !! i = Some e ->
  forall j x, l !! j = Some x -> f x = f e -> j = i.
Proof.
  revert i. induction l as [|y l IH]; intros i Hnd Hi j x Hj Hf; [discriminate|].
  inversion Hnd as [|? ? Hnotin Hnd']; subst.
  destruct i as [|i], j as [|j]; simpl in *.
  - reflexivity.
  - injection Hi as ->. exfalso. apply Hnotin. rewrite <- Hf.
    apply in_map. eapply lookup_In; eauto.
  - injection Hj as ->. exfalso. apply Hnotin. rewrite Hf.
    apply in_map. eapply lookup_In; eauto.
  - f_equal. eapply IH; eauto.
Qed.

Lemma In_lookup {A} (l : list A) (x : A) : In x l -> exists j, l !! j = Some x.
Proof.
  induction l as [|y l IH]; simpl; [intros []|]. intros [->|H].
  - now exists 0%nat.
  - destruct (IH H) as (j & Hj). now exists (S j).
Qed.

Lemma In_delete_lookup {A} (l : list A) (i : nat) (x : A) :
  In x (delete i l) -> exists j, j <> i /\ l !! j = Some x.
Proof.
  revert i. induction l as [|y l IH]; intros [|i]; simpl; try tauto.
  - intros H. destruct (In_lookup l x H) as (j & Hj). exists (S j). auto.
  - intros [->|H]; [now exists 0%nat|].
    destruct (IH i H) as (j & Hne & Hj). exists (S j). split; [lia|exact Hj].
Qed.

(** X11: on a state with at most one completion per triple, a
    TOGGLE_COMPLETE that returns flips whether the triple counts as
    completed, and leaves the status of every other (kid, chore, date)
    triple as it was. *)
Theorem toggle_flips_completion_status {rt : Runtime} :
  forall (env : Env.t) (state s' : State.t) (kidId choreId : string) (dateISO : Z),
    uniqueCompletions (State.completions state) ->
    reducer env state (TOGGLE_COMPLETE kidId choreId dateISO) = Ok s' ->
    isCompleted s' choreId dateISO kidId = negb (isCompleted state choreId dateISO kidId)
    /\ forall kidId' choreId' dateISO',
         (kidId', choreId', dateISO') <> (kidId, choreId, dateISO) ->
         isCompleted s' choreId' dateISO' kidId'
         = isCompleted state choreId' dateISO' kidId'.
Proof.
  intros env state s' kidId choreId dateISO Hu Hred. cbn [reducer] in Hred.
  destruct (toggle_complete_inv _ _ _ _ _ _ Hred) as (completed & f & kids1 & Hrec & _).
  setoid_rewrite isCompleted_done_triple.
  assert (Hother : forall kidId' choreId' dateISO' r,
             (kidId', choreId', dateISO') <> (kidId, choreId, dateISO) ->
             same_triple kidId choreId dateISO r = true ->
             done_triple kidId' choreId' dateISO' r = false).
  { intros k' c' d' r Hne Hr. unfold done_triple.
    destruct (same_triple k' c' d' r) eqn:E; [|reflexivity].
    apply same_triple_key in Hr, E. congruence. }
  inversion Hrec as [Hidx Hcs|i e Hidx He Hp Hc Hcs|i e Hidx He Hp Hc Hcs].
  - split.
    + rewrite existsb_app. cbn [existsb]. unfold done_triple at 2, same_triple.
      cbn [Completion.kidId Completion.choreId Completion.date Completion.completed].
      rewrite !String.eqb_refl, Z.eqb_refl. cbn [andb orb].
      rewrite orb_true_r. rewrite existsb_false_intro; [reflexivity|].
      intros x Hx. unfold done_triple. now rewrite (findIndex_None _ _ Hidx x Hx).
    + intros k' c' d' Hne.
      rewrite existsb_app. cbn [existsb]. rewrite (Hother k' c' d'); auto.
      * now rewrite !orb_false_r.
      * unfold same_triple. cbn. now rewrite !String.eqb_refl, Z.eqb_refl.
  - split.
    + replace (existsb (done_triple kidId choreId dateISO) (State.completions state))
        with true.
      * apply existsb_false_intro. intros x Hx.
        destruct (In_delete_lookup _ _ _ Hx) as (j & Hne & Hj).
        unfold done_triple. destruct (same_triple kidId choreId dateISO x) eqn:E;
          [|reflexivity].
        exfalso. apply Hne.
        apply (unique_key_elsewhere completionKey _ i e Hu He j x Hj).
        apply same_triple_key in E, Hp. congruence.
      * symmetry. apply existsb_exists. exists e. split; [eapply lookup_In; eauto|].
        unfold done_triple. now rewrite Hp, Hc.
    + intros k' c' d' Hne.
      apply (existsb_delete _ _ i e He). now apply Hother.
  - split.
    + replace (existsb (done_triple kidId choreId dateISO) (State.completions state))
        with false.
      * apply existsb_exists. exists (Completion.with_completed e true). split.
        -- eapply lookup_In. apply list_lookup_insert_eq. eapply lookup_lt_Some; eauto.
        -- unfold done_triple. unfold same_triple in *. simpl. now rewrite Hp.
      * symmetry. apply existsb_false_intro. intros x Hx.
        destruct (In_lookup _ _ Hx) as (j & Hj). unfold done_triple.
        destruct (same_triple kidId choreId dateISO x) eqn:E; [|reflexivity].
        assert (j = i).
        { apply (unique_key_elsewhere completionKey _ i e Hu He j x Hj).
          apply same_triple_key in E, Hp. congruence. }
        subst j. rewrite He in Hj. injection Hj as <-. now rewrite Hc.
    + intros k' c' d' Hne.
      apply (existsb_insert _ _ i e _ He).
      rewrite (Hother k' c' d' e Hne Hp). apply Hother; [exact Hne|].
      unfold same_triple in *. simpl. exact Hp.
Qed.

Lemma toggle_flips_witness :
  isCompleted stateKATicked "A" 19732 "K" = negb (isCompleted stateKA "A" 19732 "K")
  /\ forall kidId' choreId' dateISO',
       (kidId', choreId', dateISO') <> ("K", "A", 19732) ->
       isCompleted stateKATicked choreId' dateISO' kidId'
       = isCompleted stateKA choreId' dateISO' kidId'.
Proof.
  apply (toggle_flips_completion_status (rt := zoneUTC) env0 stateKA stateKATicked "K" "A" 19732).
  - constructor.
  - vm_compute. reflexivity.
Defined.

Lemma map_points_lookup_other (kidId : string) (f : Z -> Z) (kids : list Kid.t)
      (i : nat) (kid : Kid.t) :
  kids !! i = Some kid -> Kid.id kid <> kidId ->
  map_points kidId f kids !! i = Some kid.
Proof.
  unfold map_points. revert i.
  induction kids as [|x kids IH]; intros [|i]; simpl; try discriminate; auto.
  intros [= ->] Hne. apply String.eqb_neq in Hne. now rewrite Hne.
Qed.

Lemma toggle_streaks_lookup_other {rt : Runtime} state kidId choreId dateISO completed i ch :
  State.chores state !! i = Some ch -> Chore.id ch <> choreId ->
  toggle_streaks state kidId choreId dateISO completed !! i = Some ch.
Proof.
  unfold toggle_streaks. generalize (State.chores state). intros chores. revert i.
  induction chores as [|x chores IH]; intros [|i]; simpl; try discriminate; auto.
  intros [= ->] Hne. unfold streakUpdate. apply String.eqb_neq in Hne. now rewrite Hne.
Qed.

Lemma toggle_streaks_core {rt : Runtime} state kidId choreId dateISO completed :
  map choreCore (toggle_streaks state kidId choreId dateISO completed)
  = map choreCore (State.chores state).
Proof.
  unfold toggle_streaks. rewrite map_map. apply map_ext. intros ch.
  unfold streakUpdate. now destruct (negb (String.eqb (Chore.id ch) choreId)).
Qed.

Lemma toggle_points_shape state kidId choreId dateISO completed kids1 :
  completed = negb (wasChecked state kidId choreId dateISO) ->
  toggle_points state kidId choreId dateISO completed = Ok kids1 ->
  exists g, kids1 = map_points kidId g (State.kids state).
Proof.
  intros Hc.
  destruct (toggle_points_cases state kidId choreId dateISO completed Hc)
    as [[_ ->]|[(ch & _ & ->)|(_ & _ & ->)]]; intros H; try discriminate.
  - injection H as <-. exists (fun p => p). now rewrite map_points_keep.
  - injection H as <-. eauto.
Qed.

(** X12: a TOGGLE_COMPLETE that returns keeps the kids in place with their
    ids and changes no kid whose id is not the toggled one; it keeps every
    chore's id, title, points, schedule, assignment and order and changes no
    chore whose id is not the toggled one; and it leaves rewards, payouts,
    adjustments, settings and version as they were. *)
Theorem toggle_leaves_the_rest_alone {rt : Runtime} :
  forall (env : Env.t) (state s' : State.t) (kidId choreId : string) (dateISO : Z),
    reducer env state (TOGGLE_COMPLETE kidId choreId dateISO) = Ok s' ->
    map Kid.id (State.kids s') = map Kid.id (State.kids state)
    /\ (forall i kid, State.kids state !! i = Some kid -> Kid.id kid <> kidId ->
                      State.kids s' !! i = Some kid)
    /\ map choreCore (State.chores s') = map choreCore (State.chores state)
    /\ (forall i ch, State.chores state !! i = Some ch -> Chore.id ch <> choreId ->
                     State.chores s' !! i = Some ch)
    /\ State.rewards s' = State.rewards state
    /\ State.payouts s' = State.payouts state
    /\ State.adjustments s' = State.adjustments state
    /\ State.settings s' = State.settings state
    /\ State.version s' = State.version state.
Proof.
  intros env state s' kidId choreId dateISO Hred. cbn [reducer] in Hred.
  destruct (toggle_complete_inv _ _ _ _ _ _ Hred)
    as (completed & f & kids1 & Hrec & _ & Hpts & ->).
  destruct (toggle_points_shape _ _ _ _ _ _ (RecordChange_completed _ _ _ _ _ _ _ Hrec) Hpts)
    as (g & ->).
  cbn [toggled State.kids State.chores State.rewards State.payouts State.adjustments
       State.settings State.version].
  rewrite map_points_compose.
  split; [apply map_points_ids|].
  split; [intros i kid Hi Hne; now apply map_points_lookup_other|].
  split; [apply toggle_streaks_core|].
  split; [intros i ch Hi Hne; now apply toggle_streaks_lookup_other|].
  repeat split.
Qed.

Lemma toggle_leaves_the_rest_alone_witness :
  map Kid.id (State.kids stateKATicked) = map Kid.id (State.kids stateKA)
  /\ (forall i kid, State.kids stateKA !! i = Some kid -> Kid.id kid <> "K" ->
                    State.kids stateKATicked !! i = Some kid)
  /\ map choreCore (State.chores stateKATicked) = map choreCore (State.chores stateKA)
  /\ (forall i ch, State.chores stateKA !! i = Some ch -> Chore.id ch <> "A" ->
                   State.chores stateKATicked !! i = Some ch)
  /\ State.rewards stateKATicked = State.rewards stateKA
  /\ State.payouts stateKATicked = State.payouts stateKA
  /\ State.adjustments stateKATicked = State.adjustments stateKA
  /\ State.settings stateKATicked = State.settings stateKA
  /\ State.version stateKATicked = State.version stateKA.
Proof.
  apply (toggle_leaves_the_rest_alone (rt := zoneUTC) env0 stateKA stateKATicked "K" "A" 19732).
  vm_compute. reflexivity.
Defined.

(* ===================================================================== *)
(** * Invariants of the records the reducer writes *)
(* ===================================================================== *)

Lemma dispatchAll_invariant {rt : Runtime} (Inv : State.t -> Prop) (allowed : Action -> Prop) :
  (forall env s a s', Inv s -> allowed a -> reducer env s a = Ok s' -> Inv s') ->
  forall steps s0 s,
    Inv s0 -> Forall (fun step => allowed (snd step)) steps ->
    dispatchAll s0 steps = Ok s -> Inv s.
Proof.
  intros Hstep. induction steps as [|[env a] steps IH]; simpl; intros s0 s H0 Hall Hrun.
  - now injection Hrun as <-.
  - inversion Hall as [|? ? Ha Hrest]; subst. simpl in Ha.
    destruct (reducer env s0 a) as [s1| |] eqn:Hred; simpl in Hrun; try discriminate.
    apply (IH s1 s); [|exact Hrest|exact Hrun].
    exact (Hstep env s0 a s1 H0 Ha Hred).
Qed.

Lemma Forall_delete {A} (P : A -> Prop) (l : list A) (i : nat) :
  Forall P l -> Forall P (delete i l).
Proof.
  rewrite !List.Forall_forall. intros H x Hx. apply H. eapply In_delete; eauto.
Qed.

Lemma Forall_list_insert {A} (P : A -> Prop) (l : list A) (i : nat) (x : A) :
  Forall P l -> P x -> Forall P (<[i := x]> l).
Proof.
  intros H Hx. revert i. induction H as [|y l Hy Hl IH]; intros [|i]; simpl;
    constructor; auto.
Qed.

Lemma Forall_filter {A} (P : A -> Prop) (p : A -> bool) (l : list A) :
  Forall P l -> Forall P (List.filter p l).
Proof.
  rewrite !List.Forall_forall. intros H x Hx. apply H.
  now apply filter_In in Hx as [Hx _].
Qed.

Lemma reducer_keeps_milestones {rt : Runtime} env s a s' :
  Forall milestoneBonus (State.streakBonuses s) -> notReplaceAll a ->
  reducer env s a = Ok s' -> Forall milestoneBonus (State.streakBonuses s').
Proof.
  intros Hinv Ha. destruct a; simpl in *; try contradiction;
    try (intros [= <-]; simpl; assumption).
  - intros Hred. destruct (toggle_complete_inv _ _ _ _ _ _ Hred)
      as (completed & f & kids1 & _ & Hbonus & _).
    inversion Hbonus as [Hb|run Hfull Hrun Hpos Hrem Hfind Hb|b Hfull Hfind Hb].
    + exact Hinv.
    + constructor; [|exact Hinv]. unfold milestoneBonus. simpl. auto.
    + now apply Forall_filter.
  - intros [= <-]. constructor.
Qed.

(** X13: after any sequence of actions without REPLACE_ALL applied to the
    default state, every streak bonus on record is worth 5 points and was
    awarded for a run whose length is a positive multiple of ten. *)
Theorem bonuses_are_milestones {rt : Runtime} :
  forall (steps : list (Env.t * Action)) (s : State.t),
    Forall (fun step => notReplaceAll (snd step)) steps ->
    dispatchAll emptyState steps = Ok s ->
    Forall milestoneBonus (State.streakBonuses s).
Proof.
  intros steps s Hall Hrun.
  apply (dispatchAll_invariant (fun s => Forall milestoneBonus (State.streakBonuses s))
                               notReplaceAll reducer_keeps_milestones
                               steps emptyState s); auto.
Qed.

Lemma bonuses_are_milestones_witness :
  Forall milestoneBonus (State.streakBonuses tenDayEnd)
  /\ length (State.streakBonuses tenDayEnd) = 1%nat.
Proof.
  split; [|reflexivity].
  apply (bonuses_are_milestones (rt := zoneUTC) tenDaySteps tenDayEnd).
  - repeat constructor.
  - vm_compute. reflexivity.
Defined.

Lemma reducer_keeps_ticked {rt : Runtime} env s a s' :
  Forall (fun c => Completion.completed c = true) (State.completions s) ->
  notReplaceAll a ->
  reducer env s a = Ok s' ->
  Forall (fun c => Completion.completed c = true) (State.completions s').
Proof.
  intros Hinv Ha. destruct a; simpl in *; try contradiction;
    try (intros [= <-]; simpl; assumption).
  - intros [= <-]. simpl. now apply Forall_filter.
  - intros Hred. destruct (toggle_complete_inv _ _ _ _ _ _ Hred)
      as (completed & f & kids1 & Hrec & _).
    inversion Hrec as [Hidx Hcs|i e Hidx He Hp Hc Hcs|i e Hidx He Hp Hc Hcs].
    + apply Forall_app. split; [exact Hinv|]. repeat constructor.
    + now apply Forall_delete.
    + apply Forall_list_insert; [exact Hinv|reflexivity].
  - intros [= <-]. constructor.
Qed.

(** X14: after any sequence of actions without REPLACE_ALL applied to the
    default state, every completion record on file is a completed one
    (unticking removes the record rather than marking it), so a triple
    counts as completed exactly when a record of it exists. *)
Theorem completions_are_never_tombstones {rt : Runtime} :
  forall (steps : list (Env.t * Action)) (s : State.t),
    Forall (fun step => notReplaceAll (snd step)) steps ->
    dispatchAll emptyState steps = Ok s ->
    Forall (fun c => Completion.completed c = true) (State.completions s)
    /\ forall kidId choreId dateISO,
         isCompleted s choreId dateISO kidId
         = existsb (same_triple kidId choreId dateISO) (State.completions s).
Proof.
  intros steps s Hall Hrun.
  assert (Hinv : Forall (fun c => Completion.completed c = true) (State.completions s)).
  { apply (dispatchAll_invariant
             (fun s => Forall (fun c => Completion.completed c = true)
                              (State.completions s))
             notReplaceAll reducer_keeps_ticked steps emptyState s); auto. }
  split; [exact Hinv|]. intros kidId choreId dateISO.
  rewrite isCompleted_done_triple.
  induction Hinv as [|c cs Hc Hcs IH]; simpl; [reflexivity|].
  rewrite IH. unfold done_triple. now rewrite Hc, andb_true_r.
Qed.

Lemma completions_are_never_tombstones_witness :
  Forall (fun c => Completion.completed c = true) (State.completions sessionEnd)
  /\ forall kidId choreId dateISO,
       isCompleted sessionEnd choreId dateISO kidId
       = existsb (same_triple kidId choreId dateISO) (State.completions sessionEnd).
Proof.
  apply (completions_are_never_tombstones (rt := zoneUTC) sessionSteps sessionEnd).
  - repeat constructor.
  - vm_compute. reflexivity.
Defined.

(** X15: ticking a triple that has no record yet, for a chore of the state
    and with no bonus yet on record for (kid, date), adds to every kid of
    that id the points of the first chore with that id, plus 5 exactly when
    a streak bonus record for that kid and date is created; without a bonus
    the bonus log is unchanged. *)
Theorem tick_adds_chore_points {rt : Runtime} :
  forall (env : Env.t) (state : State.t) (kidId choreId : string) (dateISO : Z),
    In choreId (map Chore.id (State.chores state)) ->
    (forall r, In r (State.completions state) ->
               completionKey r <> (kidId, choreId, dateISO)) ->
    (forall b, In b (State.streakBonuses state) -> bonusKey b <> (kidId, dateISO)) ->
    exists s' ch bonus,
      reducer env state (TOGGLE_COMPLETE kidId choreId dateISO) = Ok s'
      /\ List.find (fun x => String.eqb (Chore.id x) choreId) (State.chores state)
         = Some ch
      /\ State.kids s'
         = map_points kidId (fun p => p + Chore.points ch + bonus) (State.kids state)
      /\ ((bonus = 0 /\ State.streakBonuses s' = State.streakBonuses state)
          \/ (bonus = 5
              /\ exists run,
                   State.streakBonuses s'
                   = StreakBonus.mk (Env.nanoid_2 env) kidId dateISO run 5
                       :: State.streakBonuses state)).
Proof.
  intros env state kidId choreId dateISO Hchore Hunticked Hnobonus.
  destruct (first_toggle env state kidId choreId dateISO Hchore Hunticked Hnobonus)
    as (ch & f & bs & Hfind & Hfirst & Hcases).
  destruct Hcases as [[-> ->]|(run & -> & ->)].
  - eexists _, ch, 0. cbn [reducer]. split; [exact Hfirst|]. split; [exact Hfind|].
    cbn [toggled State.kids State.streakBonuses]. split; [|now left].
    unfold map_points. apply map_ext. intros k.
    destruct (String.eqb (Kid.id k) kidId); [|reflexivity]. f_equal. lia.
  - eexists _, ch, 5. cbn [reducer]. split; [exact Hfirst|]. split; [exact Hfind|].
    cbn [toggled State.kids State.streakBonuses]. split; [reflexivity|].
    right. split; [reflexivity|]. now exists run.
Qed.

Lemma tick_adds_chore_points_witness :
  exists s' ch bonus,
    reducer (rt := zoneUTC) env0 stateNine (TOGGLE_COMPLETE "K" "A" 19741) = Ok s'
    /\ List.find (fun x => String.eqb (Chore.id x) "A") (State.chores stateNine) = Some ch
    /\ State.kids s'
       = map_points "K" (fun p => p + Chore.points ch + bonus) (State.kids stateNine)
    /\ ((bonus = 0 /\ State.streakBonuses s' = State.streakBonuses stateNine)
        \/ (bonus = 5
            /\ exists run,
                 State.streakBonuses s'
                 = StreakBonus.mk (Env.nanoid_2 env0) "K" 19741 run 5
                     :: State.streakBonuses stateNine)).
Proof.
  apply (tick_adds_chore_points env0 stateNine "K" "A" 19741).
  - simpl. left. reflexivity.
  - intros r Hr Hkey. simpl in Hr. unfold completionKey in Hkey.
    repeat (destruct Hr as [<-|Hr]; [simpl in Hkey; injection Hkey as Hd;
                                     vm_compute in Hd; discriminate Hd|]).
    exact Hr.
  - intros b [].
Defined.

(* ===================================================================== *)
(** * Reordering with a complete list, and reordering twice *)
(* ===================================================================== *)

Lemma sort_by_order_fixes_sorted (l : list Chore.t) :
  StronglySorted orderLe l -> sort_by_order l = l.
Proof.
  unfold sort_by_order. induction 1 as [|x l Hs IH Hall]; simpl; [reflexivity|].
  rewrite IH. destruct l as [|y l]; [reflexivity|]. simpl.
  inversion Hall as [|? ? Hxy _]; subst. unfold orderLe in Hxy.
  replace (order_key x - order_key y <=? 0) with true
    by (symmetry; apply Z.leb_le; lia).
  reflexivity.
Qed.

Lemma newOrder_with_order (orderedIds : list string) (c : Chore.t) :
  Chore.with_order (Chore.with_order c (newOrder orderedIds c))
                   (newOrder orderedIds (Chore.with_order c (newOrder orderedIds c)))
  = Chore.with_order c (newOrder orderedIds c).
Proof.
  unfold newOrder, Chore.with_order. simpl.
  destruct (lastIndexOf (Chore.id c) orderedIds); reflexivity.
Qed.

(** X17: REORDER_CHORES is idempotent: dispatching the same list a second
    time returns the state the first dispatch returned. *)
Theorem reorder_chores_idempotent {rt : Runtime} :
  forall (env env' : Env.t) (state : State.t) (orderedIds : list string),
    exists s1,
      reducer env state (REORDER_CHORES orderedIds) = Ok s1
      /\ reducer env' s1 (REORDER_CHORES orderedIds) = Ok s1.
Proof.
  intros env env' state orderedIds. eexists. split; [reflexivity|].
  cbn [reducer State.kids State.chores State.rewards State.completions State.payouts
       State.adjustments State.streakBonuses State.settings State.version].
  rewrite !reorder_map_newOrder. do 2 f_equal.
  set (g := fun c => Chore.with_order c (newOrder orderedIds c)).
  assert (Hfix : map g (sort_by_order (map g (State.chores state)))
                 = sort_by_order (map g (State.chores state))).
  { rewrite <- (map_id (sort_by_order (map g (State.chores state)))) at 2.
    apply map_ext_in. intros x Hx.
    apply (Permutation_in _ (sort_by_order_perm _)) in Hx.
    apply in_map_iff in Hx as (c & <- & _). apply newOrder_with_order. }
  rewrite Hfix. apply sort_by_order_fixes_sorted, sort_by_order_sorted.
Qed.

(** Two lists sorted by a key that are permutations of each other are
    equal when no key occurs twice. *)
Lemma sorted_perm_eq {A} (key : A -> Z) (l1 : list A) : forall l2,
  StronglySorted (fun x y => key x <= key y) l1 ->
  StronglySorted (fun x y => key x <= key y) l2 ->
  Permutation l1 l2 -> List.NoDup (map key l1) -> l1 = l2.
Proof.
  induction l1 as [|x l1 IH]; intros l2 S1 S2 P ND.
  - now apply Permutation_nil in P.
  - destruct l2 as [|y l2]; [now apply Permutation_sym, Permutation_nil in P|].
    inversion S1 as [|? ? S1' H1]; subst. inversion S2 as [|? ? S2' H2]; subst.
    inversion ND as [|? ? Hnotin ND']; subst.
    rewrite List.Forall_forall in H1, H2.
    assert (Hy : In y (x :: l1))
      by (apply (Permutation_in _ (Permutation_sym P)); now left).
    assert (Hx : In x (y :: l2)) by (apply (Permutation_in _ P); now left).
    assert (x = y).
    { destruct Hy as [Hy|Hy]; [exact Hy|].
      destruct Hx as [Hx|Hx]; [now symmetry|].
      exfalso. apply Hnotin.
      replace (key x) with (key y) by (pose proof (H1 y Hy); pose proof (H2 x Hx); lia).
      now apply in_map. }
    subst y. f_equal. apply IH; auto. eapply Permutation_cons_inv; eauto.
Qed.

Lemma StronglySorted_map {A} (key : A -> Z) (l : list A) :
  StronglySorted (fun x y => key x <= key y) l -> StronglySorted Z.le (map key l).
Proof.
  induction 1 as [|x l Hs IH Hall]; simpl; constructor; [exact IH|].
  rewrite List.Forall_forall in *. intros k Hk.
  apply in_map_iff in Hk as (y & <- & Hy). now apply Hall.
Qed.

Lemma positions_sorted (n : nat) : forall a,
  StronglySorted Z.le (map (fun j => Z.of_nat j + 1) (seq a n))
  /\ List.NoDup (map (fun j => Z.of_nat j + 1) (seq a n)).
Proof.
  induction n as [|n IH]; intros a; simpl; [split; constructor|].
  destruct (IH (S a)) as [Hs Hnd]. split.
  - constructor; [exact Hs|]. rewrite List.Forall_forall. intros k Hk.
    apply in_map_iff in Hk as (j & <- & Hj). apply in_seq in Hj. lia.
  - constructor; [|exact Hnd]. intros Hk.
    apply in_map_iff in Hk as (j & Heq & Hj). apply in_seq in Hj. lia.
Qed.

Lemma lastIndexOf_lookup (xs : list string) : forall (x : string) (j : nat),
  lastIndexOf x xs = Some j -> xs !! j = Some x.
Proof.
  induction xs as [|y xs IH]; intros x j; simpl; [discriminate|].
  destruct (lastIndexOf x xs) as [i|] eqn:E.
  - intros [= <-]. simpl. now apply IH.
  - destruct (String.eqb y x) eqn:Eq; [|discriminate].
    intros [= <-]. apply String.eqb_eq in Eq. now subst.
Qed.

Lemma positions_of_ids (ids : list string) :
  List.NoDup ids ->
  forall j x, ids !! j = Some x ->
    match lastIndexOf x ids with
    | Some p => Z.of_nat p + 1
    | None => 0
    end = Z.of_nat j + 1.
Proof.
  intros Hnd j x Hj. now rewrite (lastIndexOf_NoDup ids j x Hnd Hj).
Qed.

Lemma map_positions (ids : list string) (f : string -> Z) : forall a,
  (forall j x, ids !! j = Some x -> f x = Z.of_nat (a + j) + 1) ->
  map f ids = map (fun j => Z.of_nat j + 1) (seq a (length ids)).
Proof.
  induction ids as [|x ids IH]; intros a H; simpl; [reflexivity|].
  f_equal.
  - rewrite (H 0%nat x eq_refl). f_equal. f_equal. lia.
  - apply IH. intros j y Hj. rewrite (H (S j) y Hj). f_equal. f_equal. lia.
Qed.

Lemma lastIndexOf_present (xs : list string) (x : string) :
  In x xs -> exists p, lastIndexOf x xs = Some p.
Proof.
  induction xs as [|y xs IH]; simpl; [intros []|]. intros Hin.
  destruct (lastIndexOf x xs) as [j|] eqn:E; [eauto|].
  destruct Hin as [->|Hin].
  - rewrite String.eqb_refl. eauto.
  - destruct (IH Hin) as (p & Hp). discriminate.
Qed.

Lemma lookup_map {A B} (f : A -> B) (l : list A) (j : nat) :
  map f l !! j = option_map f (l !! j).
Proof.
  revert j. induction l as [|x l IH]; intros [|j]; simpl; auto.
Qed.

(** X16: when no id is repeated in the list and the list holds exactly the
    ids of the chores of the state, REORDER_CHORES returns the chores in the
    sequence of the list, with the orders 1, 2, ..., N. *)
Theorem reorder_chores_with_complete_list {rt : Runtime} :
  forall (env : Env.t) (state : State.t) (orderedIds : list string),
    List.NoDup orderedIds ->
    Permutation orderedIds (map Chore.id (State.chores state)) ->
    exists s',
      reducer env state (REORDER_CHORES orderedIds) = Ok s'
      /\ map Chore.id (State.chores s') = orderedIds
      /\ map Chore.order (State.chores s')
         = map (fun j => Some (Z.of_nat j + 1)) (seq 0 (length orderedIds))
      /\ State.kids s' = State.kids state
      /\ State.completions s' = State.completions state.
Proof.
  intros env state ids Hnd Hperm. eexists. split; [reflexivity|].
  cbn [State.chores State.kids State.completions].
  rewrite reorder_map_newOrder.
  set (g := fun c => Chore.with_order c (newOrder ids c)).
  set (L := sort_by_order (map g (State.chores state))).
  set (keyOf := fun x => match lastIndexOf x ids with
                         | Some p => Z.of_nat p + 1
                         | None => 0
                         end).
  assert (HinL : forall c, In c L ->
             In (Chore.id c) ids /\ order_key c = keyOf (Chore.id c)
             /\ Chore.order c = Some (order_key c)).
  { intros c Hc. apply (Permutation_in _ (sort_by_order_perm _)) in Hc.
    apply in_map_iff in Hc as (c0 & <- & Hc0).
    assert (Hid : In (Chore.id c0) ids)
      by (apply (Permutation_in _ (Permutation_sym Hperm)); now apply in_map).
    split; [exact Hid|]. destruct (lastIndexOf_present ids _ Hid) as (p & Hp).
    unfold g, keyOf, order_key, newOrder, Chore.with_order. simpl. rewrite Hp. auto. }
  assert (Hkeys : map order_key L = map (fun j => Z.of_nat j + 1) (seq 0 (length ids))).
  { symmetry.
    apply (sorted_perm_eq (fun z => z)).
    - apply (positions_sorted (length ids) 0).
    - apply (StronglySorted_map order_key). apply sort_by_order_sorted.
    - rewrite <- (map_positions ids keyOf 0)
        by (intros j x Hj; apply positions_of_ids; assumption).
      transitivity (map keyOf (map Chore.id (State.chores state)));
        [now apply Permutation_map|].
      transitivity (map order_key (map g (State.chores state))).
      + rewrite !map_map. apply Permutation_refl'. apply map_ext_in. intros c0 Hc0.
        assert (Hid : In (Chore.id c0) ids)
          by (apply (Permutation_in _ (Permutation_sym Hperm)); now apply in_map).
        destruct (lastIndexOf_present ids _ Hid) as (p & Hp).
        unfold g, keyOf, order_key, newOrder, Chore.with_order. simpl. now rewrite Hp.
      + apply Permutation_map, Permutation_sym, sort_by_order_perm.
    - rewrite map_id. apply (positions_sorted (length ids) 0). }
  assert (Hlen : length L = length ids).
  { unfold L. rewrite (Permutation_length (sort_by_order_perm _)), length_map.
    rewrite (Permutation_length Hperm). now rewrite length_map. }
  split; [|split; [|split; reflexivity]].
  - apply list_eq. intros j. rewrite lookup_map.
    destruct (L !! j) as [c|] eqn:Hj; simpl.
    + destruct (HinL c (lookup_In _ _ _ Hj)) as (Hid & Hkey & _).
      assert (Hpos : order_key c = Z.of_nat j + 1).
      { assert (Hk : map order_key L !! j = Some (order_key c))
          by (rewrite lookup_map, Hj; reflexivity).
        rewrite Hkeys, lookup_map in Hk.
        assert (Hlt : (j < length ids)%nat)
          by (rewrite <- Hlen; eapply lookup_lt_Some; eauto).
        rewrite (lookup_seq_lt 0 (length ids) j Hlt) in Hk. simpl in Hk.
        now injection Hk as <-. }
      destruct (lastIndexOf_present ids _ Hid) as (p & Hp).
      unfold keyOf in Hkey. rewrite Hp in Hkey.
      assert (p = j) by lia. subst p. symmetry. now apply lastIndexOf_lookup.
    + symmetry. apply lookup_ge_None. rewrite <- Hlen. now apply lookup_ge_None.
  - rewrite <- (map_map (fun j => Z.of_nat j + 1) Some), <- Hkeys, map_map.
    apply map_ext_in. intros c Hc. now destruct (HinL c Hc) as (_ & _ & ->).
Qed.

Lemma reorder_chores_with_complete_list_witness :
  exists s',
    reducer (rt := zoneUTC) env0 stateABC (REORDER_CHORES ["B"; "C"; "A"]) = Ok s'
    /\ map Chore.id (State.chores s') = ["B"; "C"; "A"]
    /\ map Chore.order (State.chores s') = [Some 1; Some 2; Some 3]
    /\ State.kids s' = State.kids stateABC
    /\ State.completions s' = State.completions stateABC.
Proof.
  apply (reorder_chores_with_complete_list env0 stateABC ["B"; "C"; "A"]).
  - repeat constructor; simpl; intros H;
      repeat (destruct H as [H|H]; [discriminate H|]); exact H.
  - simpl. apply Permutation_sym, (Permutation_cons_app ["B"; "C"] []). reflexivity.
Defined.

(* ===================================================================== *)
(** * src/utils.ts: weeks and months *)
(* ===================================================================== *)

Lemma getDay_range (d : Z) : 0 <= getDay d <= 6.
Proof. unfold getDay. pose proof (Z.mod_pos_bound (d + 4) 7). lia. Qed.

(** X18: [weekRange] returns the Sunday-to-Saturday week that contains the
    date: it starts on a Sunday at or before the date, ends six days later
    on a Saturday at or after it, and every day of that week has the same
    range. *)
Theorem week_range_is_the_sunday_week :
  forall date : Z,
    let startISO := fst (weekRange date) in
    let endISO := snd (weekRange date) in
    startISO <= date <= endISO
    /\ endISO = startISO + 6
    /\ getDay startISO = 0
    /\ getDay endISO = 6
    /\ forall d, startISO <= d <= endISO -> weekRange d = (startISO, endISO).
Proof.
  intros date. unfold weekRange, startOfWeek, endOfWeek, toISO, addDays.
  cbn [fst snd]. pose proof (getDay_range date) as Hr.
  replace (getDay date <? 0) with false by (symmetry; apply Z.ltb_ge; lia).
  assert (Hstart : getDay (date + - (0 + getDay date - 0)) = 0).
  { unfold getDay in *. Z.to_euclidean_division_equations. lia. }
  split; [lia|]. split; [lia|]. split; [exact Hstart|]. split.
  - unfold getDay in *. Z.to_euclidean_division_equations. lia.
  - intros d Hd. pose proof (getDay_range d) as Hrd.
    replace (getDay d <? 0) with false by (symmetry; apply Z.ltb_ge; lia).
    assert (Hday : getDay d = d - (date + - (0 + getDay date - 0))).
    { unfold getDay in *. Z.to_euclidean_division_equations. lia. }
    f_equal; lia.
Qed.

(** X19: for a calendar month (index 0 to 11) of a year after 100 and
    before 275000, so that the month and its neighbours lie inside the range
    of [Date], [nextMonth] undoes [prevMonth] and [prevMonth] undoes
    [nextMonth]; January goes back to December of the year before and
    December on to January of the year after; the month index returned is
    always between 0 and 11. *)
Theorem prev_and_next_month_are_inverse :
  forall year monthIndex0 : Z,
    100 < year < 275000 -> 0 <= monthIndex0 <= 11 ->
    nextMonth (fst (prevMonth year monthIndex0)) (snd (prevMonth year monthIndex0))
    = (year, monthIndex0)
    /\ prevMonth (fst (nextMonth year monthIndex0)) (snd (nextMonth year monthIndex0))
       = (year, monthIndex0)
    /\ prevMonth year 0 = (year - 1, 11)
    /\ nextMonth year 11 = (year + 1, 0)
    /\ 0 <= snd (prevMonth year monthIndex0) <= 11
    /\ 0 <= snd (nextMonth year monthIndex0) <= 11.
Proof.
  intros year m Hy Hm.
  assert (Hfirst : forall y k, 100 <= y -> firstOfMonth y k = (y + k / 12, k mod 12)).
  { intros y k Hy'. unfold firstOfMonth.
    replace ((0 <=? y) && (y <=? 99)) with false; [reflexivity|].
    symmetry. apply andb_false_iff. right. apply Z.leb_gt. lia. }
  assert (Hprev : prevMonth year m = (year + (m - 1) / 12, (m - 1) mod 12)).
  { unfold prevMonth, setMonth, getFullYear, getMonth. rewrite Hfirst by lia.
    cbn [fst snd]. rewrite (Z.mod_small m 12), (Z.div_small m 12) by lia.
    f_equal. lia. }
  assert (Hnext : nextMonth year m = (year + (m + 1) / 12, (m + 1) mod 12)).
  { unfold nextMonth, setMonth, getFullYear, getMonth. rewrite Hfirst by lia.
    cbn [fst snd]. rewrite (Z.mod_small m 12), (Z.div_small m 12) by lia.
    f_equal. lia. }
  rewrite Hprev, Hnext. cbn [fst snd].
  split; [|split; [|split; [|split; [|split]]]].
  - unfold nextMonth, setMonth, getFullYear, getMonth.
    rewrite Hfirst by (Z.to_euclidean_division_equations; lia). cbn [fst snd].
    f_equal; Z.to_euclidean_division_equations; lia.
  - unfold prevMonth, setMonth, getFullYear, getMonth.
    rewrite Hfirst by (Z.to_euclidean_division_equations; lia). cbn [fst snd].
    f_equal; Z.to_euclidean_division_equations; lia.
  - unfold prevMonth, setMonth, getFullYear, getMonth. rewrite Hfirst by lia.
    cbn [fst snd]. reflexivity || (f_equal; Z.to_euclidean_division_equations; lia).
  - unfold nextMonth, setMonth, getFullYear, getMonth. rewrite Hfirst by lia.
    cbn [fst snd]. reflexivity || (f_equal; Z.to_euclidean_division_equations; lia).
  - Z.to_euclidean_division_equations; lia.
  - Z.to_euclidean_division_equations; lia.
Qed.

Lemma prev_and_next_month_witness :
  nextMonth (fst (prevMonth 2025 0)) (snd (prevMonth 2025 0)) = (2025, 0)
  /\ prevMonth (fst (nextMonth 2025 0)) (snd (nextMonth 2025 0)) = (2025, 0)
  /\ prevMonth 2025 0 = (2025 - 1, 11)
  /\ nextMonth 2025 11 = (2025 + 1, 0)
  /\ 0 <= snd (prevMonth 2025 0) <= 11
  /\ 0 <= snd (nextMonth 2025 0) <= 11.
Proof. apply (prev_and_next_month_are_inverse 2025 0); lia. Defined.

(* ===================================================================== *)
(** * src/Reports.tsx: totals and rows *)
(* ===================================================================== *)

Lemma insertWith_perm {A} (cmp : A -> A -> Z) (x : A) (l : list A) :
  Permutation (insertWith cmp x l) (x :: l).
Proof.
  induction l as [|y l IH]; simpl; [reflexivity|].
  destruct (cmp x y <=? 0); [reflexivity|]. rewrite IH. apply perm_swap.
Qed.

Lemma sortWith_perm {A} (cmp : A -> A -> Z) (l : list A) :
  Permutation (sortWith cmp l) l.
Proof.
  unfold sortWith. induction l as [|x l IH]; simpl; [reflexivity|].
  rewrite insertWith_perm. now constructor.
Qed.

Lemma sortWith_sorted {A} (cmp : A -> A -> Z) (key : A -> Z) (l : list A) :
  (forall x y, cmp x y <= 0 <-> key x <= key y) ->
  StronglySorted (fun x y => key x <= key y) (sortWith cmp l).
Proof.
  intros Hcmp. unfold sortWith. induction l as [|x l IH]; simpl; [constructor|].
  revert IH. generalize (foldr (insertWith cmp) [] l). clear l. intros l Hs.
  induction Hs as [|y l Hs IH Hall]; simpl; [repeat constructor|].
  destruct (cmp x y <=? 0) eqn:E.
  - apply Z.leb_le, Hcmp in E. constructor; [now constructor|].
    constructor; [exact E|]. eapply List.Forall_impl; [|exact Hall].
    simpl. intros; lia.
  - apply Z.leb_gt in E. assert (Hyx : key y <= key x).
    { destruct (Z.le_gt_cases (key x) (key y)) as [Hle|Hgt]; [|lia].
      apply Hcmp in Hle. lia. }
    constructor; [exact IH|]. rewrite List.Forall_forall. intros z Hz.
    apply (Permutation_in _ (insertWith_perm cmp x l)) in Hz.
    destruct Hz as [<-|Hz]; [exact Hyx|].
    rewrite List.Forall_forall in Hall. now apply Hall.
Qed.

Lemma sumZ_app (l1 l2 : list Z) : sumZ (l1 ++ l2) = sumZ l1 + sumZ l2.
Proof. induction l1 as [|x l1 IH]; simpl; [reflexivity|]. rewrite IH. lia. Qed.

Lemma sumZ_filter_perm {A} (v : A -> Z) (p : A -> bool) (l l' : list A) :
  Permutation l l' ->
  sumZ (map v (List.filter p l)) = sumZ (map v (List.filter p l')).
Proof.
  induction 1 as [|x l l' HP IH|x y l|l l' l'' HP1 IH1 HP2 IH2]; simpl.
  - reflexivity.
  - destruct (p x); simpl; now rewrite IH.
  - destruct (p x), (p y); simpl; lia.
  - now rewrite IH1.
Qed.

Lemma fold_left_ext_all {A B} (f g : B -> A -> B) (l : list A) (b : B) :
  (forall acc x, f acc x = g acc x) -> fold_left f l b = fold_left g l b.
Proof.
  intros H. revert b. induction l as [|x l IH]; intros b; simpl; [reflexivity|].
  now rewrite H, IH.
Qed.

Lemma fold_left_keep {A B} (keep : A -> bool) (f : B -> A -> B) (l : list A) (b : B) :
  fold_left (fun acc x => if keep x then f acc x else acc) l b
  = fold_left f (List.filter keep l) b.
Proof.
  revert b. induction l as [|x l IH]; intros b; simpl; [reflexivity|].
  destruct (keep x); simpl; apply IH.
Qed.

(** What the accumulation into a dictionary holds for a key: the sum of the
    amounts added under that key. *)
Lemma fold_addTo_lookup {A} (keyOf : A -> string) (val : A -> Z) (l : list A) :
  forall (dict : gmap string Z) (k : string),
    default 0 (fold_left (fun t a => Reports.addTo t (keyOf a) (val a)) l dict !! k)
    = default 0 (dict !! k)
      + sumZ (map val (List.filter (fun a => String.eqb (keyOf a) k) l)).
Proof.
  induction l as [|a l IH]; intros dict k; simpl; [lia|].
  rewrite IH. unfold Reports.addTo.
  destruct (String.eqb (keyOf a) k) eqn:E; simpl.
  - apply String.eqb_eq in E. subst k. rewrite lookup_insert_eq. simpl. lia.
  - apply String.eqb_neq in E. now rewrite lookup_insert_ne.
Qed.

Lemma filter_filter {A} (p q : A -> bool) (l : list A) :
  List.filter p (List.filter q l) = List.filter (fun x => q x && p x) l.
Proof.
  induction l as [|x l IH]; simpl; [reflexivity|].
  destruct (q x); simpl; [destruct (p x); now rewrite IH|exact IH].
Qed.

Section ReportTotals.
Variables (parseISO_date : Z -> Z) (parseISO_time : string -> Z)
          (localeCompare : string -> string -> Z).
Variables (state : State.t) (kidId : string) (startISO endISO : Z).

Local Abbreviation startT := (Reports.start parseISO_date startISO).
Local Abbreviation endT := (Reports.end_ parseISO_date endISO).

Lemma completionPoints_lookup (k : string) :
  default 0 (Reports.completionPoints parseISO_date state kidId startISO endISO !! k)
  = sumZ (map (fun c => default 0 (Reports.choreById (State.chores state)
                                     !! Completion.choreId c))
              (List.filter
                 (fun c => Completion.completed c
                           && Reports.between (parseISO_date (Completion.date c))
                                              startT endT
                           && kidSelected kidId (Completion.kidId c)
                           && String.eqb (Completion.kidId c) k)
                 (State.completions state))).
Proof.
  unfold Reports.completionPoints.
  rewrite (fold_left_ext_all _
             (fun perKid c =>
                if Completion.completed c
                   && Reports.between (parseISO_date (Completion.date c)) startT endT
                   && kidSelected kidId (Completion.kidId c)
                then Reports.addTo perKid (Completion.kidId c)
                       (default 0 (Reports.choreById (State.chores state)
                                     !! Completion.choreId c))
                else perKid)).
  - rewrite fold_left_keep, fold_addTo_lookup, lookup_empty, filter_filter. simpl.
    reflexivity.
  - intros acc c. unfold kidSelected.
    destruct (Completion.completed c); simpl; [|reflexivity].
    destruct (Reports.between _ _ _); simpl; [|reflexivity].
    destruct (String.eqb kidId "all"), (String.eqb (Completion.kidId c) kidId);
      reflexivity.
Qed.

Lemma adjustmentsTotal_lookup (k : string) :
  default 0 (Reports.adjustmentsTotal parseISO_date parseISO_time localeCompare
               state kidId startISO endISO !! k)
  = sumZ (map Adjustment.delta
              (List.filter
                 (fun a => kidSelected kidId (Adjustment.kidId a)
                           && Reports.between (parseISO_time (Adjustment.timestampISO a))
                                              startT endT
                           && String.eqb (Adjustment.kidId a) k)
                 (State.adjustments state))).
Proof.
  unfold Reports.adjustmentsTotal, Reports.adjFiltered.
  rewrite fold_addTo_lookup, lookup_empty.
  rewrite (sumZ_filter_perm _ _ _ _ (sortWith_perm _ _)), filter_filter. reflexivity.
Qed.

Lemma bonusTotal_lookup (k : string) :
  default 0 (Reports.bonusTotal parseISO_date state kidId startISO endISO !! k)
  = sumZ (map StreakBonus.points
              (List.filter
                 (fun b => kidSelected kidId (StreakBonus.kidId b)
                           && Reports.between (parseISO_date (StreakBonus.dateISO b))
                                              startT endT
                           && String.eqb (StreakBonus.kidId b) k)
                 (State.streakBonuses state))).
Proof.
  unfold Reports.bonusTotal, Reports.bonusFiltered.
  rewrite fold_addTo_lookup, lookup_empty.
  rewrite (sumZ_filter_perm _ _ _ _ (sortWith_perm _ _)), filter_filter. reflexivity.
Qed.

End ReportTotals.

(** X21: in the report, the chore points of a kid are the sum, over the
    completed completions of that kid dated inside the window and passing
    the kid filter, of the points of the chore (0 for a chore that no longer
    exists); the adjustment total is the sum of the deltas, and the bonus
    total the sum of the bonus points, of the kid's records inside the
    window; the order in which the logs are sorted plays no part. *)
Theorem report_totals_are_window_sums :
  forall (parseISO_date : Z -> Z) (parseISO_time : string -> Z)
         (localeCompare : string -> string -> Z)
         (state : State.t) (kidId : string) (startISO endISO : Z) (k : string),
    let inWindow t :=
      Reports.between t (parseISO_date startISO) (parseISO_date endISO) in
    default 0 (Reports.completionPoints parseISO_date state kidId startISO endISO !! k)
    = sumZ (map (fun c => default 0 (Reports.choreById (State.chores state)
                                       !! Completion.choreId c))
                (List.filter
                   (fun c => Completion.completed c
                             && inWindow (parseISO_date (Completion.date c))
                             && kidSelected kidId (Completion.kidId c)
                             && String.eqb (Completion.kidId c) k)
                   (State.completions state)))
    /\ default 0 (Reports.adjustmentsTotal parseISO_date parseISO_time localeCompare
                    state kidId startISO endISO !! k)
       = sumZ (map Adjustment.delta
                   (List.filter
                      (fun a => kidSelected kidId (Adjustment.kidId a)
                                && inWindow (parseISO_time (Adjustment.timestampISO a))
                                && String.eqb (Adjustment.kidId a) k)
                      (State.adjustments state)))
    /\ default 0 (Reports.bonusTotal parseISO_date state kidId startISO endISO !! k)
       = sumZ (map StreakBonus.points
                   (List.filter
                      (fun b => kidSelected kidId (StreakBonus.kidId b)
                                && inWindow (parseISO_date (StreakBonus.dateISO b))
                                && String.eqb (StreakBonus.kidId b) k)
                      (State.streakBonuses state))).
Proof.
  intros. split; [apply completionPoints_lookup|].
  split; [apply adjustmentsTotal_lookup|apply bonusTotal_lookup].
Qed.

Lemma StronglySorted_weaken {A} (R R' : A -> A -> Prop) (l : list A) :
  (forall x y, R x y -> R' x y) -> StronglySorted R l -> StronglySorted R' l.
Proof.
  intros H. induction 1 as [|x l Hs IH Hall]; constructor; [exact IH|].
  eapply List.Forall_impl; [|exact Hall]. auto.
Qed.

Lemma kidSelected_narrow (kidId id other : string) :
  kidSelected kidId id = true ->
  kidSelected kidId other && String.eqb other id
  = kidSelected "all" other && String.eqb other id.
Proof.
  unfold kidSelected. intros H. destruct (String.eqb other id) eqn:E;
    [|now rewrite !andb_false_r].
  apply String.eqb_eq in E. subst other. rewrite H. reflexivity.
Qed.

(** X22: the summary rows of the report come highest net first, there is
    exactly one row per kid that passes the kid filter, the net of a row is
    the sum of its chore points, adjustments and bonuses, and every row
    shown for a single kid is, number for number, a row of the report on all
    kids. *)
Theorem report_rows_are_sorted_and_filter_independent :
  forall (parseISO_date : Z -> Z) (parseISO_time : string -> Z)
         (localeCompare : string -> string -> Z)
         (state : State.t) (kidId : string) (startISO endISO : Z),
    let rows := Reports.summaryRows parseISO_date parseISO_time localeCompare
                                    state kidId startISO endISO in
    StronglySorted (fun a b => Reports.net b <= Reports.net a) rows
    /\ Permutation (map Reports.kid rows)
                   (List.filter (fun k => kidSelected kidId (Kid.id k)) (State.kids state))
    /\ Forall (fun r => Reports.net r
                        = Reports.choresPts r + Reports.adjPts r + Reports.bonusPts r)
              rows
    /\ forall r, In r rows ->
                 In r (Reports.summaryRows parseISO_date parseISO_time localeCompare
                                           state "all" startISO endISO).
Proof.
  intros parseISO_date parseISO_time localeCompare state kidId startISO endISO rows.
  subst rows. unfold Reports.summaryRows.
  split; [|split; [|split]].
  - apply (StronglySorted_weaken (fun a b => - Reports.net a <= - Reports.net b));
      [intros; lia|].
    apply sortWith_sorted. intros x y. lia.
  - rewrite (Permutation_map Reports.kid (sortWith_perm _ _)), map_map. simpl.
    rewrite map_id. reflexivity.
  - rewrite List.Forall_forall. intros r Hr.
    apply (Permutation_in _ (sortWith_perm _ _)) in Hr.
    apply in_map_iff in Hr as (k & <- & _). reflexivity.
  - intros r Hr. apply (Permutation_in _ (sortWith_perm _ _)) in Hr.
    apply (Permutation_in _ (Permutation_sym (sortWith_perm _ _))).
    apply in_map_iff in Hr as (k & <- & Hk). apply filter_In in Hk as [Hk Hsel].
    apply in_map_iff. exists k. split.
    + rewrite !completionPoints_lookup,
        !(adjustmentsTotal_lookup parseISO_date parseISO_time localeCompare),
        !bonusTotal_lookup.
      assert (Hc : forall c : Completion.t,
                 Completion.completed c
                 && Reports.between (parseISO_date (Completion.date c))
                      (Reports.start parseISO_date startISO)
                      (Reports.end_ parseISO_date endISO)
                 && kidSelected "all" (Completion.kidId c)
                 && String.eqb (Completion.kidId c) (Kid.id k)
                 = Completion.completed c
                   && Reports.between (parseISO_date (Completion.date c))
                        (Reports.start parseISO_date startISO)
                        (Reports.end_ parseISO_date endISO)
                   && kidSelected kidId (Completion.kidId c)
                   && String.eqb (Completion.kidId c) (Kid.id k)).
      { intros c. rewrite <- !andb_assoc. do 2 f_equal. symmetry.
        now apply kidSelected_narrow. }
      assert (Ha : forall a : Adjustment.t,
                 kidSelected "all" (Adjustment.kidId a)
                 && Reports.between (parseISO_time (Adjustment.timestampISO a))
                      (Reports.start parseISO_date startISO)
                      (Reports.end_ parseISO_date endISO)
                 && String.eqb (Adjustment.kidId a) (Kid.id k)
                 = kidSelected kidId (Adjustment.kidId a)
                   && Reports.between (parseISO_time (Adjustment.timestampISO a))
                        (Reports.start parseISO_date startISO)
                        (Reports.end_ parseISO_date endISO)
                   && String.eqb (Adjustment.kidId a) (Kid.id k)).
      { intros a. rewrite !(andb_comm (kidSelected _ _)), <- !andb_assoc. f_equal.
        symmetry. now apply kidSelected_narrow. }
      assert (Hb : forall b : StreakBonus.t,
                 kidSelected "all" (StreakBonus.kidId b)
                 && Reports.between (parseISO_date (StreakBonus.dateISO b))
                      (Reports.start parseISO_date startISO)
                      (Reports.end_ parseISO_date endISO)
                 && String.eqb (StreakBonus.kidId b) (Kid.id k)
                 = kidSelected kidId (StreakBonus.kidId b)
                   && Reports.between (parseISO_date (StreakBonus.dateISO b))
                        (Reports.start parseISO_date startISO)
                        (Reports.end_ parseISO_date endISO)
                   && String.eqb (StreakBonus.kidId b) (Kid.id k)).
      { intros b. rewrite !(andb_comm (kidSelected _ _)), <- !andb_assoc. f_equal.
        symmetry. now apply kidSelected_narrow. }
      rewrite (List.filter_ext _ _ Hc), (List.filter_ext _ _ Ha),
        (List.filter_ext _ _ Hb).
      reflexivity.
    + apply filter_In. split; [exact Hk|reflexivity].
Qed.

(* ===================================================================== *)
(** * src/utils.ts: sumPoints and the report agree *)
(* ===================================================================== *)

Lemma choreById_lookup (chores : list Chore.t) (id : string) :
  List.NoDup (map Chore.id chores) ->
  forall m : gmap string Z,
    fold_left (fun m ch => <[Chore.id ch := Chore.points ch]> m) chores m !! id
    = match List.find (fun x => String.eqb (Chore.id x) id) chores with
      | Some ch => Some (Chore.points ch)
      | None => m !! id
      end.
Proof.
  induction chores as [|c chores IH]; intros Hnd m; simpl; [reflexivity|].
  inversion Hnd as [|? ? Hnotin Hnd']; subst. rewrite (IH Hnd').
  destruct (String.eqb (Chore.id c) id) eqn:E.
  - apply String.eqb_eq in E. subst id.
    rewrite (find_chore_absent _ _ Hnotin). apply lookup_insert_eq.
  - apply String.eqb_neq in E.
    destruct (List.find _ chores); [reflexivity|]. now rewrite lookup_insert_ne.
Qed.

Lemma between_days (parseISO_date : Z -> Z) (d s e : Z) :
  keepsOrder parseISO_date ->
  Reports.between (parseISO_date d) (parseISO_date s) (parseISO_date e)
  = (s <=? d) && (d <=? e).
Proof.
  intros H. unfold Reports.between. f_equal.
  - destruct (s <=? d) eqn:E.
    + apply Z.leb_le. apply Z.leb_le in E. exact (proj1 (H s d) E).
    + apply Z.leb_gt. apply Z.leb_gt in E. apply Z.lt_nge. intros Hc.
      apply (proj2 (H s d)) in Hc. lia.
  - destruct (d <=? e) eqn:E.
    + apply Z.leb_le. apply Z.leb_le in E. exact (proj1 (H d e) E).
    + apply Z.leb_gt. apply Z.leb_gt in E. apply Z.lt_nge. intros Hc.
      apply (proj2 (H d e)) in Hc. lia.
Qed.

Lemma sumPoints_loop_total (isWithinInterval : Z -> Z -> Z -> result bool)
      (start end_ : Z) (allChores : list Chore.t) :
  (forall d, isWithinInterval d start end_ = Ok ((start <=? d) && (d <=? end_))) ->
  forall (set : list Completion.t) (sum : Z),
    sumPoints_loop isWithinInterval set start end_ allChores sum
    = Ok (sum
          + sumZ (map (fun c =>
                         match List.find (fun x => String.eqb (Chore.id x)
                                                              (Completion.choreId c))
                                         allChores with
                         | Some ch => Chore.points ch
                         | None => 0
                         end)
                      (List.filter (fun c => (start <=? Completion.date c)
                                             && (Completion.date c <=? end_))
                                   set))).
Proof.
  intros Hw. induction set as [|c set IH]; intros sum; simpl.
  - f_equal. lia.
  - unfold getTime. rewrite Hw. simpl.
    destruct ((start <=? Completion.date c) && (Completion.date c <=? end_)); simpl.
    + destruct (List.find _ allChores) as [ch|]; rewrite IH; f_equal; lia.
    + apply IH.
Qed.

(** X20: for a window whose start is not after its end and chores with
    distinct ids, [sumPoints] returns, for a kid, the chore points that the
    report on all kids shows for that kid in the same window. *)
Theorem sum_points_agrees_with_report :
  forall (isWithinInterval : Z -> Z -> Z -> result bool) (parseISO_date : Z -> Z)
         (state : State.t) (kidId : string) (startISO endISO : Z),
    (forall d s e, s <= e -> isWithinInterval d s e = Ok ((s <=? d) && (d <=? e))) ->
    keepsOrder parseISO_date ->
    startISO <= endISO ->
    List.NoDup (map Chore.id (State.chores state)) ->
    sumPoints isWithinInterval (State.completions state) kidId startISO endISO
              (State.chores state)
    = Ok (default 0 (Reports.completionPoints parseISO_date state "all"
                                              startISO endISO !! kidId)).
Proof.
  intros isWithinInterval parseISO_date state kidId startISO endISO Hw Hord Hse Hnd.
  unfold sumPoints, getTime.
  rewrite sumPoints_loop_total by (intros d; now apply Hw).
  rewrite completionPoints_lookup, filter_filter. f_equal. rewrite Z.add_0_l.
  rewrite (List.filter_ext
             (fun c => Completion.completed c
                       && Reports.between (parseISO_date (Completion.date c))
                            (Reports.start parseISO_date startISO)
                            (Reports.end_ parseISO_date endISO)
                       && kidSelected "all" (Completion.kidId c)
                       && String.eqb (Completion.kidId c) kidId)
             (fun c => String.eqb (Completion.kidId c) kidId && Completion.completed c
                       && ((startISO <=? Completion.date c)
                           && (Completion.date c <=? endISO)))).
  - f_equal. apply map_ext. intros c. unfold Reports.choreById.
    rewrite (choreById_lookup _ _ Hnd), lookup_empty.
    now destruct (List.find _ (State.chores state)).
  - intros c. unfold Reports.start, Reports.end_.
    rewrite (between_days parseISO_date _ _ _ Hord). unfold kidSelected. simpl.
    destruct (Completion.completed c), (String.eqb (Completion.kidId c) kidId),
      ((startISO <=? Completion.date c) && (Completion.date c <=? endISO));
      reflexivity.
Qed.

Lemma sum_points_agrees_with_report_witness :
  sumPoints (fun d s e => Ok ((s <=? d) && (d <=? e)))
            (State.completions stateKATicked) "K" 19730 19736
            (State.chores stateKATicked)
  = Ok (default 0 (Reports.completionPoints (fun d => d * 86400000) stateKATicked "all"
                                            19730 19736 !! "K")).
Proof.
  apply (sum_points_agrees_with_report
           (fun d s e => Ok ((s <=? d) && (d <=? e))) (fun d => d * 86400000)
           stateKATicked "K" 19730 19736).
  - reflexivity.
  - intros a b. lia.
  - lia.
  - simpl. repeat constructor. intros [].
Defined.

(* ===================================================================== *)
(** * src/BoardView.tsx: the board and the streak engine *)
(* ===================================================================== *)

Lemma data_lookup {rt : Runtime} (state : State.t) (dateISO : Z) (kids : list Kid.t) :
  forall (m : gmap string (list Chore.t)) (id : string),
    fold_left
      (fun map kid =>
         <[Kid.id kid :=
             List.filter
               (fun ch => includes_str (Chore.assignedKidIds ch) (Kid.id kid)
                          && Utils.isChoreDueOn ch dateISO)
               (State.chores state)]> map)
      kids m !! id
    = if existsb (fun k => String.eqb (Kid.id k) id) kids
      then Some (choresDueForKidOnDate state id dateISO)
      else m !! id.
Proof.
  induction kids as [|k kids IH]; intros m id; simpl; [reflexivity|].
  rewrite IH. destruct (existsb _ kids).
  - now rewrite orb_true_r.
  - rewrite orb_false_r. destruct (String.eqb (Kid.id k) id) eqn:E.
    + apply String.eqb_eq in E. subst id. apply lookup_insert_eq.
    + apply String.eqb_neq in E. now rewrite lookup_insert_ne.
Qed.

Lemma board_isCompleted_done_triple (state : State.t) (dateISO : Z)
      (choreId kidId : string) :
  BoardView.isCompleted state dateISO choreId kidId
  = existsb (done_triple kidId choreId dateISO) (State.completions state).
Proof.
  unfold BoardView.isCompleted.
  induction (State.completions state) as [|c cs IH]; simpl; [reflexivity|].
  rewrite IH. f_equal. unfold done_triple, same_triple.
  destruct (String.eqb (Completion.choreId c) choreId),
    (String.eqb (Completion.kidId c) kidId); reflexivity.
Qed.

Lemma forallb_pointwise {A} (p q : A -> bool) (l : list A) :
  (forall x, p x = q x) -> forallb p l = forallb q l.
Proof.
  intros H. induction l as [|x l IH]; simpl; [reflexivity|]. now rewrite H, IH.
Qed.

Lemma cards_all_checked (hide : bool) (done : Chore.t -> bool) (due : list Chore.t) :
  Forall (fun card : Chore.t * bool => snd card = true)
         (omap (fun ch => if hide && done ch then None else Some (ch, done ch)) due)
  <-> forallb done due = true.
Proof.
  induction due as [|ch due IH]; simpl.
  - split; [reflexivity|constructor].
  - destruct (done ch) eqn:E; simpl.
    + destruct hide; simpl; rewrite <- IH; [tauto|].
      split; [now inversion 1|now constructor].
    + rewrite andb_false_r. simpl.
      split; [inversion 1; simpl in *; congruence|discriminate].
Qed.

(** X24: for a kid of the state, the board column lists exactly the chores
    that the streak engine counts as due, and the day counts as a full day
    exactly when the column has chores due and every card it shows is
    checked (with completed chores hidden: when it shows no card at all). *)
Theorem board_column_matches_full_day {rt : Runtime} :
  forall (state : State.t) (dateISO : Z) (kid : Kid.t),
    In kid (State.kids state) ->
    BoardView.data state dateISO !! Kid.id kid
    = Some (choresDueForKidOnDate state (Kid.id kid) dateISO)
    /\ (isFullDayDone state (Kid.id kid) dateISO = true
        <-> BoardView.noChoresDue state dateISO kid = false
            /\ Forall (fun card => snd card = true)
                      (BoardView.cards state dateISO kid))
    /\ (Settings.hideCompletedOnBoard (State.settings state) = true ->
        (isFullDayDone state (Kid.id kid) dateISO = true
         <-> BoardView.noChoresDue state dateISO kid = false
             /\ BoardView.cards state dateISO kid = [])).
Proof.
  intros state dateISO kid Hin.
  assert (Hdata : BoardView.data state dateISO !! Kid.id kid
                  = Some (choresDueForKidOnDate state (Kid.id kid) dateISO)).
  { unfold BoardView.data. rewrite data_lookup.
    assert (Hex : existsb (fun k => String.eqb (Kid.id k) (Kid.id kid))
                          (State.kids state) = true).
    { apply existsb_exists. exists kid. split; [exact Hin|apply String.eqb_refl]. }
    now rewrite Hex. }
  assert (Hall : isFullDayDone state (Kid.id kid) dateISO = true
                 <-> BoardView.noChoresDue state dateISO kid = false
                     /\ Forall (fun card => snd card = true)
                               (BoardView.cards state dateISO kid)).
  { unfold BoardView.noChoresDue, BoardView.cards. rewrite Hdata.
    rewrite cards_all_checked. unfold isFullDayDone.
    rewrite (forallb_pointwise
               (fun ch => BoardView.isCompleted state dateISO (Chore.id ch) (Kid.id kid))
               (fun ch => existsb (done_triple (Kid.id kid) (Chore.id ch) dateISO)
                                  (State.completions state)))
      by (intros ch; apply board_isCompleted_done_triple).
    destruct (length (choresDueForKidOnDate state (Kid.id kid) dateISO) =? 0)%nat.
    - split; [discriminate|intros [? _]; discriminate].
    - tauto. }
  split; [exact Hdata|]. split; [exact Hall|].
  intros Hhide. rewrite Hall.
  assert (Hnone : Forall (fun card : Chore.t * bool => snd card = true)
                         (BoardView.cards state dateISO kid)
                  <-> BoardView.cards state dateISO kid = []).
  { unfold BoardView.cards. rewrite Hdata, Hhide. clear Hdata Hall.
    induction (choresDueForKidOnDate state (Kid.id kid) dateISO) as [|ch due IH]; simpl.
    - split; [reflexivity|constructor].
    - destruct (BoardView.isCompleted state dateISO (Chore.id ch) (Kid.id kid));
        simpl; [exact IH|].
      split; [inversion 1; simpl in *; congruence|discriminate]. }
  rewrite Hnone. tauto.
Qed.

Lemma board_column_matches_full_day_witness :
  BoardView.data (rt := zoneUTC) stateKATicked 19732 !! "K"
  = Some (choresDueForKidOnDate (rt := zoneUTC) stateKATicked "K" 19732)
  /\ (isFullDayDone (rt := zoneUTC) stateKATicked "K" 19732 = true
      <-> BoardView.noChoresDue (rt := zoneUTC) stateKATicked 19732
            (Kid.mk "K" "Kay" (Some "#c9e4ff") None None 3) = false
          /\ Forall (fun card => snd card = true)
                    (BoardView.cards (rt := zoneUTC) stateKATicked 19732
                       (Kid.mk "K" "Kay" (Some "#c9e4ff") None None 3)))
  /\ (Settings.hideCompletedOnBoard (State.settings stateKATicked) = true ->
      (isFullDayDone (rt := zoneUTC) stateKATicked "K" 19732 = true
       <-> BoardView.noChoresDue (rt := zoneUTC) stateKATicked 19732
             (Kid.mk "K" "Kay" (Some "#c9e4ff") None None 3) = false
           /\ BoardView.cards (rt := zoneUTC) stateKATicked 19732
                (Kid.mk "K" "Kay" (Some "#c9e4ff") None None 3) = [])).
Proof.
  apply (board_column_matches_full_day stateKATicked 19732
           (Kid.mk "K" "Kay" (Some "#c9e4ff") None None 3)).
  simpl. left. reflexivity.
Defined.

(* ===================================================================== *)
(** * src/storage.ts: saving, loading and the initial state *)
(* ===================================================================== *)

Lemma initial_field_present (m : gmap string json) (k : string) :
  is_Some ((Storage.defaults
            ∪ Storage.props_from [("adjustments", JArr []); ("streakBonuses", JArr [])] ∅)
           !! k) ->
  is_Some ((m ∪ Storage.defaults
            ∪ Storage.props_from [("adjustments", JArr []); ("streakBonuses", JArr [])] ∅)
           !! k).
Proof.
  intros H. rewrite <- (assoc_L (∪)). apply lookup_union_is_Some. now right.
Qed.

(** X25: what [saveState] writes, [loadState] reads back, whatever the
    storage held before: when [JSON.parse] inverts [JSON.stringify] on the
    saved value, the loaded object has every property of the saved value as
    saved, and the default for each property the saved value lacks. *)
Theorem save_then_load_round_trip :
  forall (JSON_parse : string -> option json) (JSON_stringify : json -> string)
         (s : json) (localStorage : gmap string string),
    JSON_parse (JSON_stringify s) = Some s ->
    JSON_stringify s <> "" ->
    exists o,
      Storage.loadState JSON_parse (Storage.saveState JSON_stringify s localStorage)
      = Ok o
      /\ forall k, o !! k = match Storage.ownProps s !! k with
                            | Some v => Some v
                            | None => Storage.defaults !! k
                            end.
Proof.
  intros JSON_parse JSON_stringify s localStorage Hinv Hne.
  unfold Storage.loadState, Storage.saveState, Storage.parse.
  rewrite lookup_insert_eq.
  apply String.eqb_neq in Hne. rewrite Hne, Hinv. simpl.
  eexists. split; [reflexivity|]. intros k.
  destruct (Storage.ownProps s !! k) as [v|] eqn:E.
  - now apply lookup_union_Some_l.
  - now apply lookup_union_r.
Qed.

Lemma save_then_load_witness :
  exists o,
    Storage.loadState (fun _ => Some (JObj [("version", JNum (1 # 1))]))
      (Storage.saveState (fun _ => "{}") (JObj [("version", JNum (1 # 1))])
                         {[ Storage.KEY := "old" ]})
    = Ok o
    /\ forall k, o !! k
                 = match Storage.ownProps (JObj [("version", JNum (1 # 1))]) !! k with
                   | Some v => Some v
                   | None => Storage.defaults !! k
                   end.
Proof.
  apply (save_then_load_round_trip
           (fun _ => Some (JObj [("version", JNum (1 # 1))])) (fun _ => "{}")
           (JObj [("version", JNum (1 # 1))]) {[ Storage.KEY := "old" ]}).
  - reflexivity.
  - discriminate.
Defined.

(** X26: the initial state of the reducer always has all nine top-level
    properties of a state, and a property of the stored object is taken over
    as it is stored, without validation or migration. *)
Theorem initial_state_has_every_field :
  forall (JSON_parse : string -> option json) (localStorage : gmap string string),
    exists o,
      Storage.initialState JSON_parse localStorage = Ok o
      /\ Forall (fun k => is_Some (o !! k))
                ["version"; "kids"; "chores"; "rewards"; "completions"; "payouts";
                 "settings"; "adjustments"; "streakBonuses"]
      /\ (forall text v k x,
             localStorage !! Storage.KEY = Some text -> text <> "" ->
             JSON_parse text = Some v ->
             Storage.ownProps v !! k = Some x ->
             o !! k = Some x).
Proof.
  intros JSON_parse localStorage.
  assert (Hdef : Forall (fun k => is_Some
                           ((Storage.defaults
                             ∪ Storage.props_from
                                 [("adjustments", JArr []); ("streakBonuses", JArr [])] ∅)
                            !! k))
                        ["version"; "kids"; "chores"; "rewards"; "completions";
                         "payouts"; "settings"; "adjustments"; "streakBonuses"]).
  { repeat constructor; eexists; vm_compute; reflexivity. }
  unfold Storage.initialState, Storage.loadState, Storage.parse.
  destruct (localStorage !! Storage.KEY) as [text|] eqn:Hraw; simpl.
  - destruct (String.eqb text "") eqn:E; simpl.
    + apply String.eqb_eq in E. eexists. split; [reflexivity|]. split; [exact Hdef|].
      intros text' v k x Htext Hne. congruence.
    + destruct (JSON_parse text) as [v|] eqn:Hp; simpl.
      * eexists. split; [reflexivity|]. split.
        -- eapply Forall_impl; [exact Hdef|].
           intros k Hk. exact (initial_field_present _ k Hk).
        -- intros text' v' k x Htext Hne Hp' Hx.
           assert (text' = text) by congruence. subst text'.
           assert (v' = v) by congruence. subst v'.
           apply lookup_union_Some_l. now apply lookup_union_Some_l.
      * eexists. split; [reflexivity|]. split; [exact Hdef|].
        intros text' v k x Htext Hne Hp'. congruence.
  - eexists. split; [reflexivity|]. split; [exact Hdef|]. discriminate.
Qed.

(* ===================================================================== *)
(** * The reducer and the report *)
(* ===================================================================== *)

Lemma sumZ_filter_delete {A} (v : A -> Z) (p : A -> bool) (l : list A) :
  forall (i : nat) (x : A),
    l !! i = Some x ->
    sumZ (map v (List.filter p (delete i l)))
    = sumZ (map v (List.filter p l)) - (if p x then v x else 0).
Proof.
  induction l as [|y l IH]; intros [|i] x; simpl; try discriminate.
  - intros [= ->]. destruct (p x); simpl; lia.
  - intros H. destruct (p y); simpl; rewrite (IH i x H); lia.
Qed.

Lemma sumZ_filter_insert {A} (v : A -> Z) (p : A -> bool) (l : list A) :
  forall (i : nat) (x y : A),
    l !! i = Some x ->
    sumZ (map v (List.filter p (<[i := y]> l)))
    = sumZ (map v (List.filter p l)) - (if p x then v x else 0)
      + (if p y then v y else 0).
Proof.
  induction l as [|z l IH]; intros [|i] x y; simpl; try discriminate.
  - intros [= ->]. destruct (p x), (p y); simpl; lia.
  - intros H. destruct (p z); simpl; rewrite (IH i x y H); lia.
Qed.

Lemma choreById_map_same (g : Chore.t -> Chore.t) (chores : list Chore.t) :
  (forall ch, Chore.id (g ch) = Chore.id ch) ->
  (forall ch, Chore.points (g ch) = Chore.points ch) ->
  Reports.choreById (map g chores) = Reports.choreById chores.
Proof.
  intros Hid Hpts. unfold Reports.choreById. generalize (∅ : gmap string Z).
  induction chores as [|ch chores IH]; intros m; simpl; [reflexivity|].
  now rewrite Hid, Hpts, IH.
Qed.

(** X27: a manual adjustment enters the report by its timestamp and with the
    requested delta, also when the balance was clamped at zero: the total of
    a kid grows by the delta exactly when the adjustment is for that kid, the
    kid filter selects it and the timestamp lies between the midnight that
    starts the first day of the window and the midnight that starts its last
    day; the chore and bonus totals do not move. *)
Theorem adjust_is_reported_by_its_timestamp {rt : Runtime} :
  forall (parseISO_date : Z -> Z) (parseISO_time : string -> Z)
         (localeCompare : string -> string -> Z)
         (env : Env.t) (state : State.t) (target : string) (delta : Z) (reason : string)
         (kidId : string) (startISO endISO : Z),
    exists s',
      reducer env state (ADJUST_POINTS_WITH_REASON target delta reason) = Ok s'
      /\ (forall k,
             default 0 (Reports.adjustmentsTotal parseISO_date parseISO_time localeCompare
                          s' kidId startISO endISO !! k)
             = default 0 (Reports.adjustmentsTotal parseISO_date parseISO_time
                            localeCompare state kidId startISO endISO !! k)
               + (if kidSelected kidId target
                     && Reports.between (parseISO_time (Env.now env))
                                        (parseISO_date startISO) (parseISO_date endISO)
                     && String.eqb target k
                  then delta else 0))
      /\ Reports.completionPoints parseISO_date s' kidId startISO endISO
         = Reports.completionPoints parseISO_date state kidId startISO endISO
      /\ Reports.bonusTotal parseISO_date s' kidId startISO endISO
         = Reports.bonusTotal parseISO_date state kidId startISO endISO.
Proof.
  intros parseISO_date parseISO_time localeCompare env state target delta reason
         kidId startISO endISO.
  eexists. split; [reflexivity|]. split; [|split; reflexivity].
  intros k. rewrite !adjustmentsTotal_lookup.
  cbn [State.adjustments List.filter Adjustment.kidId Adjustment.timestampISO].
  unfold Reports.start, Reports.end_.
  destruct (kidSelected kidId target
            && Reports.between (parseISO_time (Env.now env))
                               (parseISO_date startISO) (parseISO_date endISO)
            && String.eqb target k); simpl; lia.
Qed.

(** X28: when the chore ids of the state are distinct, a TOGGLE_COMPLETE of
    a chore of the state moves the chore points that the report shows for a
    kid by the points of that chore: up when the triple was unticked, down
    when it was ticked, and only for the toggled kid, when the kid filter
    selects it and the date lies in the window. *)
Theorem toggle_is_reported {rt : Runtime} :
  forall (parseISO_date : Z -> Z) (env : Env.t) (state : State.t)
         (target choreId : string) (dateISO : Z) (kidId : string) (startISO endISO : Z),
    In choreId (map Chore.id (State.chores state)) ->
    List.NoDup (map Chore.id (State.chores state)) ->
    exists s' ch,
      reducer env state (TOGGLE_COMPLETE target choreId dateISO) = Ok s'
      /\ List.find (fun x => String.eqb (Chore.id x) choreId) (State.chores state)
         = Some ch
      /\ forall k,
           default 0 (Reports.completionPoints parseISO_date s' kidId startISO endISO !! k)
           = default 0 (Reports.completionPoints parseISO_date state kidId
                                                 startISO endISO !! k)
             + (if Reports.between (parseISO_date dateISO)
                                    (parseISO_date startISO) (parseISO_date endISO)
                   && kidSelected kidId target
                   && String.eqb target k
                then if wasChecked state target choreId dateISO
                     then - Chore.points ch else Chore.points ch
                else 0).
Proof.
  intros parseISO_date env state target choreId dateISO kidId startISO endISO Hin Hnd.
  destruct (find_chore_present choreId (State.chores state) Hin)
    as (ch & Hfind & _ & Hid).
  destruct (toggle_complete_phases env state target choreId dateISO)
    as (cs & completed & f & bs & Hrec & Hbonus & Heq).
  rewrite (toggle_points_found _ _ _ _ _ ch Hfind) in Heq. simpl in Heq.
  eexists _, ch. cbn [reducer]. split; [exact Heq|]. split; [exact Hfind|].
  intros k. rewrite !completionPoints_lookup.
  cbn [toggled State.completions State.chores]. unfold toggle_streaks.
  rewrite choreById_map_same;
    [|intros; apply streakUpdate_id|intros; apply streakUpdate_points].
  unfold Reports.start, Reports.end_.
  assert (Hpts : default 0 (Reports.choreById (State.chores state) !! choreId)
                 = Chore.points ch).
  { unfold Reports.choreById. rewrite (choreById_lookup _ _ Hnd), Hfind. reflexivity. }
  set (v := fun c : Completion.t =>
              default 0 (Reports.choreById (State.chores state) !! Completion.choreId c)).
  set (p := fun c : Completion.t =>
              Completion.completed c
              && Reports.between (parseISO_date (Completion.date c))
                                 (parseISO_date startISO) (parseISO_date endISO)
              && kidSelected kidId (Completion.kidId c)
              && String.eqb (Completion.kidId c) k).
  assert (Hsame : forall e, same_triple target choreId dateISO e = true ->
                            v e = Chore.points ch
                            /\ p e = Completion.completed e
                                     && (Reports.between (parseISO_date dateISO)
                                           (parseISO_date startISO) (parseISO_date endISO)
                                         && kidSelected kidId target
                                         && String.eqb target k)).
  { intros e He. unfold same_triple in He.
    apply andb_true_iff in He as [He Hd]. apply andb_true_iff in He as [Hk Hc].
    apply String.eqb_eq in Hk, Hc. apply Z.eqb_eq in Hd.
    unfold v, p. rewrite Hk, Hc, Hd, Hpts. split; [reflexivity|].
    now rewrite !andb_assoc. }
  inversion Hrec as [Hidx Hcs Hwas Hc|i e Hidx He Hp Hc Hcs Hwas Hc'
                    |i e Hidx He Hp Hc Hcs Hwas Hc']; subst cs.
  - rewrite List.filter_app, map_app, sumZ_app. f_equal.
    destruct (Hsame (Completion.mk (Env.nanoid_1 env) choreId target dateISO true))
      as [Hv Hpe].
    { unfold same_triple. simpl. now rewrite !String.eqb_refl, Z.eqb_refl. }
    cbn [List.filter]. rewrite Hpe. cbn [Completion.completed andb].
    destruct (Reports.between _ _ _ && kidSelected kidId target && String.eqb target k);
      simpl; [rewrite Hv|]; lia.
  - rewrite (sumZ_filter_delete v p _ i e He).
    destruct (Hsame e Hp) as [Hv Hpe]. rewrite Hpe, Hc, Hv. simpl.
    destruct (Reports.between _ _ _ && kidSelected kidId target && String.eqb target k);
      lia.
  - rewrite (sumZ_filter_insert v p _ i e (Completion.with_completed e true) He).
    destruct (Hsame e Hp) as [Hv Hpe]. rewrite Hpe, Hc. simpl.
    destruct (Hsame (Completion.with_completed e true)) as [Hv' Hpe'].
    { revert Hp. unfold same_triple. now destruct e. }
    rewrite Hpe', Hv'.
    assert (Hc1 : Completion.completed (Completion.with_completed e true) = true)
      by now destruct e.
    rewrite Hc1. simpl.
    destruct (Reports.between _ _ _ && kidSelected kidId target && String.eqb target k);
      lia.
Qed.

Lemma toggle_is_reported_witness :
  exists s' ch,
    reducer (rt := zoneUTC) env0 stateKA (TOGGLE_COMPLETE "K" "A" 19732) = Ok s'
    /\ List.find (fun x => String.eqb (Chore.id x) "A") (State.chores stateKA) = Some ch
    /\ forall k,
         default 0 (Reports.completionPoints (fun d => d * 86400000) s' "all"
                                             19730 19736 !! k)
         = default 0 (Reports.completionPoints (fun d => d * 86400000) stateKA "all"
                                               19730 19736 !! k)
           + (if Reports.between (19732 * 86400000) (19730 * 86400000) (19736 * 86400000)
                 && kidSelected "all" "K"
                 && String.eqb "K" k
              then if wasChecked stateKA "K" "A" 19732
                   then - Chore.points ch else Chore.points ch
              else 0).
Proof.
  apply (toggle_is_reported (fun d => d * 86400000) env0 stateKA "K" "A" 19732
                            "all" 19730 19736).
  - simpl. left. reflexivity.
  - simpl. repeat constructor. intros [].
Defined.

(* ===================================================================== *)
(** * What no action does *)
(* ===================================================================== *)

Lemma grownFrom_refl (s : State.t) : grownFrom s s.
Proof.
  repeat split; [exists []; now rewrite app_nil_r|now exists []|now exists []].
Qed.

Lemma grownFrom_step {rt : Runtime}
      (env : Env.t) (s0 s : State.t) (action : Action) (s' : State.t) :
  grownFrom s0 s -> keepsData action -> reducer env s action = Ok s' -> grownFrom s0 s'.
Proof.
  intros ((ks & Hk) & (adj & Ha) & (ps & Hp)) Hkeep Hred.
  destruct action; try contradiction; cbn [reducer] in Hred;
    try (injection Hred as <-; unfold grownFrom;
         cbn [State.kids State.adjustments State.payouts]).
  - repeat split; [|now exists adj|now exists ps].
    exists (ks ++ [Env.nanoid_1 env]). rewrite map_app, Hk, <- app_assoc. reflexivity.
  - repeat split; [|exists (Adjustment.mk (Env.nanoid_1 env) kidId delta
                              (str_or (trim reason)
                                 (String.append (if 0 <? delta then "+" else "-")
                                                "adjust"))
                              (Env.now env) :: adj); now rewrite Ha
                  |now exists ps].
    exists ks. now rewrite map_points_ids.
  - repeat split; [now exists ks|now exists adj|now exists ps].
  - repeat split; [now exists ks|now exists adj|now exists ps].
  - repeat split; [now exists ks|now exists adj|now exists ps].
  - repeat split; [now exists ks|now exists adj|now exists ps].
  - destruct (toggle_complete_inv _ _ _ _ _ _ Hred)
      as (completed & f & kids1 & Hrec & _ & Hpts & ->).
    destruct (toggle_points_shape _ _ _ _ _ _
                (RecordChange_completed _ _ _ _ _ _ _ Hrec) Hpts) as (g & ->).
    unfold grownFrom. cbn [toggled State.kids State.adjustments State.payouts].
    repeat split; [|now exists adj|now exists ps].
    exists ks. now rewrite !map_points_ids.
  - repeat split; [now exists ks|now exists adj|now exists ps].
  - repeat split; [now exists ks|now exists adj|now exists ps].
  - repeat split; [now exists ks|now exists adj|now exists ps].
  - repeat split; [now exists ks|now exists adj|].
    eexists (_ :: ps). now rewrite Hp.
Qed.

(** X29: short of RESET_ALL and REPLACE_ALL, no run of actions removes a
    kid or edits the audit logs: the kid ids of the start are still there,
    in place, with new kids after them, and the adjustment and payout logs of
    the start are still there under the records added since. *)
Theorem kids_and_logs_only_grow {rt : Runtime} :
  forall (steps : list (Env.t * Action)) (s0 s : State.t),
    Forall (fun step => keepsData (snd step)) steps ->
    dispatchAll s0 steps = Ok s ->
    grownFrom s0 s.
Proof.
  intros steps s0 s Hall Hrun.
  apply (dispatchAll_invariant (grownFrom s0) keepsData) with (steps := steps) (s0 := s0);
    [|apply grownFrom_refl|exact Hall|exact Hrun].
  intros env s1 a s2 Hinv Ha Hred. exact (grownFrom_step env s0 s1 a s2 Hinv Ha Hred).
Qed.

Lemma kids_and_logs_only_grow_witness : grownFrom emptyState sessionEnd.
Proof.
  apply (kids_and_logs_only_grow (rt := zoneUTC) sessionSteps emptyState sessionEnd).
  - repeat constructor.
  - vm_compute. reflexivity.
Defined.

(* ===================================================================== *)
(** * src/utils.ts: weekly schedules *)
(* ===================================================================== *)

Lemma includes_Z_In (xs : list Z) (x : Z) : includes_Z xs x = true <-> In x xs.
Proof.
  unfold includes_Z. rewrite existsb_exists. split.
  - intros (y & Hy & E). apply Z.eqb_eq in E. now subst.
  - intros H. exists x. split; [exact H|apply Z.eqb_refl].
Qed.

(** X30: a weekly chore is due on a date exactly when the weekday of the
    local day of [new Date(dateISO)] is listed: the weekday of the date
    itself in a zone that is not behind UTC then, the weekday before it in
    a zone that is.  It is due again seven days later when the zone is on
    the same side of UTC then; when a weekday from 0 to 6 is listed it comes
    due within any seven consecutive dates over which the zone stays on one
    side of UTC; and when no such weekday is listed it is never due. *)
Theorem weekly_chore_repeats_every_seven_days {rt : Runtime} :
  forall (chore : Chore.t) (daysOfWeek : list Z) (dateISO : Z),
    Chore.schedule chore = weekly daysOfWeek ->
    (isChoreDueOn chore dateISO = true
     <-> In (getDay (if behindUTC dateISO then dateISO - 1 else dateISO)) daysOfWeek)
    /\ (behindUTC (dateISO + 7) = behindUTC dateISO ->
        isChoreDueOn chore (dateISO + 7) = isChoreDueOn chore dateISO)
    /\ ((exists w, In w daysOfWeek /\ 0 <= w <= 6) ->
        (forall i, 0 <= i < 7 -> behindUTC (dateISO + i) = behindUTC dateISO) ->
        exists i, 0 <= i < 7 /\ isChoreDueOn chore (dateISO + i) = true)
    /\ ((forall w, In w daysOfWeek -> w < 0 \/ 6 < w) ->
        forall d, isChoreDueOn chore d = false).
Proof.
  intros chore daysOfWeek dateISO Hs.
  assert (Hdue : forall d, isChoreDueOn chore d
                           = includes_Z daysOfWeek
                               (getDay (if behindUTC d then d - 1 else d))).
  { intros d. unfold isChoreDueOn, newDate. now rewrite Hs. }
  split; [rewrite Hdue; apply includes_Z_In|].
  split.
  { intros Hz. rewrite !Hdue, Hz. f_equal. unfold getDay.
    destruct (behindUTC dateISO).
    - replace (dateISO + 7 - 1 + 4) with (dateISO - 1 + 4 + 1 * 7) by lia.
      apply Z.mod_add. lia.
    - replace (dateISO + 7 + 4) with (dateISO + 4 + 1 * 7) by lia.
      apply Z.mod_add. lia. }
  split.
  - intros (w & Hw & Hr) Hz.
    set (start := if behindUTC dateISO then dateISO - 1 else dateISO).
    exists ((w - getDay start) mod 7). split.
    + apply Z.mod_pos_bound. lia.
    + rewrite Hdue. apply includes_Z_In.
      rewrite Hz by (apply Z.mod_pos_bound; lia).
      replace (getDay (if behindUTC dateISO
                       then dateISO + (w - getDay start) mod 7 - 1
                       else dateISO + (w - getDay start) mod 7))
        with w; [exact Hw|].
      unfold start, getDay. destruct (behindUTC dateISO);
        Z.to_euclidean_division_equations; lia.
  - intros Hnone d. rewrite Hdue. apply not_true_is_false. intros H.
    apply includes_Z_In in H.
    pose proof (getDay_range (if behindUTC d then d - 1 else d)).
    apply Hnone in H. lia.
Qed.

Lemma weekly_chore_witness :
  (isChoreDueOn (rt := zoneWest) (Chore.mk "W" "Bins" 2 (weekly [3]) ["K"] None None)
                19733 = true
   <-> In (getDay (if behindUTC (Runtime := zoneWest) 19733 then 19733 - 1 else 19733))
          [3])
  /\ (behindUTC (Runtime := zoneWest) (19733 + 7) = behindUTC (Runtime := zoneWest) 19733 ->
      isChoreDueOn (rt := zoneWest)
                   (Chore.mk "W" "Bins" 2 (weekly [3]) ["K"] None None) (19733 + 7)
      = isChoreDueOn (rt := zoneWest)
                     (Chore.mk "W" "Bins" 2 (weekly [3]) ["K"] None None) 19733)
  /\ ((exists w, In w [3] /\ 0 <= w <= 6) ->
      (forall i, 0 <= i < 7 ->
                 behindUTC (Runtime := zoneWest) (19733 + i)
                 = behindUTC (Runtime := zoneWest) 19733) ->
      exists i, 0 <= i < 7
                /\ isChoreDueOn (rt := zoneWest)
                                (Chore.mk "W" "Bins" 2 (weekly [3]) ["K"] None None)
                                (19733 + i) = true)
  /\ ((forall w, In w [3] -> w < 0 \/ 6 < w) ->
      forall d, isChoreDueOn (rt := zoneWest)
                             (Chore.mk "W" "Bins" 2 (weekly [3]) ["K"] None None) d
                = false).
Proof.
  apply (weekly_chore_repeats_every_seven_days (rt := zoneWest)
           (Chore.mk "W" "Bins" 2 (weekly [3]) ["K"] None None) [3] 19733).
  reflexivity.
Defined.

(** In a zone behind UTC a chore listed for Wednesday is due on the date
    string of the Thursday and not on that of the Wednesday. *)
Lemma wednesday_chore_due_on_thursday_behind_utc :
  getDay 19732 = 3
  /\ isChoreDueOn (rt := zoneWest)
                  (Chore.mk "W" "Bins" 2 (weekly [3]) ["K"] None None) 19732 = false
  /\ isChoreDueOn (rt := zoneWest)
                  (Chore.mk "W" "Bins" 2 (weekly [3]) ["K"] None None) 19733 = true
  /\ isChoreDueOn (rt := zoneUTC)
                  (Chore.mk "W" "Bins" 2 (weekly [3]) ["K"] None None) 19732 = true.
Proof. repeat split; vm_compute; reflexivity. Qed.

(* ===================================================================== *)
(** * The balances and the records behind them *)
(* ===================================================================== *)

Lemma sumZ_map_filter_nonneg {A} (v : A -> Z) (p : A -> bool) (l : list A) :
  Forall (fun x => 0 <= v x) l -> 0 <= sumZ (map v (List.filter p l)).
Proof.
  induction 1 as [|x l Hx Hl IH]; simpl; [lia|]. destruct (p x); simpl; lia.
Qed.

Lemma find_unique (chores : list Chore.t) (ch : Chore.t) :
  List.NoDup (map Chore.id chores) -> In ch chores ->
  List.find (fun x => String.eqb (Chore.id x) (Chore.id ch)) chores = Some ch.
Proof.
  induction chores as [|c chores IH]; simpl; intros Hnd Hin; [destruct Hin|].
  inversion Hnd as [|? ? Hnotin Hnd']; subst.
  destruct (String.eqb (Chore.id c) (Chore.id ch)) eqn:E.
  - apply String.eqb_eq in E. destruct Hin as [->|Hin]; [reflexivity|].
    exfalso. apply Hnotin. rewrite E. now apply in_map.
  - destruct Hin as [->|Hin]; [now rewrite String.eqb_refl in E|]. now apply IH.
Qed.

Lemma pointsOf_stable (l l' : list Chore.t) :
  List.NoDup (map Chore.id l) -> List.NoDup (map Chore.id l') ->
  (forall ch, In ch l ->
              exists ch', In ch' l' /\ Chore.id ch' = Chore.id ch
                          /\ Chore.points ch' = Chore.points ch) ->
  forall x, In x (map Chore.id l) -> pointsOf l' x = pointsOf l x.
Proof.
  intros Hnd Hnd' Hsim x Hx. apply in_map_iff in Hx as (ch & <- & Hin).
  destruct (Hsim ch Hin) as (ch' & Hin' & Hid & Hpts).
  unfold pointsOf. rewrite (find_unique l ch Hnd Hin), <- Hid.
  now rewrite (find_unique l' ch' Hnd' Hin').
Qed.

Lemma pointsOf_nonneg (chores : list Chore.t) (x : string) :
  Forall (fun ch => 0 <= Chore.points ch) chores -> 0 <= pointsOf chores x.
Proof.
  intros H. unfold pointsOf.
  destruct (List.find _ chores) as [ch|] eqn:E; [|lia].
  apply find_some in E as [Hin _]. rewrite List.Forall_forall in H. now apply H.
Qed.

Lemma earnedFrom_stable (chores chores' : list Chore.t) (cs : list Completion.t)
      (k : string) :
  (forall x, In x (map Chore.id chores) -> pointsOf chores' x = pointsOf chores x) ->
  Forall (fun c => In (Completion.choreId c) (map Chore.id chores)) cs ->
  earnedFrom chores' cs k = earnedFrom chores cs k.
Proof.
  intros Hst. unfold earnedFrom. induction 1 as [|c cs Hc Hcs IH]; simpl; [reflexivity|].
  destruct (Completion.completed c && String.eqb (Completion.kidId c) k); simpl;
    [rewrite (Hst _ Hc)|]; now rewrite IH.
Qed.

Lemma earnedFrom_nonneg (chores : list Chore.t) (cs : list Completion.t) (k : string) :
  Forall (fun ch => 0 <= Chore.points ch) chores -> 0 <= earnedFrom chores cs k.
Proof.
  intros H. unfold earnedFrom. apply sumZ_map_filter_nonneg.
  apply List.Forall_forall. intros c _. now apply pointsOf_nonneg.
Qed.

(** A state that differs from a backed state in its chores only, or not in
    what the ledger reads, is backed when its chores keep the ids and the
    points of the old ones. *)
Lemma ledgerOk_frame (s s' : State.t) :
  ledgerOk s ->
  State.kids s' = State.kids s ->
  State.completions s' = State.completions s ->
  State.streakBonuses s' = State.streakBonuses s ->
  State.adjustments s' = State.adjustments s ->
  List.NoDup (map Chore.id (State.chores s')) ->
  Forall (fun ch => 0 <= Chore.points ch) (State.chores s') ->
  (forall ch, In ch (State.chores s) ->
              exists ch', In ch' (State.chores s') /\ Chore.id ch' = Chore.id ch
                          /\ Chore.points ch' = Chore.points ch) ->
  ledgerOk s'.
Proof.
  intros (Hnd & Hpts & Hrefs & Hbnd & Hbpts & Hadj & Hbal) Hk Hc Hb Ha Hnd' Hpts' Hsim.
  unfold ledgerOk, ledger. rewrite Hk, Hc, Hb, Ha.
  repeat split; try assumption.
  - eapply Forall_impl; [exact Hrefs|]. intros c Hin. simpl in Hin.
    apply in_map_iff in Hin as (ch & <- & Hin).
    destruct (Hsim ch Hin) as (ch' & Hin' & <- & _). now apply in_map.
  - eapply Forall_impl; [exact Hbal|]. intros kid Hkid. simpl in Hkid. simpl.
    rewrite Hkid. unfold ledger.
    rewrite (earnedFrom_stable (State.chores s) (State.chores s'));
      [reflexivity| |exact Hrefs].
    now apply pointsOf_stable.
Qed.

Lemma Forall_map_points (P : Kid.t -> Prop) (kidId : string) (f : Z -> Z)
      (kids : list Kid.t) :
  (forall kid, In kid kids -> String.eqb (Kid.id kid) kidId = true ->
               P (Kid.with_points kid (f (Kid.points kid)))) ->
  (forall kid, In kid kids -> String.eqb (Kid.id kid) kidId = false -> P kid) ->
  Forall P (map_points kidId f kids).
Proof.
  intros Hhit Hmiss. unfold map_points. apply List.Forall_forall. intros x Hx.
  apply in_map_iff in Hx as (kid & <- & Hin).
  destruct (String.eqb (Kid.id kid) kidId) eqn:E; auto.
Qed.

Lemma RecordChange_earned env s kidId choreId dateISO cs was completed chores k :
  RecordChange env s kidId choreId dateISO cs was completed ->
  earnedFrom chores cs k
  = earnedFrom chores (State.completions s) k
    + (if String.eqb kidId k
       then if was then - pointsOf chores choreId else pointsOf chores choreId
       else 0).
Proof.
  intros Hrec. unfold earnedFrom.
  set (v := fun c : Completion.t => pointsOf chores (Completion.choreId c)).
  set (p := fun c : Completion.t =>
              Completion.completed c && String.eqb (Completion.kidId c) k).
  assert (Hsame : forall e, same_triple kidId choreId dateISO e = true ->
                            v e = pointsOf chores choreId
                            /\ p e = Completion.completed e && String.eqb kidId k).
  { intros e He. unfold same_triple in He.
    apply andb_true_iff in He as [He _]. apply andb_true_iff in He as [Hk Hc].
    apply String.eqb_eq in Hk, Hc. unfold v, p. now rewrite Hk, Hc. }
  inversion Hrec as [Hidx|i e Hidx He Hp Hc|i e Hidx He Hp Hc]; subst.
  - rewrite List.filter_app, map_app, sumZ_app. f_equal.
    unfold p, v. simpl. destruct (String.eqb kidId k); simpl; lia.
  - rewrite (sumZ_filter_delete v p _ i e He).
    destruct (Hsame e Hp) as [Hv Hpe]. rewrite Hpe, Hc, Hv. simpl.
    destruct (String.eqb kidId k); lia.
  - rewrite (sumZ_filter_insert v p _ i e (Completion.with_completed e true) He).
    destruct (Hsame e Hp) as [Hv Hpe]. rewrite Hpe, Hc. simpl.
    destruct (Hsame (Completion.with_completed e true)) as [Hv' Hpe'].
    { revert Hp. unfold same_triple. now destruct e. }
    rewrite Hpe', Hv'. simpl. destruct (String.eqb kidId k); lia.
Qed.

Lemma RecordChange_refs env s kidId choreId dateISO cs was completed (ids : list string) :
  RecordChange env s kidId choreId dateISO cs was completed ->
  In choreId ids ->
  Forall (fun c => In (Completion.choreId c) ids) (State.completions s) ->
  Forall (fun c => In (Completion.choreId c) ids) cs.
Proof.
  intros Hrec Hin Hall.
  inversion Hrec as [Hidx|i e Hidx He Hp Hc|i e Hidx He Hp Hc]; subst.
  - apply Forall_app. split; [exact Hall|]. now repeat constructor.
  - now apply Forall_delete.
  - apply Forall_list_insert; [exact Hall|]. simpl.
    rewrite List.Forall_forall in Hall. apply (Hall e). eapply lookup_In; eauto.
Qed.

Lemma sumZ_filter_remove_id (v : StreakBonus.t -> Z) (q : StreakBonus.t -> bool)
      (bs : list StreakBonus.t) (b : StreakBonus.t) :
  List.NoDup (map StreakBonus.id bs) -> In b bs ->
  sumZ (map v (List.filter q
                 (List.filter (fun b' => negb (String.eqb (StreakBonus.id b')
                                                          (StreakBonus.id b))) bs)))
  = sumZ (map v (List.filter q bs)) - (if q b then v b else 0).
Proof.
  induction bs as [|x bs IH]; simpl; intros Hnd Hin; [destruct Hin|].
  inversion Hnd as [|? ? Hnotin Hnd']; subst.
  destruct (String.eqb (StreakBonus.id x) (StreakBonus.id b)) eqn:E; simpl.
  - apply String.eqb_eq in E.
    assert (x = b) as ->.
    { destruct Hin as [Hx|Hin]; [exact Hx|].
      exfalso. apply Hnotin. rewrite E. now apply in_map. }
    rewrite (filter_all (fun b' => negb (String.eqb (StreakBonus.id b')
                                                    (StreakBonus.id b))) bs).
    + destruct (q b); simpl; lia.
    + intros y Hy. apply negb_true_iff, String.eqb_neq. intros Ey.
      apply Hnotin. rewrite <- Ey. now apply in_map.
  - destruct Hin as [->|Hin]; [now rewrite String.eqb_refl in E|].
    destruct (q x); simpl; rewrite (IH Hnd' Hin); lia.
Qed.

Lemma BonusChange_sum {rt : Runtime} env s kidId dateISO cs f bs :
  BonusChange env s kidId dateISO cs f bs ->
  List.NoDup (map StreakBonus.id (State.streakBonuses s)) ->
  exists delta,
    (forall k, bonusSum bs k
               = bonusSum (State.streakBonuses s) k
                 + (if String.eqb kidId k then delta else 0))
    /\ (forall p, 0 <= p + delta -> f p = p + delta).
Proof.
  intros Hb Hnd. inversion Hb as [|run Hfull Hrun Hpos Hrem Hfind|b Hfull Hfind]; subst.
  - exists 0. split; [intros k; destruct (String.eqb kidId k); lia|intros; lia].
  - exists 5. split; [|intros; lia]. intros k. unfold bonusSum. simpl.
    destruct (String.eqb kidId k); simpl; lia.
  - exists (- StreakBonus.points b). split; [|intros; lia].
    intros k. unfold bonusSum. apply find_some in Hfind as [Hin Hkey].
    apply andb_true_iff in Hkey as [Hk _]. apply String.eqb_eq in Hk.
    rewrite (sumZ_filter_remove_id _ _ _ b Hnd Hin), Hk.
    destruct (String.eqb kidId k); lia.
Qed.

Lemma BonusChange_ok {rt : Runtime} env s kidId dateISO cs f bs :
  BonusChange env s kidId dateISO cs f bs ->
  ~ In (Env.nanoid_2 env) (map StreakBonus.id (State.streakBonuses s)) ->
  List.NoDup (map StreakBonus.id (State.streakBonuses s)) ->
  Forall (fun b => 0 <= StreakBonus.points b) (State.streakBonuses s) ->
  List.NoDup (map StreakBonus.id bs) /\ Forall (fun b => 0 <= StreakBonus.points b) bs.
Proof.
  intros Hb Hfresh Hnd Hpts.
  inversion Hb as [|run Hfull Hrun Hpos Hrem Hfind|b Hfull Hfind]; subst.
  - auto.
  - split; [simpl; now constructor|]. constructor; [simpl; lia|exact Hpts].
  - split; [now apply NoDup_map_filter|now apply Forall_filter].
Qed.

Lemma ledger_parts_nonneg (s : State.t) (k : string) :
  ledgerOk s ->
  0 <= bonusSum (State.streakBonuses s) k /\ 0 <= adjustmentSum (State.adjustments s) k.
Proof.
  intros (_ & _ & _ & _ & Hbpts & Hadj & _). unfold bonusSum, adjustmentSum.
  split; now apply sumZ_map_filter_nonneg.
Qed.

Lemma ledger_toggle {rt : Runtime} env s kidId choreId dateISO s' :
  ledgerOk s ->
  In choreId (map Chore.id (State.chores s)) ->
  ~ In (Env.nanoid_2 env) (map StreakBonus.id (State.streakBonuses s)) ->
  toggle_complete env s kidId choreId dateISO = Ok s' ->
  ledgerOk s'.
Proof.
  intros Hok Hin Hfresh Hred.
  destruct (ledger_parts_nonneg s kidId Hok) as [HB0 HA0].
  destruct Hok as (Hnd & Hpts & Hrefs & Hbnd & Hbpts & Hadj & Hbal).
  destruct (find_chore_present choreId (State.chores s) Hin) as (ch & Hfind & _ & _).
  destruct (toggle_complete_inv _ _ _ _ _ _ Hred)
    as (completed & f & kids1 & Hrec & Hbonus & Hp & Hs').
  rewrite (toggle_points_found _ _ _ _ _ ch Hfind) in Hp. injection Hp as <-.
  rewrite map_points_compose in Hs'.
  assert (Hpts_ch : pointsOf (State.chores s) choreId = Chore.points ch)
    by (unfold pointsOf; now rewrite Hfind).
  set (chores' := toggle_streaks s kidId choreId dateISO completed) in *.
  assert (Hids : map Chore.id chores' = map Chore.id (State.chores s)).
  { unfold chores', toggle_streaks. rewrite map_map. apply map_ext.
    intros c. apply streakUpdate_id. }
  assert (Hstable : forall x, In x (map Chore.id (State.chores s)) ->
                              pointsOf chores' x = pointsOf (State.chores s) x).
  { apply pointsOf_stable; [exact Hnd|now rewrite Hids|].
    intros c Hc. exists (streakUpdate s kidId choreId dateISO completed c).
    split; [unfold chores', toggle_streaks; now apply in_map|].
    split; [apply streakUpdate_id|apply streakUpdate_points]. }
  pose proof (RecordChange_refs _ _ _ _ _ _ _ _ _ Hrec Hin Hrefs) as Hrefs'.
  destruct (BonusChange_sum _ _ _ _ _ _ _ Hbonus Hbnd) as (dB & HdB & Hf).
  destruct (BonusChange_ok _ _ _ _ _ _ _ Hbonus Hfresh Hbnd Hbpts) as (Hbnd' & Hbpts').
  assert (Hearned : forall k,
             earnedFrom chores' (State.completions s') k
             = earnedFrom (State.chores s) (State.completions s) k
               + (if String.eqb kidId k
                  then if wasChecked s kidId choreId dateISO
                       then - Chore.points ch else Chore.points ch
                  else 0)).
  { intros k. rewrite (earnedFrom_stable (State.chores s) chores' _ k Hstable Hrefs').
    rewrite (RecordChange_earned _ _ _ _ _ _ _ _ (State.chores s) k Hrec).
    now rewrite Hpts_ch. }
  assert (Hpts' : Forall (fun c => 0 <= Chore.points c) chores').
  { unfold chores', toggle_streaks. apply List.Forall_forall. intros c Hc.
    apply in_map_iff in Hc as (c0 & <- & Hc0). rewrite streakUpdate_points.
    rewrite List.Forall_forall in Hpts. now apply Hpts. }
  pose proof (earnedFrom_nonneg chores' (State.completions s') kidId Hpts') as HE0.
  assert (HB0' : 0 <= bonusSum (State.streakBonuses s') kidId)
    by (unfold bonusSum; now apply sumZ_map_filter_nonneg).
  rewrite Hs'. rewrite Hs' in Hrefs', Hbnd', Hbpts', Hearned, HdB, HE0, HB0'.
  cbn [toggled State.completions State.streakBonuses] in Hrefs', Hbnd', Hbpts', Hearned,
    HdB, HE0, HB0'.
  unfold ledgerOk, ledger.
  cbn [toggled State.kids State.chores State.completions State.streakBonuses
       State.adjustments].
  split; [now rewrite Hids|]. split; [exact Hpts'|].
  split; [now rewrite Hids|]. split; [exact Hbnd'|]. split; [exact Hbpts'|].
  split; [exact Hadj|].
  rewrite List.Forall_forall in Hbal.
  apply Forall_map_points.
  - intros kid Hkid E. apply String.eqb_eq in E.
    destruct kid as [kid_id kid_name kid_color kid_url kid_emoji kid_points].
    cbn [Kid.with_points Kid.id Kid.points] in *. subst kid_id.
    specialize (Hbal _ Hkid). cbn [Kid.points Kid.id] in Hbal. unfold ledger in Hbal.
    rewrite Hearned, HdB. rewrite Hearned in HE0. rewrite HdB in HB0'.
    rewrite String.eqb_refl in *.
    pose proof (RecordChange_completed _ _ _ _ _ _ _ Hrec) as Hc.
    unfold chorePoints. rewrite Hc.
    destruct (wasChecked s kidId choreId dateISO); simpl; rewrite Hf; lia.
  - intros kid Hkid E. rewrite (Hbal _ Hkid). unfold ledger.
    rewrite Hearned, HdB. rewrite String.eqb_sym in E. rewrite E. lia.
Qed.

Lemma ledger_step {rt : Runtime} env s action s' :
  ledgerOk s -> ledgerStep env s action -> reducer env s action = Ok s' -> ledgerOk s'.
Proof.
  intros Hok Hstep Hred.
  destruct action; cbn [ledgerStep] in Hstep; try contradiction; cbn [reducer] in Hred;
    try (injection Hred as <-).
  - destruct Hok as (Hnd & Hpts & Hrefs & Hbnd & Hbpts & Hadj & Hbal).
    unfold ledgerOk, ledger.
    cbn [State.kids State.chores State.completions State.streakBonuses
         State.adjustments].
    repeat split; try assumption.
    apply Forall_app. split; [exact Hbal|]. constructor; [|constructor].
    cbn [Kid.points Kid.id]. symmetry. exact Hstep.
  - destruct (ledger_parts_nonneg s kidId Hok) as [HB0 HA0].
    destruct Hok as (Hnd & Hpts & Hrefs & Hbnd & Hbpts & Hadj & Hbal).
    pose proof (earnedFrom_nonneg (State.chores s) (State.completions s) kidId Hpts)
      as HE0.
    unfold ledgerOk, ledger.
    cbn [State.kids State.chores State.completions State.streakBonuses
         State.adjustments].
    repeat split; try assumption.
    + constructor; [simpl; exact Hstep|exact Hadj].
    + rewrite List.Forall_forall in Hbal. apply Forall_map_points.
      * intros kid Hkid E. apply String.eqb_eq in E.
        destruct kid as [kid_id kid_name kid_color kid_url kid_emoji kid_points].
        cbn [Kid.with_points Kid.id Kid.points] in *. subst kid_id.
        specialize (Hbal _ Hkid). cbn [Kid.points Kid.id] in Hbal.
        unfold ledger in Hbal. unfold adjustmentSum in *.
        cbn [List.filter Adjustment.kidId]. rewrite String.eqb_refl. simpl. lia.
      * intros kid Hkid E. rewrite (Hbal _ Hkid). unfold ledger, adjustmentSum.
        cbn [List.filter Adjustment.kidId]. rewrite String.eqb_sym in E.
        now rewrite E.
  - apply (ledgerOk_frame s); try reflexivity; try apply Hok. intros ch Hch. eauto.
  - destruct Hstep as [Hp Hfresh].
    destruct Hok as (Hnd & Hpts & Hrest). 
    apply (ledgerOk_frame s); try reflexivity;
      cbn [State.chores]; [now repeat split| | |].
    + rewrite map_app. now apply NoDup_app_one.
    + apply Forall_app. split; [exact Hpts|]. now repeat constructor.
    + intros ch Hch. exists ch. split; [apply in_or_app; now left|auto].
  - pose proof Hok as (Hnd & Hpts & _).
    apply (ledgerOk_frame s); try reflexivity; try exact Hok; cbn [State.chores].
    + eapply Permutation_NoDup; [symmetry; apply Permutation_map, sort_by_order_perm|].
      rewrite map_map. exact Hnd.
    + apply List.Forall_forall. intros c Hc.
      apply (Permutation_in _ (sort_by_order_perm _)) in Hc.
      apply in_map_iff in Hc as (c0 & <- & Hc0).
      rewrite List.Forall_forall in Hpts. cbn [Chore.with_order Chore.points].
      now apply Hpts.
    + intros ch Hch. eexists. split.
      * apply (Permutation_in _ (Permutation_sym (sort_by_order_perm _))).
        apply in_map. exact Hch.
      * split; reflexivity.
  - destruct Hstep as [Hin Hfresh]. exact (ledger_toggle _ _ _ _ _ _ Hok Hin Hfresh Hred).
  - apply (ledgerOk_frame s); try reflexivity; try apply Hok. intros ch Hch. eauto.
  - apply (ledgerOk_frame s); try reflexivity; try apply Hok. intros ch Hch. eauto.
  - apply (ledgerOk_frame s); try reflexivity; try apply Hok. intros ch Hch. eauto.
  - apply (ledgerOk_frame s); try reflexivity; try apply Hok. intros ch Hch. eauto.
  - unfold ledgerOk. simpl. repeat split; constructor.
Qed.

(** X23: the balance of a kid is what the records add up to. From a state
    in which every balance equals the points of the kid's completed chores
    plus its streak bonuses plus its adjustments, a run of actions keeps it
    so, as long as generated ids are fresh, amounts are not negative, toggles
    are of chores of the state, and no chore is deleted or state imported;
    PAYOUT and REDEEM_REWARD are among the actions that keep it, so neither
    takes points away. *)
Theorem balances_are_backed_by_records {rt : Runtime} :
  forall (steps : list (Env.t * Action)) (s0 s : State.t),
    ledgerOk s0 ->
    ledgerRun s0 steps ->
    dispatchAll s0 steps = Ok s ->
    ledgerOk s
    /\ Forall (fun kid => Kid.points kid = ledger s (Kid.id kid)) (State.kids s).
Proof.
  induction steps as [|[env a] steps IH]; simpl; intros s0 s Hok Hrun Hred.
  - injection Hred as <-. split; [exact Hok|apply Hok].
  - destruct Hrun as [Hstep Hrest].
    destruct (reducer env s0 a) as [s1| |] eqn:E; simpl in Hred; try discriminate.
    apply (IH s1 s); [|exact Hrest|exact Hred].
    exact (ledger_step env s0 a s1 Hok Hstep E).
Qed.

Lemma balances_are_backed_witness :
  ledgerOk sessionEnd
  /\ Forall (fun kid => Kid.points kid = ledger sessionEnd (Kid.id kid))
            (State.kids sessionEnd).
Proof.
  apply (balances_are_backed_by_records (rt := zoneUTC) sessionSteps emptyState sessionEnd).
  - unfold ledgerOk. simpl. repeat split; constructor.
  - simpl. repeat split; try reflexivity; try lia; try (now left);
      try (intros []).
  - vm_compute. reflexivity.
Defined.
